(** * FastSpeech2 TTS service: model store, model cache, tag-aware
      segmentation and chunk synthesis

    A shallow embedding of [src/model_store.py] and [src/tts_engine.py],
    with the parser of [src/config.py] and the stub of
    [src/text_processor.py].

    - Python [str] values that are scanned character by character (the text
      to synthesise) are lists of Unicode code points ([list N]); [len] is
      [length].
    - Python [float] is IEEE-754 binary64, taken from the Standard Library's
      [SpecFloat] (precision 53, maximal exponent 1024).
    - Exceptions are the [Raise] branch of [result].
    - The local file system, the remote bucket, the lock table and the model
      cache are explicit state. *)

From Stdlib Require Import ZArith NArith List String Ascii Lia SpecFloat.
From Stdlib Require Import DecimalString DecimalFacts DecimalNat.
From stdpp Require Import base option list gmap strings sorting.

Local Open Scope N_scope.

(** ** Exceptions *)

Inductive exn :=
| ValueError | OverflowError | RuntimeError | FileNotFoundError
| KeyError | TypeError | AttributeError | ExternalError | MemoryError.

Inductive result (A : Type) :=
| Ok (a : A)
| Raise (e : exn).
Arguments Ok {A} a.
Arguments Raise {A} e.

(** Sequencing: the first exception raised ends the computation. *)
#[global] Instance result_ret : MRet result := fun A a => Ok a.
#[global] Instance result_bind : MBind result := fun A B k m =>
  match m with
  | Ok a => k a
  | Raise e => Raise e
  end.

(** ** Text *)

Abbreviation text := (list N).

(** An ASCII literal as a text. *)
Definition str (s : string) : text :=
  List.map N_of_ascii (list_ascii_of_string s).

(** Code points for which [str.isspace] holds; [str.split()] and
    [str.strip()] use the same set. *)
Definition is_space (c : N) : bool :=
  ((9 <=? c) && (c <=? 13)) || ((28 <=? c) && (c <=? 32))
  || (c =? 133) || (c =? 160) || (c =? 5760)
  || ((8192 <=? c) && (c <=? 8202))
  || (c =? 8232) || (c =? 8233) || (c =? 8239) || (c =? 8287) || (c =? 12288).

Definition is_digit (c : N) : bool := (48 <=? c) && (c <=? 57).

Definition text_eqb (a b : text) : bool := bool_decide (a = b).

(** Prepend a character to the first piece of a split. *)
Definition cons_hd (c : N) (l : list text) : list text :=
  match l with
  | w :: ws => (c :: w) :: ws
  | [] => [[c]]
  end.

(** Split at every character satisfying [p], keeping empty pieces. *)
Fixpoint split_on (p : N -> bool) (s : text) : list text :=
  match s with
  | [] => [[]]
  | c :: s' => if p c then [] :: split_on p s' else cons_hd c (split_on p s')
  end.

Definition nonempty (w : text) : bool :=
  match w with [] => false | _ => true end.

Definition nonempty_list {A} (l : list A) : bool :=
  match l with [] => false | _ => true end.

(** [s.split(sep)] for a one-character separator. *)
Definition split_char (sep : N) (s : text) : list text :=
  split_on (N.eqb sep) s.

(** [s.split()]: pieces between runs of whitespace, no empty piece. *)
Definition split_ws (s : text) : list text :=
  List.filter nonempty (split_on is_space s).

Fixpoint lstrip (s : text) : text :=
  match s with
  | c :: s' => if is_space c then lstrip s' else s
  | [] => []
  end.

(** [s.strip()] *)
Definition strip (s : text) : text := rev (lstrip (rev (lstrip s))).

(** [sep.join(l)] *)
Fixpoint join (sep : text) (l : list text) : text :=
  match l with
  | [] => []
  | [w] => w
  | w :: ws => w ++ sep ++ join sep ws
  end.

(** [s.startswith(p)], returning what follows the prefix. *)
Fixpoint strip_prefix (p s : text) : option text :=
  match p, s with
  | [], _ => Some s
  | a :: p', b :: s' => if a =? b then strip_prefix p' s' else None
  | _ :: _, [] => None
  end.

Definition starts_with (p s : text) : bool :=
  match strip_prefix p s with Some _ => true | None => false end.

(** [s.replace(old, new)] for a non-empty [old]: left to right, every
    occurrence that does not overlap an earlier one.  [skip] counts the
    characters of the occurrence just replaced that are still to be passed. *)
Fixpoint replace_go (old new : text) (skip : nat) (s : text) : text :=
  match s with
  | [] => []
  | c :: s' =>
    match skip with
    | S k => replace_go old new k s'
    | O =>
      if starts_with old s
      then new ++ replace_go old new (length old - 1) s'
      else c :: replace_go old new 0 s'
    end
  end.

Definition replace (s old new : text) : text := replace_go old new 0 s.

(** Longest prefix whose characters satisfy [p], and the rest. *)
Fixpoint span (p : N -> bool) (s : text) : text * text :=
  match s with
  | c :: s' => if p c then let '(a, b) := span p s' in (c :: a, b) else ([], s)
  | [] => ([], [])
  end.

(** Decimal digits of a natural number, as in an f-string. *)
Definition decimal (n : nat) : text :=
  str (NilZero.string_of_uint (Nat.to_uint n)).

(** ** Floating point

    [float] is binary64.  Operations round to nearest, ties to even, as the
    hardware does. *)

Abbreviation float := spec_float.

Definition fmul : float -> float -> float := SFmul 53 1024.
Definition fdiv : float -> float -> float := SFdiv 53 1024.

(** Conversion of a Python [int] operand in mixed arithmetic. *)
Definition float_of_int (z : Z) : result float :=
  match binary_normalize 53 1024 z 0 false with
  | S754_infinity _ => Raise OverflowError
  | f => Ok f
  end.

Definition digit_val (c : N) : Z := Z.of_N (c - 48).

Definition digits_val (ds : text) : Z :=
  fold_left (fun acc c => (10 * acc + digit_val c)%Z) ds 0%Z.

(** The binary64 nearest to the decimal [ip.fp]: the quotient of two exact
    integers, rounded once. *)
Definition float_of_decimal (ip fp : text) : float :=
  match digits_val (ip ++ fp) with
  | Zpos n =>
    SFdiv 53 1024 (S754_finite false n 0)
      (S754_finite false (Z.to_pos (10 ^ Z.of_nat (length fp))) 0)
  | _ => S754_zero false
  end.

(** [float(s)] for a string [s] over digits and the period, which is all
    that the groups [[0-9.]+] of the two patterns can capture: digits with at
    most one period and at least one digit; [ValueError] otherwise. *)
Definition py_float (s : text) : result float :=
  let '(ip, r) := span is_digit s in
  match r with
  | [] => if nonempty ip then Ok (float_of_decimal ip []) else Raise ValueError
  | c :: fp =>
    if (c =? 46) && forallb is_digit fp && (nonempty ip || nonempty fp)
    then Ok (float_of_decimal ip fp)
    else Raise ValueError
  end.

(** [int(x)]: truncation toward zero. *)
Definition py_int (x : float) : result Z :=
  match x with
  | S754_zero _ => Ok 0%Z
  | S754_finite s m e =>
    Ok (cond_Zopp s (if (0 <=? e)%Z then Zpos m * 2 ^ e else Zpos m / 2 ^ (- e))%Z)
  | S754_infinity _ => Raise OverflowError
  | S754_nan => Raise ValueError
  end.

(** The literals [1000.0] and [0.5]. *)
Definition f1000 : float := Eval vm_compute in float_of_decimal (str "1000") [].
Definition f0_5 : float := Eval vm_compute in float_of_decimal (str "0") (str "5").

(** ** The two tag patterns *)

(** The class [[0-9.]]. *)
Definition in_num_class (c : N) : bool := is_digit c || (c =? 46).

(** [<alpha=([0-9.]+)>] tried at the head of [s]; group 1 on success.  The
    class excludes [>], so the greedy group is the whole run. *)
Definition match_alpha (s : text) : option text :=
  match strip_prefix (str "<alpha=") s with
  | Some r =>
    match span in_num_class r with
    | (c :: num, d :: _) => if d =? 62 then Some (c :: num) else None
    | _ => None
    end
  | None => None
  end.

(** What [re.finditer] yields for the silence pattern: groups 0, 1 and 2. *)
Record sil_match := SilMatch {
  sm_tag : text;
  sm_value : text;
  sm_unit : text
}.

Definition mk_sil_match (num unit : text) : sil_match :=
  SilMatch (str "<sil=" ++ num ++ unit ++ str ">") num unit.

(** [<sil=([0-9.]+)(ms|s)>] tried at the head of [s]. *)
Definition match_sil (s : text) : option sil_match :=
  match strip_prefix (str "<sil=") s with
  | Some r =>
    match span in_num_class r with
    | (c :: num, r') =>
      if starts_with (str "ms>") r' then Some (mk_sil_match (c :: num) (str "ms"))
      else if starts_with (str "s>") r' then Some (mk_sil_match (c :: num) (str "s"))
      else None
    | _ => None
    end
  | None => None
  end.

(** [re.split(alpha_pattern, s)]: the pieces between matches, each followed
    by group 1 of the match that ends it. *)
Fixpoint re_split_go (skip : nat) (s : text) : list text :=
  match s with
  | [] => [[]]
  | c :: s' =>
    match skip with
    | S k => re_split_go k s'
    | O =>
      match match_alpha s with
      | Some num => [] :: num :: re_split_go (length num + 7) s'
      | None => cons_hd c (re_split_go 0 s')
      end
    end
  end.

Definition re_split_alpha (s : text) : list text := re_split_go 0 s.

(** [list(re.finditer(sil_pattern, s))] *)
Fixpoint re_finditer_go (skip : nat) (s : text) : list sil_match :=
  match s with
  | [] => []
  | c :: s' =>
    match skip with
    | S k => re_finditer_go k s'
    | O =>
      match match_sil s with
      | Some m => m :: re_finditer_go (length (sm_tag m) - 1) s'
      | None => re_finditer_go 0 s'
      end
    end
  end.

Definition re_finditer_sil (s : text) : list sil_match := re_finditer_go 0 s.

(** ** TTSEngine.extract_text_alpha_chunks *)

(** The tuple [(text, alpha, is_silence, silence_duration)]. *)
Record chunk := Chunk {
  chunk_text : text;
  chunk_alpha : float;
  is_silence : bool;
  silence_duration : option float
}.

Definition placeholder (j : nat) : text :=
  str "__SIL_" ++ decimal j ++ str "__".

(** [for j, match in enumerate(sil_matches)] *)
Fixpoint sil_loop (j : nat) (sil_matches : list sil_match)
    (sil_placeholders : gmap text float) (current_block : text)
  : result (gmap text float * text) :=
  match sil_matches with
  | [] => Ok (sil_placeholders, current_block)
  | m :: rest =>
    value ← py_float (sm_value m);
    let duration :=
      if text_eqb (sm_unit m) (str "ms") then fdiv value f1000 else value in
    sil_loop (S j) rest
      (<[placeholder j := duration]> sil_placeholders)
      (replace current_block (sm_tag m) (str " " ++ placeholder j ++ str " "))
  end.

(** [for word in words], on the state [(buffer, chunks)]. *)
Fixpoint words_loop (alpha : float) (sil_placeholders : gmap text float)
    (words : list text) (buffer : list text) (chunks : list chunk)
  : list text * list chunk :=
  match words with
  | [] => (buffer, chunks)
  | word :: rest =>
    match sil_placeholders !! word with
    | Some d =>
      let chunks1 :=
        if nonempty_list buffer
        then chunks ++ [Chunk (join (str " ") buffer) alpha false None]
        else chunks in
      words_loop alpha sil_placeholders rest []
        (chunks1 ++ [Chunk [] alpha true (Some d)])
    | None => words_loop alpha sil_placeholders rest (buffer ++ [word]) chunks
    end
  end.

(** [for sentence in sentences] *)
Fixpoint sentences_loop (alpha : float) (sil_placeholders : gmap text float)
    (sentences : list text) (chunks : list chunk) : list chunk :=
  match sentences with
  | [] => chunks
  | sentence :: rest =>
    let '(buffer, chunks1) :=
      words_loop alpha sil_placeholders (split_ws sentence) [] chunks in
    sentences_loop alpha sil_placeholders rest
      (if nonempty_list buffer
       then chunks1 ++ [Chunk (join (str " ") buffer) alpha false None]
       else chunks1)
  end.

(** The body of the [while] loop after [alpha] and [current_block] are set. *)
Definition process_block (alpha : float) (current_block : text)
    (chunks : list chunk) : result (list chunk) :=
  '(sil_placeholders, current_block) ←
    sil_loop 0 (re_finditer_sil current_block) ∅ current_block;
  let sentences :=
    List.map strip
      (List.filter (fun s => nonempty (strip s)) (split_char 46 current_block)) in
  Ok (sentences_loop alpha sil_placeholders sentences chunks).

(** [while i < len(alpha_blocks)].  [i] grows at every turn, so
    [len(alpha_blocks)] turns suffice. *)
Fixpoint blocks_loop (fuel : nat) (alpha_blocks : list text) (i : nat)
    (alpha : float) (chunks : list chunk) : result (list chunk) :=
  match fuel with
  | O => Ok chunks
  | S fuel' =>
    if bool_decide (i < length alpha_blocks)%nat then
      '(alpha, current_block, i) ←
        (if bool_decide (i = 0)%nat
         then Ok (alpha, nth i alpha_blocks [], S i)
         else
           a ← py_float (nth i alpha_blocks []);
           Ok (a,
               (if bool_decide (S i < length alpha_blocks)%nat
                then nth (S i) alpha_blocks [] else []),
               S (S i)));
      chunks ← process_block alpha current_block chunks;
      blocks_loop fuel' alpha_blocks i alpha chunks
    else Ok chunks
  end.

Definition extract_text_alpha_chunks (text0 : text) (default_alpha : float)
  : result (list chunk) :=
  let alpha_blocks := re_split_alpha text0 in
  blocks_loop (length alpha_blocks) alpha_blocks 0 default_alpha [].

Definition f1_0 : float := Eval vm_compute in float_of_decimal (str "1") [].

(** ** Paths and the local file system *)

Local Open Scope string_scope.

(** A [pathlib] POSIX path: the root ([""], ["/"] or ["//"]) and the
    components. *)
Record path := MkPath { p_root : string; p_parts : list string }.

Fixpoint split_slash (s : string) : list string :=
  match s with
  | EmptyString => [EmptyString]
  | String c s' =>
    if Ascii.eqb c "/" then EmptyString :: split_slash s'
    else match split_slash s' with
         | w :: ws => String c w :: ws
         | [] => [String c EmptyString]
         end
  end.

(** [Path(s)]: empty and ["."] components are dropped. *)
Definition Path (s : string) : path :=
  {| p_root :=
       if String.prefix "//" s && negb (String.prefix "///" s) then "//"
       else if String.prefix "/" s then "/" else "";
     p_parts :=
       List.filter (fun x => negb (String.eqb x "") && negb (String.eqb x "."))
         (split_slash s) |}.

(** [p / s]: an absolute [s] replaces [p]. *)
Definition path_join (p : path) (s : string) : path :=
  let q := Path s in
  if String.eqb (p_root q) "" then MkPath (p_root p) (p_parts p ++ p_parts q)
  else q.

Infix "/:" := path_join (at level 40, left associativity).

(** [str(p)] *)
Definition path_str (p : path) : string :=
  match p_parts p with
  | [] => if String.eqb (p_root p) "" then "." else p_root p
  | _ => p_root p +:+ String.concat "/" (p_parts p)
  end.

(** [p.is_absolute()] *)
Definition is_absolute (p : path) : bool := negb (String.eqb (p_root p) "").

Definition path_parent (p : path) : path :=
  MkPath (p_root p) (removelast (p_parts p)).

(** A YAML or JSON document: a mapping, or anything else. *)
#[warnings="-register-all"]
Inductive yaml :=
| YScalar (s : string)
| YMap (m : gmap string yaml).

(** What a file holds: a parsed document, or bytes that are no document. *)
Inductive fdata :=
| Blob (b : N)
| Doc (d : yaml).

Inductive node :=
| Dir
| File (d : fdata).

Abbreviation filesystem := (gmap string node).

(** [p.exists()] *)
Definition path_exists (fs : filesystem) (p : path) : bool :=
  bool_decide (is_Some (fs !! path_str p)).

(** [p.mkdir(parents=True, exist_ok=True)]; [None] when a component is a
    file. *)
Fixpoint mkdir_go (fs : filesystem) (root : string) (pre rest : list string)
  : option filesystem :=
  match rest with
  | [] => Some fs
  | x :: rest' =>
    let k := path_str (MkPath root (pre ++ [x])) in
    match fs !! k with
    | Some (File _) => None
    | Some Dir => mkdir_go fs root (pre ++ [x]) rest'
    | None => mkdir_go (<[k := Dir]> fs) root (pre ++ [x]) rest'
    end
  end.

Definition mkdir_p (fs : filesystem) (p : path) : option filesystem :=
  mkdir_go fs (p_root p) [] (p_parts p).

(** Creating or overwriting the file [p]; [None] when [p] is a directory. *)
Definition write_file (fs : filesystem) (p : path) (d : fdata)
  : option filesystem :=
  match fs !! path_str p with
  | Some Dir => None
  | _ => Some (<[path_str p := File d]> fs)
  end.

(** ** ModelStore *)

Inductive gcs_call :=
| ListBlobs (prefix : string)
| DownloadBlob (name : string).

(** The store object together with the world it acts on: the local file
    system, the bucket (its blobs in listing order) and the requests sent to
    it. *)
Record store := Store {
  models_dir : path;
  gcs_bucket : option (list (string * fdata));
  gcs_online : bool;
  fs : filesystem;
  download_locks : gset string;
  gcs_log : list gcs_call
}.

Definition set_fs (st : store) (f : filesystem) : store :=
  Store (models_dir st) (gcs_bucket st) (gcs_online st) f
        (download_locks st) (gcs_log st).

Definition log_gcs (st : store) (c : gcs_call) : store :=
  Store (models_dir st) (gcs_bucket st) (gcs_online st) (fs st)
        (download_locks st) (gcs_log st ++ [c]).

(** [_get_download_lock]: the lock of [key], created on first use. *)
Definition _get_download_lock (st : store) (key : string) : store :=
  Store (models_dir st) (gcs_bucket st) (gcs_online st) (fs st)
        ({[key]} ∪ download_locks st) (gcs_log st).

Definition get_model_path (st : store) (language gender : string) : path :=
  models_dir st /: language /: gender /: "model".

Definition get_vocoder_path (st : store) (language gender : string) : path :=
  let lang_vocoder := models_dir st /: "vocoder" /: gender /: language in
  if path_exists (fs st) lang_vocoder then lang_vocoder
  else
    let aryan := models_dir st /: "vocoder" /: gender /: "aryan" in
    if path_exists (fs st) aryan then aryan else lang_vocoder.

Definition model_required_files : list string :=
  ["config.yaml"; "model.pth"; "feats_stats.npz"; "pitch_stats.npz";
   "energy_stats.npz"].

Definition vocoder_required_files : list string := ["config.json"; "generator"].

Definition model_exists_locally (st : store) (language gender : string) : bool :=
  let model_path := get_model_path st language gender in
  forallb (fun f => path_exists (fs st) (model_path /: f)) model_required_files.

Definition vocoder_exists_locally (st : store) (language gender : string)
  : bool :=
  let vocoder_path := get_vocoder_path st language gender in
  forallb (fun f => path_exists (fs st) (vocoder_path /: f))
    vocoder_required_files.

Definition ends_with_slash (s : string) : bool :=
  match rev (list_ascii_of_string s) with
  | c :: _ => Ascii.eqb c "/"
  | [] => false
  end.

Fixpoint lstrip_slash (s : string) : string :=
  match s with
  | String c s' => if Ascii.eqb c "/" then lstrip_slash s' else s
  | EmptyString => EmptyString
  end.

Definition drop_string (n : nat) (s : string) : string :=
  String.substring n (String.length s - n) s.

(** [for blob in blobs] of [download_from_gcs]; [false] when an exception
    ended the loop.  The exceptions followed here are those of the local
    file system ([mkdir], opening the file); the transfer of a blob itself
    is taken to succeed, and what the library leaves on disk when a
    transfer fails is not described. *)
Fixpoint download_blobs (st : store) (gcs_prefix : string) (local_path : path)
    (blobs : list (string * fdata)) : bool * store :=
  match blobs with
  | [] => (true, st)
  | (name, d) :: rest =>
    if ends_with_slash name then download_blobs st gcs_prefix local_path rest
    else
      let rel_path := lstrip_slash (drop_string (String.length gcs_prefix) name) in
      if String.eqb rel_path "" then download_blobs st gcs_prefix local_path rest
      else
        let dest_file := local_path /: rel_path in
        match mkdir_p (fs st) (path_parent dest_file) with
        | None => (false, st)
        | Some fs1 =>
          let st1 := log_gcs (set_fs st fs1) (DownloadBlob name) in
          match write_file fs1 dest_file d with
          | None => (false, st1)
          | Some fs2 => download_blobs (set_fs st1 fs2) gcs_prefix local_path rest
          end
        end
  end.

Definition download_from_gcs (st : store) (gcs_prefix : string)
    (local_path : path) : bool * store :=
  match gcs_bucket st with
  | None => (false, st)
  | Some all_blobs =>
    match mkdir_p (fs st) local_path with
    | None => (false, st)
    | Some fs1 =>
      let st1 := log_gcs (set_fs st fs1) (ListBlobs gcs_prefix) in
      if negb (gcs_online st) then (false, st1)
      else
        let blobs :=
          List.filter (fun b => String.prefix gcs_prefix (fst b)) all_blobs in
        if nonempty_list blobs
        then download_blobs st1 gcs_prefix local_path blobs
        else (false, st1)
    end
  end.

(** The body of [ensure_model] that runs while the download lock is held. *)
Definition ensure_model_locked (st : store) (language gender : string)
  : (bool * string) * store :=
  if model_exists_locally st language gender
  then ((true, "Model exists locally"), st)
  else
    match gcs_bucket st with
    | Some _ =>
      let gcs_prefix := language +:+ "/" +:+ gender +:+ "/model" in
      let local_path := get_model_path st language gender in
      let '(ok, st1) := download_from_gcs st gcs_prefix local_path in
      if ok then
        if model_exists_locally st1 language gender
        then ((true, "Model downloaded from GCS"), st1)
        else ((false, "Download completed but required files missing"), st1)
      else ((false, "Failed to download model from GCS"), st1)
    | None => ((false, "Model not found locally and GCS not configured"), st)
    end.

Definition model_lock_key (language gender : string) : string :=
  "model_" +:+ language +:+ "_" +:+ gender.

Definition vocoder_lock_key (language gender : string) : string :=
  "vocoder_" +:+ language +:+ "_" +:+ gender.

(** [ensure_model] run by one thread with no other thread holding the lock. *)
Definition ensure_model (st : store) (language gender : string)
  : (bool * string) * store :=
  ensure_model_locked (_get_download_lock st (model_lock_key language gender))
    language gender.

Definition ensure_vocoder_locked (st : store) (language gender : string)
  : (bool * string) * store :=
  if vocoder_exists_locally st language gender
  then ((true, "Vocoder exists locally"), st)
  else
    match gcs_bucket st with
    | Some _ =>
      let gcs_prefix := "vocoder/" +:+ gender +:+ "/" +:+ language in
      let local_path := models_dir st /: "vocoder" /: gender /: language in
      let '(ok, st1) := download_from_gcs st gcs_prefix local_path in
      if ok && vocoder_exists_locally st1 language gender
      then ((true, "Vocoder downloaded from GCS"), st1)
      else
        let gcs_prefix := "vocoder/" +:+ gender +:+ "/aryan" in
        let local_path := models_dir st1 /: "vocoder" /: gender /: "aryan" in
        let '(ok, st2) := download_from_gcs st1 gcs_prefix local_path in
        if ok && vocoder_exists_locally st2 language gender
        then ((true, "Vocoder downloaded from GCS (aryan)"), st2)
        else ((false, "Failed to download vocoder from GCS"), st2)
    | None => ((false, "Vocoder not found locally and GCS not configured"), st)
    end.

Definition ensure_vocoder (st : store) (language gender : string)
  : (bool * string) * store :=
  ensure_vocoder_locked
    (_get_download_lock st (vocoder_lock_key language gender)) language gender.

(** ** TTSEngine *)

Inductive preprocessor :=
| StubPreprocessor
| CharTextPreprocessor
| TTSPreprocessor
| TTSDurAlignPreprocessor.

(** [TextPreprocessorFactory.get_preprocessor]; [importable] tells whether
    the import of the preprocessing module succeeds. *)
Definition get_preprocessor (importable : bool) (language : string)
  : preprocessor :=
  if negb importable then StubPreprocessor
  else if String.eqb language "urdu" || String.eqb language "punjabi"
  then CharTextPreprocessor
  else if String.eqb language "english" then TTSPreprocessor
  else TTSDurAlignPreprocessor.

(** A constructed model object: its identity, the file it was built from and
    the configuration document it read. *)
Record handle := Handle {
  h_id : nat;
  h_file : string;
  h_config : yaml
}.

Abbreviation loaded := (handle * handle * preprocessor)%type.

Record Config := MkConfig {
  sampling_rate : Z;
  max_text_length : Z
}.

(** The calls [synthesize] makes, in order. *)
Inductive call :=
| CallLoadModel (language gender : string)
| CallExtract (t : text).

Record engine := Engine {
  config : Config;
  preprocessing_importable : bool;
  model_store : store;
  model_cache : gmap (string * string) loaded;
  next_object : nat;
  calls : list call
}.

Definition set_store (e : engine) (st : store) : engine :=
  Engine (config e) (preprocessing_importable e) st (model_cache e)
         (next_object e) (calls e).

Definition set_cache (e : engine) (c : gmap (string * string) loaded) : engine :=
  Engine (config e) (preprocessing_importable e) (model_store e) c
         (next_object e) (calls e).

Definition log_call (e : engine) (c : call) : engine :=
  Engine (config e) (preprocessing_importable e) (model_store e) (model_cache e)
         (next_object e) (calls e ++ [c]).

(** Constructing a model object: a fresh identity. *)
Definition construct (e : engine) (file : string) (conf : yaml)
  : handle * engine :=
  (Handle (next_object e) file conf,
   Engine (config e) (preprocessing_importable e) (model_store e)
          (model_cache e) (S (next_object e)) (calls e)).

(** [config[section]["stats_file"] = v] *)
Definition set_stats_file (conf : yaml) (section v : string) : result yaml :=
  match conf with
  | YMap m =>
    match m !! section with
    | Some (YMap inner) =>
      Ok (YMap (<[section := YMap (<["stats_file" := YScalar v]> inner)]> m))
    | Some (YScalar _) => Raise TypeError
    | None => Raise KeyError
    end
  | YScalar _ => Raise TypeError
  end.

(** [load_fastspeech2] after [ensure_model] has returned: the two existence
    checks, the rewrite of [config.yaml], the construction. *)
Definition build_fastspeech2 (e : engine) (language gender : string)
  : result handle * engine :=
  let st := model_store e in
  let model_path := get_model_path st language gender in
  let config_file := model_path /: "config.yaml" in
  let model_file := model_path /: "model.pth" in
  if negb (path_exists (fs st) config_file) then (Raise FileNotFoundError, e)
  else if negb (path_exists (fs st) model_file) then (Raise FileNotFoundError, e)
  else
    match fs st !! path_str config_file with
    | Some (File (Doc conf)) =>
      let feat_path := model_path /: "feats_stats.npz" in
      let pitch_path := model_path /: "pitch_stats.npz" in
      let energy_path := model_path /: "energy_stats.npz" in
      match
        conf ← set_stats_file conf "normalize_conf" (path_str feat_path);
        conf ← set_stats_file conf "pitch_normalize_conf" (path_str pitch_path);
        set_stats_file conf "energy_normalize_conf" (path_str energy_path)
      with
      | Ok conf' =>
        let e1 :=
          set_store e (set_fs st (<[path_str config_file := File (Doc conf')]> (fs st))) in
        let '(h, e2) := construct e1 (path_str model_file) conf' in
        (Ok h, e2)
      | Raise x => (Raise x, e)
      end
    | _ => (Raise ExternalError, e)
    end.

Definition load_fastspeech2 (e : engine) (language gender : string)
  : result handle * engine :=
  let '((success, msg), st) := ensure_model (model_store e) language gender in
  let e := set_store e st in
  if negb success then (Raise RuntimeError, e)
  else build_fastspeech2 e language gender.

(** [load_vocoder] after [ensure_vocoder] has returned. *)
Definition build_vocoder (e : engine) (language gender : string)
  : result handle * engine :=
  let st := model_store e in
  let vocoder_path := get_vocoder_path st language gender in
  let config_file := vocoder_path /: "config.json" in
  let generator_file := vocoder_path /: "generator" in
  if negb (path_exists (fs st) config_file) then (Raise FileNotFoundError, e)
  else if negb (path_exists (fs st) generator_file)
  then (Raise FileNotFoundError, e)
  else
    match fs st !! path_str config_file with
    | Some (File (Doc (YMap h))) =>
      match h !! "seed" with
      | Some _ =>
        let '(generator, e1) := construct e (path_str generator_file) (YMap h) in
        (Ok generator, e1)
      | None => (Raise AttributeError, e)
      end
    | Some (File (Doc (YScalar _))) => (Raise TypeError, e)
    | Some (File (Blob _)) => (Raise ValueError, e)
    | _ => (Raise ExternalError, e)
    end.

Definition load_vocoder (e : engine) (language gender : string)
  : result handle * engine :=
  let '((success, msg), st) := ensure_vocoder (model_store e) language gender in
  let e := set_store e st in
  if negb success then (Raise RuntimeError, e)
  else build_vocoder e language gender.

Definition load_model (e : engine) (language gender : string)
  : result loaded * engine :=
  let cache_key := (language, gender) in
  match model_cache e !! cache_key with
  | Some entry => (Ok entry, e)
  | None =>
    match load_fastspeech2 e language gender with
    | (Raise x, e1) => (Raise x, e1)
    | (Ok fs2_model, e1) =>
      match load_vocoder e1 language gender with
      | (Raise x, e2) => (Raise x, e2)
      | (Ok vocoder, e2) =>
        let preprocessor :=
          get_preprocessor (preprocessing_importable e2) language in
        let entry := (fs2_model, vocoder, preprocessor) in
        (Ok entry, set_cache e2 (<[cache_key := entry]> (model_cache e2)))
      end
    end
  end.

(** [np.zeros(n, dtype=np.int16)].  A negative size is a [ValueError].
    Whether an array of [n] samples can be made is up to the library and the
    machine: [np_alloc n] is [None] when it can, and otherwise the exception
    that [np.zeros] raises ([MemoryError] when the memory is not there,
    [ValueError] for a size beyond the largest dimension). *)
Definition np_zeros (np_alloc : Z -> option exn) (n : Z) : result (list Z) :=
  if (n <? 0)%Z then Raise ValueError
  else
    match np_alloc n with
    | Some x => Raise x
    | None => Ok (repeat 0%Z (Z.to_nat n))
    end.

(** [int(x * rate)] for a float [x] and the integer [rate]. *)
Definition int_of_scaled (x : float) (rate : Z) : result Z :=
  r ← float_of_int rate;
  py_int (fmul x r).

(** An entry of [futures]: a silence buffer, or a submitted task with the
    outcome its [result()] will have. *)
Inductive future_item :=
| Buffer (a : list Z)
| Future (outcome : result (list Z)).

Section Synthesis.

(** The collaborators outside this repository: the preprocessor's
    [preprocess] (its first component) and the acoustic model followed by
    the vocoder, as [synthesize_chunk] runs them. *)
Variable preprocess : preprocessor -> text -> string -> string -> result (list text).
Variable synthesize_chunk : text -> handle -> handle -> float -> result (list Z).

(** What [np.zeros] does with a size that is not negative: [None] when it
    returns the array, the exception it raises otherwise. *)
Variable np_alloc : Z -> option exn.

(** The first loop of [synthesize]: one entry per chunk that is a silence
    or has text. *)
Fixpoint submit_loop (rate : Z) (language gender : string) (m : loaded)
    (text_alpha_chunks : list chunk) (futures : list future_item)
  : result (list future_item) :=
  match text_alpha_chunks with
  | [] => Ok futures
  | c :: rest =>
    if is_silence c then
      match silence_duration c with
      | Some sil_duration =>
        silence_samples ← int_of_scaled sil_duration rate;
        silence_audio ← np_zeros np_alloc silence_samples;
        submit_loop rate language gender m rest (futures ++ [Buffer silence_audio])
      | None => Raise TypeError
      end
    else if negb (nonempty (strip (chunk_text c)))
    then submit_loop rate language gender m rest futures
    else
      let '(model, vocoder, pre) := m in
      preprocessed_text ← preprocess pre (chunk_text c) language gender;
      let preprocessed_text := join (str " ") preprocessed_text in
      submit_loop rate language gender m rest
        (futures ++
         [Future (synthesize_chunk preprocessed_text model vocoder (chunk_alpha c))])
  end.

(** The second loop: results in submission order. *)
Fixpoint collect_loop (futures : list future_item) (audio_arr : list (list Z))
  : result (list (list Z)) :=
  match futures with
  | [] => Ok audio_arr
  | Buffer a :: rest => collect_loop rest (audio_arr ++ [a])
  | Future r :: rest => a ← r; collect_loop rest (audio_arr ++ [a])
  end.

Definition synthesize (e : engine) (text0 : text) (language gender : string)
    (alpha : float) : result (list Z) * engine :=
  if (max_text_length (config e) <? Z.of_nat (length text0))%Z
  then (Raise ValueError, e)
  else
    let e := log_call e (CallLoadModel language gender) in
    match load_model e language gender with
    | (Raise x, e) => (Raise x, e)
    | (Ok m, e) =>
      let e := log_call e (CallExtract text0) in
      (text_alpha_chunks ← extract_text_alpha_chunks text0 alpha;
       futures ← submit_loop (sampling_rate (config e)) language gender m
                   text_alpha_chunks [];
       audio_arr ← collect_loop futures [];
       if negb (nonempty_list audio_arr)
       then silence_samples ← int_of_scaled f0_5 (sampling_rate (config e));
            np_zeros np_alloc silence_samples
       else Ok (concat audio_arr),
       e)
    end.

(** What one chunk adds to [audio_arr]: nothing for a chunk without text,
    a buffer of zeros for a silence, the synthesised samples otherwise. *)
Definition chunk_audio (rate : Z) (language gender : string) (m : loaded)
    (c : chunk) : result (option (list Z)) :=
  if is_silence c then
    match silence_duration c with
    | Some sil_duration =>
      silence_samples ← int_of_scaled sil_duration rate;
      silence_audio ← np_zeros np_alloc silence_samples;
      Ok (Some silence_audio)
    | None => Raise TypeError
    end
  else if negb (nonempty (strip (chunk_text c))) then Ok None
  else
    let '(model, vocoder, pre) := m in
    preprocessed_text ← preprocess pre (chunk_text c) language gender;
    a ← synthesize_chunk (join (str " ") preprocessed_text) model vocoder
          (chunk_alpha c);
    Ok (Some a).

(** What the chunks add together, in chunk order. *)
Fixpoint chunks_audio (rate : Z) (language gender : string) (m : loaded)
    (chunks : list chunk) : result (list (list Z)) :=
  match chunks with
  | [] => Ok []
  | c :: rest =>
    o ← chunk_audio rate language gender m c;
    bufs ← chunks_audio rate language gender m rest;
    Ok (match o with Some a => a :: bufs | None => bufs end)
  end.


End Synthesis.

(** ** Threads inside [load_model]

    [load_model] takes no lock of its own.  A thread that runs it passes
    through the points below; between two points another thread may run.
    The only locks are the download locks taken inside [ensure_model] and
    [ensure_vocoder]. *)

Inductive pc :=
| AtCheck
| AtModelLock
| AtModelLocked
| AtBuildFastspeech2
| AtVocoderLock (fs2_model : handle)
| AtVocoderLocked (fs2_model : handle)
| AtBuildVocoder (fs2_model : handle)
| AtInsert (fs2_model vocoder : handle)
| AtReturn
| Returned (entry : loaded)
| Raised (x : exn).

Record thread := Thread {
  t_language : string;
  t_gender : string;
  t_pc : pc
}.

(** The shared engine, the download locks currently held, the threads. *)
Record system := System {
  sys_engine : engine;
  held : gset string;
  threads : list thread
}.

(** One move of a thread at [p]: the new engine, the new set of held locks
    and the next point; [None] when the thread has finished or waits for a
    lock. *)
Definition step_pc (e : engine) (h : gset string) (language gender : string)
    (p : pc) : option (engine * gset string * pc) :=
  let cache_key := (language, gender) in
  match p with
  | AtCheck =>
    match model_cache e !! cache_key with
    | Some entry => Some (e, h, Returned entry)
    | None => Some (e, h, AtModelLock)
    end
  | AtModelLock =>
    let key := model_lock_key language gender in
    if bool_decide (key ∈ h) then None
    else Some (set_store e (_get_download_lock (model_store e) key),
               {[key]} ∪ h, AtModelLocked)
  | AtModelLocked =>
    let '((success, msg), st) :=
      ensure_model_locked (model_store e) language gender in
    Some (set_store e st, h ∖ {[model_lock_key language gender]},
          if success then AtBuildFastspeech2 else Raised RuntimeError)
  | AtBuildFastspeech2 =>
    match build_fastspeech2 e language gender with
    | (Ok fs2_model, e1) => Some (e1, h, AtVocoderLock fs2_model)
    | (Raise x, e1) => Some (e1, h, Raised x)
    end
  | AtVocoderLock fs2_model =>
    let key := vocoder_lock_key language gender in
    if bool_decide (key ∈ h) then None
    else Some (set_store e (_get_download_lock (model_store e) key),
               {[key]} ∪ h, AtVocoderLocked fs2_model)
  | AtVocoderLocked fs2_model =>
    let '((success, msg), st) :=
      ensure_vocoder_locked (model_store e) language gender in
    Some (set_store e st, h ∖ {[vocoder_lock_key language gender]},
          if success then AtBuildVocoder fs2_model else Raised RuntimeError)
  | AtBuildVocoder fs2_model =>
    match build_vocoder e language gender with
    | (Ok vocoder, e1) => Some (e1, h, AtInsert fs2_model vocoder)
    | (Raise x, e1) => Some (e1, h, Raised x)
    end
  | AtInsert fs2_model vocoder =>
    let preprocessor := get_preprocessor (preprocessing_importable e) language in
    Some (set_cache e
            (<[cache_key := (fs2_model, vocoder, preprocessor)]> (model_cache e)),
          h, AtReturn)
  | AtReturn =>
    match model_cache e !! cache_key with
    | Some entry => Some (e, h, Returned entry)
    | None => Some (e, h, Raised KeyError)
    end
  | Returned _ | Raised _ => None
  end.

(** Thread [i] moves. *)
Definition step (s : system) (i : nat) : option system :=
  match threads s !! i with
  | Some t =>
    match step_pc (sys_engine s) (held s) (t_language t) (t_gender t) (t_pc t) with
    | Some (e, h, p) =>
      Some (System e h
              (<[i := Thread (t_language t) (t_gender t) p]> (threads s)))
    | None => None
    end
  | None => None
  end.

(** A schedule names the thread that moves at each turn. *)
Fixpoint run (s : system) (schedule : list nat) : option system :=
  match schedule with
  | [] => Some s
  | i :: rest =>
    match step s i with
    | Some s' => run s' rest
    | None => None
    end
  end.

(** [n] threads entering [load_model] for the same key. *)
Definition start (e : engine) (language gender : string) (n : nat) : system :=
  System e ∅ (repeat (Thread language gender AtCheck) n).

Definition returned (t : thread) : option loaded :=
  match t_pc t with
  | Returned entry => Some entry
  | _ => None
  end.

(** ** Definitions that follow the wording of the specification *)


(** One pass over the whole text, as a reader sees it: at each position a
    speed tag, a silence tag, or a plain character. *)
Inductive token :=
| TChar (c : N)
| TAlpha (num : text)
| TSil (m : sil_match).

Fixpoint lex_go (skip : nat) (s : text) : list token :=
  match s with
  | [] => []
  | c :: s' =>
    match skip with
    | S k => lex_go k s'
    | O =>
      match match_alpha s with
      | Some num => TAlpha num :: lex_go (length num + 7) s'
      | None =>
        match match_sil s with
        | Some m => TSil m :: lex_go (length (sm_tag m) - 1) s'
        | None => TChar c :: lex_go 0 s'
        end
      end
    end
  end.

Definition lex (s : text) : list token := lex_go 0 s.

(** The numeric value written in a tag. *)
Definition tag_value (t : token) : option text :=
  match t with
  | TChar _ => None
  | TAlpha num => Some num
  | TSil m => Some (sm_value m)
  end.

(** The tags of a text, left to right, each with its numeric value. *)
Definition tag_values (s : text) : list text := omap tag_value (lex s).

(** "The input text with all tags removed". *)
Definition remove_tags (s : text) : text :=
  concat (List.map (fun t => match t with TChar c => [c] | _ => [] end) (lex s)).

(** "Run-on whitespace collapsed". *)
Definition collapse_ws (s : text) : text := join (str " ") (split_ws s).

(** The text of the non-silence chunks, "concatenated in order with single
    spaces". *)
Definition spoken_text (chunks : list chunk) : text :=
  join (str " ")
    (List.map chunk_text (List.filter (fun c => negb (is_silence c)) chunks)).

(** The text in which every tag and every period has become a space. *)
Definition blank_token (t : token) : text :=
  match t with
  | TChar c => [if (c =? 46)%N then 32%N else c]
  | _ => [32%N]
  end.

Definition blank_tags (s : text) : text := concat (List.map blank_token (lex s)).

(** The seconds of a silence tag: its number, divided by 1000 when the unit
    is [ms]. *)
Definition sil_seconds (m : sil_match) : result float :=
  value ← py_float (sm_value m);
  Ok (if text_eqb (sm_unit m) (str "ms") then fdiv value f1000 else value).

(** "The portion before the first tag uses the default speed; each tag
    changes the active speed for all following text up to the next tag":
    the pieces of [re.split] taken two by two. *)
Fixpoint speed_scoped (pieces : list text) : result (list chunk) :=
  match pieces with
  | num :: block :: rest =>
    alpha ← py_float num;
    cs ← process_block alpha block [];
    more ← speed_scoped rest;
    Ok (cs ++ more)%list
  | [num] =>
    alpha ← py_float num;
    process_block alpha [] []
  | [] => Ok []
  end.

Definition segment_by_scope (default_alpha : float) (pieces : list text)
  : result (list chunk) :=
  match pieces with
  | block :: rest =>
    cs ← process_block default_alpha block [];
    more ← speed_scoped rest;
    Ok (cs ++ more)%list
  | [] => Ok []
  end.

(** The text that [re.split] took apart. *)
Fixpoint unsplit_tagged (pieces : list text) : text :=
  match pieces with
  | num :: block :: rest =>
    (str "<alpha=" ++ num ++ str ">" ++ block ++ unsplit_tagged rest)%list
  | [num] => (str "<alpha=" ++ num ++ str ">")%list
  | [] => []
  end.

Definition unsplit (pieces : list text) : text :=
  match pieces with
  | block :: rest => (block ++ unsplit_tagged rest)%list
  | [] => []
  end.

(** ** A concrete installation *)

Definition blob_files (dir : string) (names : list string) (b : N)
  : list (string * node) :=
  List.map (fun n => (dir +:+ "/" +:+ n, File (Blob b))) names.

(** A [config.yaml] as training leaves it: the three statistics entries are
    bare file names. *)
Definition demo_conf : yaml :=
  YMap (<["normalize_conf" := YMap {[ "stats_file" := YScalar "feats_stats.npz" ]}]>
       (<["pitch_normalize_conf" := YMap {[ "stats_file" := YScalar "pitch_stats.npz" ]}]>
       (<["energy_normalize_conf" := YMap {[ "stats_file" := YScalar "energy_stats.npz" ]}]> ∅))).

(** The Hindi male voice and its vocoder, present under [root]. *)
Definition demo_fs (root : string) : filesystem :=
  list_to_map
    ([(root +:+ "/hindi/male/model/config.yaml", File (Doc demo_conf));
      (root +:+ "/vocoder/male/hindi", Dir);
      (root +:+ "/vocoder/male/hindi/config.json",
       File (Doc (YMap {[ "seed" := YScalar "1234" ]})))]
     ++ blob_files (root +:+ "/hindi/male/model")
          ["model.pth"; "feats_stats.npz"; "pitch_stats.npz"; "energy_stats.npz"] 1
     ++ blob_files (root +:+ "/vocoder/male/hindi") ["generator"] 2).

(** No bucket configured; sample rate 22050, at most 5000 characters. *)
Definition demo_store (root : string) : store :=
  Store (Path root) None true (demo_fs root) ∅ [].

Definition demo_engine (root : string) : engine :=
  Engine (MkConfig 22050 5000) true (demo_store root) ∅ 0 [].

(** Stand-ins for the collaborators: the text as one token, and one sample
    per character. *)
Definition demo_pre (p : preprocessor) (t : text) (l g : string)
  : result (list text) := Ok [t].

Definition demo_synth (t : text) (m v : handle) (a : float)
  : result (list Z) := Ok (repeat 1%Z (length t)).

(** A machine on which [np.zeros] makes arrays of up to [2^30] samples. *)
Definition demo_alloc (n : Z) : option exn :=
  if (n <=? 2 ^ 30)%Z then None else Some MemoryError.

(** The [stats_file] entry of a section of the document in a file. *)
Definition stats_entry (y : option node) (section : string) : option string :=
  match y with
  | Some (File (Doc (YMap m))) =>
    match m !! section with
    | Some (YMap inner) =>
      match inner !! "stats_file" with
      | Some (YScalar v) => Some v
      | _ => None
      end
    | _ => None
    end
  | _ => None
  end.

Definition is_ok {A} (r : result A) : bool :=
  match r with Ok _ => true | Raise _ => false end.

Local Close Scope string_scope.

(** ** Segmentation, as one pass over the text *)

(** A non-empty run of digits and periods. *)
Definition valid_num (num : text) : Prop :=
  num <> [] /\ forallb in_num_class num = true.

Definition alpha_tag (num : text) : text := str "<alpha=" ++ num ++ str ">".

(** A match of the silence pattern: a valid number and one of two units. *)
Definition valid_sil (m : sil_match) : Prop :=
  exists num unit,
    valid_num num /\ (unit = str "ms" \/ unit = str "s")
    /\ m = mk_sil_match num unit.

Definition not_lt (c : N) : bool := negb (c =? 60).

(** A block as the silence pattern alone cuts it: silence tags and plain
    characters. *)
Inductive item :=
| IChar (c : N)
| ISil (m : sil_match).

Fixpoint sil_items_go (skip : nat) (s : text) : list item :=
  match s with
  | [] => []
  | c :: s' =>
    match skip with
    | S k => sil_items_go k s'
    | O =>
      match match_sil s with
      | Some m => ISil m :: sil_items_go (length (sm_tag m) - 1) s'
      | None => IChar c :: sil_items_go 0 s'
      end
    end
  end.

Definition sil_items (s : text) : list item := sil_items_go 0 s.

(** Put a run of characters in front of the first piece. *)
Definition prepend (u : text) (l : list text) : list text :=
  match l with
  | b :: t => (u ++ b) :: t
  | [] => [u]
  end.

Definition token_of_item (it : item) : token :=
  match it with
  | IChar c => TChar c
  | ISil m => TSil m
  end.

(** The tokens of a text, read off the pieces of [re.split]: each block cut
    by the silence pattern alone, each group a speed tag. *)
Fixpoint tokens_tagged (pieces : list text) : list token :=
  match pieces with
  | num :: block :: rest =>
    TAlpha num :: List.map token_of_item (sil_items block) ++ tokens_tagged rest
  | [num] => [TAlpha num]
  | [] => []
  end.

Definition tokens_of_pieces (pieces : list text) : list token :=
  match pieces with
  | block :: rest => List.map token_of_item (sil_items block) ++ tokens_tagged rest
  | [] => []
  end.

Definition sil_of_item (it : item) : option sil_match :=
  match it with
  | IChar _ => None
  | ISil m => Some m
  end.

(** A character that can stand inside a word: no whitespace, no period and
    no [<]. *)
Definition word_char (c : N) : bool :=
  negb (is_space c) && negb (c =? 46) && negb (c =? 60).

(** A sentence or word boundary. *)
Definition sep (c : N) : bool := (46 =? c) || is_space c.

(** A block while the silence loop rewrites it: plain characters, silence
    tags still to be replaced, and placeholders, each remembering the match
    it stands for. *)
Inductive mark :=
| MChar (c : N)
| MRaw (m : sil_match)
| MPh (j : nat) (m : sil_match).

Definition ph_text (j : nat) : text := str " " ++ placeholder j ++ str " ".

Definition mark_text (mk : mark) : text :=
  match mk with
  | MChar c => [c]
  | MRaw m => sm_tag m
  | MPh j _ => ph_text j
  end.

Definition mflat (marks : list mark) : text := concat (List.map mark_text marks).

Definition mark_of_item (it : item) : mark :=
  match it with
  | IChar c => MChar c
  | ISil m => MRaw m
  end.

(** Turn [j] of the silence loop: every pending tag with text [t] becomes
    placeholder [j]. *)
Definition mark_step (j : nat) (t : text) (mk : mark) : mark :=
  match mk with
  | MRaw m => if text_eqb (sm_tag m) t then MPh j m else mk
  | _ => mk
  end.

Fixpoint mark_all (j : nat) (ms : list sil_match) (marks : list mark)
  : list mark :=
  match ms with
  | [] => marks
  | m :: ms' => mark_all (S j) ms' (List.map (mark_step j (sm_tag m)) marks)
  end.

Fixpoint ph_all (j : nat) (ds : list float) (ph : gmap text float)
  : gmap text float :=
  match ds with
  | [] => ph
  | d :: ds' => ph_all (S j) ds' (<[placeholder j := d]> ph)
  end.

(** The seconds of all matches, or the first failure. *)
Fixpoint all_seconds (ms : list sil_match) : result (list float) :=
  match ms with
  | [] => Ok []
  | m :: ms' => d ← sil_seconds m; ds ← all_seconds ms'; Ok (d :: ds)
  end.

(** No silence tag starts at a plain character. *)
Fixpoint lexed (marks : list mark) : Prop :=
  match marks with
  | [] => True
  | MChar c :: rest => match_sil (c :: mflat rest) = None /\ lexed rest
  | _ :: rest => lexed rest
  end.

Definition valid_mark (mk : mark) : Prop :=
  match mk with
  | MChar _ => True
  | MRaw m | MPh _ m => valid_sil m
  end.

(** The plain characters at the front. *)
Fixpoint lead (marks : list mark) : text :=
  match marks with
  | MChar c :: rest => c :: lead rest
  | _ => []
  end.

(** The match a mark stands for. *)
Definition mark_sil (mk : mark) : option sil_match :=
  match mk with
  | MChar _ => None
  | MRaw m | MPh _ m => Some m
  end.

(** A block with every tag, replaced or not, blanked out. *)
Definition blank_mark (mk : mark) : text :=
  match mk with
  | MChar c => [c]
  | _ => [32]
  end.

Definition mblank (marks : list mark) : text := concat (List.map blank_mark marks).

Definition is_raw (mk : mark) : bool :=
  match mk with
  | MRaw _ => true
  | _ => false
  end.

(** The seconds of the silence chunks, in order. *)
Definition silences (chunks : list chunk) : list float :=
  omap (fun c => if is_silence c then silence_duration c else None) chunks.

(** The texts of the chunks that are spoken. *)
Definition texts (chunks : list chunk) : list text :=
  List.map chunk_text (List.filter (fun c => negb (is_silence c)) chunks).

(** The chunk that flushing a buffer appends. *)
Definition flush (alpha : float) (buffer : list text) : list chunk :=
  if nonempty_list buffer
  then [Chunk (join (str " ") buffer) alpha false None]
  else [].

(** The chunks speak the words [W]. *)
Definition speaks (chunks : list chunk) (W : list text) : Prop :=
  spoken_text chunks = join (str " ") W /\ (texts chunks = [] <-> W = []).

(** The words that are no key of the placeholder dictionary. *)
Definition plain_words (ph : gmap text float) (words : list text) : list text :=
  List.filter (fun w => bool_decide (ph !! w = None)) words.

(** A block with its silence tags and periods blanked out. *)
Definition blank_block (block : text) : text :=
  concat (List.map (fun it => blank_token (token_of_item it)) (sil_items block)).

Definition token_sil (t : token) : option sil_match :=
  match t with
  | TSil m => Some m
  | _ => None
  end.

(** The silence tags of a text, left to right. *)
Definition sil_tags (s : text) : list sil_match := omap token_sil (lex s).

(** No word of the text is itself a placeholder token [__SIL_j__]. *)
Definition placeholder_free (s : text) : Prop :=
  forall w, In w (split_ws (blank_tags s)) -> forall j, w <> placeholder j.

(** ** Config._parse_preload_models *)

(** [for item in preload_str.split(',')], on the list [models]. *)
Fixpoint preload_items_loop (items : list text) (models : list (text * text))
  : list (text * text) :=
  match items with
  | [] => models
  | item :: rest =>
    let item := strip item in
    if negb (nonempty item) then preload_items_loop rest models
    else
      let parts := split_char 58 item in
      if bool_decide (length parts = 2%nat) then
        let language := strip (nth 0 parts []) in
        let gender := strip (nth 1 parts []) in
        if nonempty language && nonempty gender
        then preload_items_loop rest (models ++ [(language, gender)])
        else preload_items_loop rest models
      else preload_items_loop rest models
  end.

(** [env] is the value of [PRELOAD_MODELS], [None] when it is not set. *)
Definition _parse_preload_models (env : option text) : list (text * text) :=
  let preload_str := default [] env in
  if negb (nonempty preload_str) then []
  else preload_items_loop (split_char 44 preload_str) [].

(** A name that comes back from parsing as it went in: not empty, no comma,
    no colon, no whitespace at either end. *)
Definition clean_name (w : text) : Prop :=
  w <> [] /\ strip w = w /\ ~ In 44 w /\ ~ In 58 w.

(** [language:gender] *)
Definition preload_item (m : text * text) : text := fst m ++ 58 :: snd m.

(** ** TTSEngine.split_into_chunks *)

(** [range(start, stop, step)] for a non-zero [step]: at most
    [|stop - start|] elements. *)
Fixpoint range_go (fuel : nat) (i stop step : Z) : list Z :=
  match fuel with
  | O => []
  | S k =>
    if (if (0 <? step)%Z then (i <? stop)%Z else (stop <? i)%Z)
    then i :: range_go k (i + step)%Z stop step
    else []
  end.

Definition py_range (start stop step : Z) : result (list Z) :=
  if (step =? 0)%Z then Raise ValueError
  else Ok (range_go (Z.to_nat (Z.abs (stop - start))) start stop step).

(** An index of a slice, brought into [0 .. len]. *)
Definition slice_index (len i : Z) : Z :=
  if (i <? 0)%Z then Z.max 0 (i + len) else Z.min i len.

(** [l[i:j]] *)
Definition slice {A} (l : list A) (i j : Z) : list A :=
  let len := Z.of_nat (length l) in
  let lo := slice_index len i in
  let hi := slice_index len j in
  take (Z.to_nat (hi - lo)) (drop (Z.to_nat lo) l).

Definition split_into_chunks (text0 : text) (words_per_chunk : Z)
  : result (list text) :=
  let words := split_ws text0 in
  starts ← py_range 0 (Z.of_nat (length words)) words_per_chunk;
  let chunks :=
    List.map (fun i => slice words i (i + words_per_chunk)%Z) starts in
  Ok (List.map (join (str " ")) chunks).

(** ** StubPreprocessor.preprocess *)

(** [re.sub(r'[...]+', ' ', s)] for a character class [p]: every maximal run
    of characters of the class becomes one space.  [in_run] tells whether the
    character before was of the class. *)
Fixpoint sub_runs (p : N -> bool) (in_run : bool) (s : text) : text :=
  match s with
  | [] => []
  | c :: s' =>
    if p c then
      if in_run then sub_runs p true s' else 32 :: sub_runs p true s'
    else c :: sub_runs p false s'
  end.

(** [re.split(r'[...]+', s)]: the pieces between the maximal runs, empty
    pieces at the ends included. *)
Fixpoint split_runs (p : N -> bool) (in_run : bool) (s : text) : list text :=
  match s with
  | [] => [[]]
  | c :: s' =>
    if p c then
      if in_run then split_runs p true s' else [] :: split_runs p true s'
    else cons_hd c (split_runs p false s')
  end.

(** The class [[#\n\r]]. *)
Definition is_hash_or_newline (c : N) : bool :=
  (c =? 35) || (c =? 10) || (c =? 13).

(** The class of the phrase separators as the source file has it: [.], [!],
    [?], [;] and the three letters U+0440, U+0435, U+0434. *)
Definition is_phrase_sep (c : N) : bool :=
  (c =? 46) || (c =? 33) || (c =? 63) || (c =? 59)
  || (c =? 1088) || (c =? 1077) || (c =? 1076).

Definition stub_preprocess (text0 : text) (language gender : string)
  : list text * list text :=
  let text1 := sub_runs is_hash_or_newline false text0 in
  let text2 := sub_runs is_space false text1 in
  let text3 := strip text2 in
  let phrases := split_runs is_phrase_sep false text3 in
  let phrases :=
    List.map strip (List.filter (fun p => nonempty (strip p)) phrases) in
  (phrases, phrases).

(** The characters the stub keeps. *)
Definition stub_keeps (c : N) : bool :=
  negb (is_hash_or_newline c) && negb (is_space c) && negb (is_phrase_sep c).

(** Whitespace in [s] is single spaces only, never two in a row; [prev]
    tells whether the character before [s] was whitespace. *)
Fixpoint single_spaced (prev : bool) (s : text) : bool :=
  match s with
  | [] => true
  | c :: s' =>
    if is_space c then (c =? 32) && negb prev && single_spaced true s'
    else single_spaced false s'
  end.

(** A word: not empty, no whitespace. *)
Definition is_word (w : text) : Prop :=
  w <> [] /\ forallb (fun c => negb (is_space c)) w = true.

(** ** TTSEngine._preload_models *)

(** [for language, gender in self.config.preload_models], an exception of
    [load_model] being logged and dropped. *)
Fixpoint _preload_models (e : engine) (models : list (string * string))
  : engine :=
  match models with
  | [] => e
  | (language, gender) :: rest =>
    _preload_models (snd (load_model e language gender)) rest
  end.

(** No path of [f] is missing from [f']. *)
Definition fs_keeps (f f' : filesystem) : Prop :=
  forall k, is_Some (f !! k) -> is_Some (f' !! k).

(** The store [st'] has the models directory of [st] and every path of
    [st]. *)
Definition store_keeps (st st' : store) : Prop :=
  models_dir st' = models_dir st /\ fs_keeps (fs st) (fs st').

(** ** What a chunk of the segmentation looks like *)

(** A silence has no text and a duration; a spoken chunk has no duration,
    and its text is not empty, is its own words joined by single spaces and
    holds no period. *)
Definition well_formed_chunk (c : chunk) : Prop :=
  if is_silence c
  then chunk_text c = [] /\ is_Some (silence_duration c)
  else silence_duration c = None /\ chunk_text c <> []
       /\ join (str " ") (split_ws (chunk_text c)) = chunk_text c
       /\ ~ In 46 (chunk_text c).

(** A word of a sentence: a word without a period. *)
Definition sentence_word (w : text) : Prop := is_word w /\ ~ In 46 w.

(** The chunk of a sentence without tags. *)
Definition sentence_chunk (alpha : float) (s : text) : chunk :=
  Chunk (join (str " ") (split_ws s)) alpha false None.

(** The pieces between periods that hold a word. *)
Definition plain_sentences (s : text) : list text :=
  List.filter (fun x => nonempty (strip x)) (split_char 46 s).

(** ** Other installations *)

(** Only the group vocoder of the male voices is on disk. *)
Definition aryan_fs (root : string) : filesystem :=
  list_to_map
    ([(root +:+ "/vocoder/male/aryan", Dir)%string;
      ((root +:+ "/vocoder/male/aryan/config.json")%string,
       File (Doc (YMap {[ "seed"%string := YScalar "1234" ]})))]
     ++ blob_files (root +:+ "/vocoder/male/aryan")%string ["generator"%string] 2).

Definition aryan_store (root : string) : store :=
  Store (Path root) None true (aryan_fs root) ∅ [].

(** The same, with an empty vocoder directory for Hindi beside it. *)
Definition shadowed_store (root : string) : store :=
  Store (Path root) None true
    (<[(root +:+ "/vocoder/male/hindi")%string := Dir]> (aryan_fs root)) ∅ [].

(** The Hindi male voice without any vocoder. *)
Definition model_only_engine (root : string) : engine :=
  Engine (MkConfig 22050 5000) true
    (Store (Path root) None true
       (list_to_map
          ([((root +:+ "/hindi/male/model/config.yaml")%string,
             File (Doc demo_conf))]
           ++ blob_files (root +:+ "/hindi/male/model")%string
                ["model.pth"; "feats_stats.npz"; "pitch_stats.npz";
                 "energy_stats.npz"]%string 1))
       ∅ [])
    ∅ 0 [].

(** The document [conf] has the entry [stats_file: v] in its section
    [section]. *)
Definition has_stats_file (conf : yaml) (section v : string) : Prop :=
  exists m inner,
    conf = YMap m /\ m !! section = Some (YMap inner)
    /\ inner !! "stats_file"%string = Some (YScalar v).

(** A preprocessor that rejects the text [bad], and a synthesis that fails
    on [boom] and on [crash]. *)
Definition picky_pre (p : preprocessor) (t : text) (l g : string)
  : result (list text) :=
  if text_eqb t (str "bad") then Raise ValueError else Ok [t].

Definition failing_synth (t : text) (m v : handle) (a : float)
  : result (list Z) :=
  if text_eqb t (str "boom") then Raise RuntimeError
  else if text_eqb t (str "crash") then Raise OverflowError
  else Ok (repeat 1%Z (length t)).

(** A bucket that holds the group vocoder of the male voices and nothing for
    Hindi; nothing is on disk. *)
Definition aryan_bucket_store (root : string) : store :=
  Store (Path root)
    (Some [("vocoder/male/aryan/config.json"%string,
            Doc (YMap {[ "seed"%string := YScalar "1234" ]}));
           ("vocoder/male/aryan/generator"%string, Blob 2)])
    true ∅ ∅ [].

(** ** ModelStore.__init__: the name of the bucket *)

Fixpoint lstrip_char (ch : N) (s : text) : text :=
  match s with
  | c :: s' => if c =? ch then lstrip_char ch s' else s
  | [] => []
  end.

(** [s.strip(ch)] for a one-character [ch]. *)
Definition strip_char (ch : N) (s : text) : text :=
  rev (lstrip_char ch (rev (lstrip_char ch s))).

(** [gcs_bucket.replace('gs://', '').strip('/')] *)
Definition bucket_name (gcs_bucket : text) : text :=
  strip_char 47 (replace gcs_bucket (str "gs://") []).

(** ** ModelStore.list_available_models *)

(** [p.name] *)
Definition path_name (p : path) : string := List.last (p_parts p) ""%string.

(** [q] is one component below [p]. *)
Definition is_entry_of (p q : path) : bool :=
  bool_decide (p_root q = p_root p /\ p_parts q <> []
               /\ removelast (p_parts q) = p_parts p).

(** [p.iterdir()]: the paths of the file system one component below [p].
    The order in which a directory lists its entries is not specified; the
    order of the map stands for it. *)
Definition iterdir (f : filesystem) (p : path) : list path :=
  omap (fun k =>
          let q := Path k in
          if bool_decide (path_str q = k) && is_entry_of p q then Some q
          else None)
       (List.map fst (map_to_list f)).

(** [p.is_dir()] *)
Definition is_dir (f : filesystem) (p : path) : bool :=
  match f !! path_str p with
  | Some Dir => true
  | _ => false
  end.

(** The order of [str]: by code point, which on the bytes of UTF-8 is the
    order of [String.compare]. *)
Definition str_le (a b : string) : Prop := String.leb a b = true.

#[global] Instance str_le_dec (a b : string) : Decision (str_le a b) :=
  decide (String.leb a b = true).

#[global] Instance str_le_total : Total str_le := String.leb_total.

(** [sorted(l)] for a list of strings. *)
Definition py_sorted (l : list string) : list string := merge_sort str_le l.

(** [for gender_dir in lang_dir.iterdir()] *)
Fixpoint genders_loop (st : store) (language : string)
    (gender_dirs : list path) (genders : list string) : list string :=
  match gender_dirs with
  | [] => genders
  | gender_dir :: rest =>
    if negb (is_dir (fs st) gender_dir)
    then genders_loop st language rest genders
    else
      let gender := path_name gender_dir in
      if model_exists_locally st language gender
      then genders_loop st language rest (genders ++ [gender])
      else genders_loop st language rest genders
  end.

(** [for lang_dir in self.models_dir.iterdir()] *)
Fixpoint languages_loop (st : store) (lang_dirs : list path)
    (available : gmap string (list string)) : gmap string (list string) :=
  match lang_dirs with
  | [] => available
  | lang_dir :: rest =>
    if negb (is_dir (fs st) lang_dir)
       || String.eqb (path_name lang_dir) "vocoder"
    then languages_loop st rest available
    else
      let language := path_name lang_dir in
      let genders :=
        genders_loop st language (iterdir (fs st) lang_dir) [] in
      languages_loop st rest
        (if nonempty_list genders
         then <[language := py_sorted genders]> available
         else available)
  end.

(** [iterdir] of a models directory that is a file raises
    [NotADirectoryError], an [OSError]. *)
Definition list_available_models (st : store)
  : result (gmap string (list string)) :=
  if negb (path_exists (fs st) (models_dir st)) then Ok ∅
  else
    match fs st !! path_str (models_dir st) with
    | Some (File _) => Raise ExternalError
    | _ => Ok (languages_loop st (iterdir (fs st) (models_dir st)) ∅)
    end.

(** [TTSEngine.get_available_models] *)
Definition get_available_models (e : engine)
  : result (gmap string (list string)) :=
  list_available_models (model_store e).

(** A models directory with its directories: the Hindi male voice complete,
    a Hindi female voice without its model file, a Tamil directory without
    voices, and the vocoders. *)
Definition tree_store (root : string) : store :=
  Store (Path root) None true
    (list_to_map
       ([(root, Dir);
         (root +:+ "/hindi", Dir)%string;
         (root +:+ "/hindi/male", Dir)%string;
         (root +:+ "/hindi/male/model", Dir)%string;
         ((root +:+ "/hindi/male/model/config.yaml")%string, File (Doc demo_conf));
         (root +:+ "/hindi/female", Dir)%string;
         (root +:+ "/hindi/female/model", Dir)%string;
         ((root +:+ "/hindi/female/model/config.yaml")%string, File (Doc demo_conf));
         (root +:+ "/hindi/notes.txt", File (Blob 3))%string;
         (root +:+ "/tamil", Dir)%string;
         (root +:+ "/vocoder", Dir)%string;
         (root +:+ "/vocoder/male", Dir)%string;
         (root +:+ "/vocoder/male/model", Dir)%string]
        ++ blob_files (root +:+ "/hindi/male/model")%string
             ["model.pth"; "feats_stats.npz"; "pitch_stats.npz";
              "energy_stats.npz"]%string 1
        ++ blob_files (root +:+ "/vocoder/male/model")%string
             ["config.yaml"; "model.pth"; "feats_stats.npz"; "pitch_stats.npz";
              "energy_stats.npz"]%string 1))
    ∅ [].

Local Open Scope string_scope.

(** * Properties *)

Local Open Scope Z_scope.

(** ** Input validation *)

(** C7. A text longer than the configured maximum makes [synthesize] raise
    [ValueError] and leaves the engine as it was: nothing is loaded, no lock
    is created, and the record of calls shows neither [load_model] nor
    [extract_text_alpha_chunks]. *)
Theorem synthesize_rejects_long_text
    (preprocess : preprocessor -> text -> string -> string -> result (list text))
    (synthesize_chunk : text -> handle -> handle -> float -> result (list Z))
    (np_alloc : Z -> option exn)
    (e : engine) (text0 : text) (language gender : string) (alpha : float) :
  max_text_length (config e) < Z.of_nat (length text0) ->
  synthesize preprocess synthesize_chunk np_alloc e text0 language gender alpha
  = (Raise ValueError, e).
Proof.
  intros Hlong. unfold synthesize.
  destruct (Z.ltb_spec (max_text_length (config e)) (Z.of_nat (length text0)))
    as [_ | Hle]; [reflexivity | lia].
Qed.

Lemma synthesize_rejects_long_text_witness :
  let e := Engine (MkConfig 22050 4) true (demo_store "/models") ∅ 0 [] in
  max_text_length (config e) < Z.of_nat (length (str "Hello"))
  /\ synthesize demo_pre demo_synth demo_alloc e (str "Hello") "hindi" "male" f1_0
     = (Raise ValueError, e).
Proof.
  intros e. split.
  - vm_compute. reflexivity.
  - apply synthesize_rejects_long_text. vm_compute. reflexivity.
Defined.

(** ** Artifacts already on disk *)

Lemma model_exists_locally_lock (st : store) (key language gender : string) :
  model_exists_locally (_get_download_lock st key) language gender
  = model_exists_locally st language gender.
Proof. reflexivity. Qed.

Lemma vocoder_exists_locally_lock (st : store) (key language gender : string) :
  vocoder_exists_locally (_get_download_lock st key) language gender
  = vocoder_exists_locally st language gender.
Proof. reflexivity. Qed.

(** C9. When the required files of a key are on disk, [ensure_model] and
    [ensure_vocoder] report success at once: the only change to the store is
    that the download lock of the key exists; the file system is untouched
    and no request is sent to the bucket. *)
Theorem ensure_local_without_remote (st : store) (language gender : string) :
  (model_exists_locally st language gender = true ->
   let '(r, st') := ensure_model st language gender in
   r = (true, "Model exists locally"%string)
   /\ st' = _get_download_lock st (model_lock_key language gender)
   /\ fs st' = fs st /\ gcs_log st' = gcs_log st)
  /\
  (vocoder_exists_locally st language gender = true ->
   let '(r, st') := ensure_vocoder st language gender in
   r = (true, "Vocoder exists locally"%string)
   /\ st' = _get_download_lock st (vocoder_lock_key language gender)
   /\ fs st' = fs st /\ gcs_log st' = gcs_log st).
Proof.
  split; intros Hpresent.
  - unfold ensure_model, ensure_model_locked.
    rewrite model_exists_locally_lock, Hpresent. repeat split.
  - unfold ensure_vocoder, ensure_vocoder_locked.
    rewrite vocoder_exists_locally_lock, Hpresent. repeat split.
Qed.

Lemma ensure_local_without_remote_witness :
  let st := demo_store "/models" in
  (model_exists_locally st "hindi" "male" = true
   /\ vocoder_exists_locally st "hindi" "male" = true)
  /\ gcs_log (snd (ensure_model st "hindi" "male")) = []
  /\ gcs_log (snd (ensure_vocoder st "hindi" "male")) = [].
Proof.
  intros st.
  assert (Hm : model_exists_locally st "hindi" "male" = true)
    by (vm_compute; reflexivity).
  assert (Hv : vocoder_exists_locally st "hindi" "male" = true)
    by (vm_compute; reflexivity).
  destruct (ensure_local_without_remote st "hindi" "male") as [Em Ev].
  specialize (Em Hm). specialize (Ev Hv).
  destruct (ensure_model st "hindi" "male") as [rm stm].
  destruct (ensure_vocoder st "hindi" "male") as [rv stv].
  destruct Em as (_ & _ & _ & Lm). destruct Ev as (_ & _ & _ & Lv).
  split; [split; assumption |]. split; [exact Lm | exact Lv].
Defined.

(** ** Loading the acoustic model writes to disk *)

Lemma set_stats_file_ok (conf conf' : yaml) (section v : string) :
  set_stats_file conf section v = Ok conf' ->
  exists m inner,
    conf = YMap m /\ m !! section = Some (YMap inner)
    /\ conf' = YMap (<[section := YMap (<["stats_file"%string := YScalar v]> inner)]> m).
Proof.
  unfold set_stats_file. destruct conf as [s | m]; [discriminate |].
  destruct (m !! section) as [[s | inner] |] eqn:Hsec; try discriminate.
  intros [= <-]. eauto.
Qed.

Lemma stats_entry_insert_eq (m : gmap string yaml) (inner : gmap string yaml)
    (section v : string) :
  stats_entry
    (Some (File (Doc (YMap (<[section := YMap (<["stats_file"%string := YScalar v]> inner)]> m)))))
    section = Some v.
Proof.
  unfold stats_entry. rewrite lookup_insert_eq, lookup_insert_eq. reflexivity.
Qed.

Lemma stats_entry_insert_ne (m : gmap string yaml) (y : yaml)
    (section other : string) :
  section <> other ->
  stats_entry (Some (File (Doc (YMap (<[section := y]> m))))) other
  = stats_entry (Some (File (Doc (YMap m)))) other.
Proof.
  intros Hne. unfold stats_entry. rewrite lookup_insert_ne by exact Hne.
  reflexivity.
Qed.

(** Whenever [load_fastspeech2] returns a model, the file [config.yaml] of
    the key holds the document the model was built from, and its three
    statistics entries are the strings of [model_path / "..._stats.npz"]. *)
Lemma build_fastspeech2_rewrites_config (e e' : engine)
    (language gender : string) (h : handle) :
  build_fastspeech2 e language gender = (Ok h, e') ->
  let model_path := get_model_path (model_store e) language gender in
  let written :=
    fs (model_store e') !! path_str (model_path /: "config.yaml") in
  written = Some (File (Doc (h_config h)))
  /\ stats_entry written "normalize_conf"
     = Some (path_str (model_path /: "feats_stats.npz"))
  /\ stats_entry written "pitch_normalize_conf"
     = Some (path_str (model_path /: "pitch_stats.npz"))
  /\ stats_entry written "energy_normalize_conf"
     = Some (path_str (model_path /: "energy_stats.npz")).
Proof.
  unfold build_fastspeech2. intros Hbuild. cbn zeta.
  set (model_path := get_model_path (model_store e) language gender) in *.
  destruct (path_exists _ (model_path /: "config.yaml")); [| discriminate].
  destruct (path_exists _ (model_path /: "model.pth")); [| discriminate].
  cbn [negb] in Hbuild.
  destruct (fs (model_store e) !! path_str (model_path /: "config.yaml"))
    as [[| [b | conf]] |]; try discriminate.
  destruct (set_stats_file conf "normalize_conf" _) as [c1 |] eqn:H1;
    [| discriminate].
  cbn [mbind result_bind] in Hbuild.
  destruct (set_stats_file c1 "pitch_normalize_conf" _) as [c2 |] eqn:H2;
    [| discriminate].
  cbn [mbind result_bind] in Hbuild.
  destruct (set_stats_file c2 "energy_normalize_conf" _) as [c3 |] eqn:H3;
    [| discriminate].
  injection Hbuild as <- <-. cbn.
  rewrite lookup_insert_eq. split; [reflexivity |].
  apply set_stats_file_ok in H1 as (m1 & i1 & -> & _ & ->).
  apply set_stats_file_ok in H2 as (m2 & i2 & [= <-] & _ & ->).
  apply set_stats_file_ok in H3 as (m3 & i3 & [= <-] & _ & ->).
  repeat split.
  - rewrite !stats_entry_insert_ne by discriminate.
    apply stats_entry_insert_eq.
  - rewrite stats_entry_insert_ne by discriminate.
    apply stats_entry_insert_eq.
  - apply stats_entry_insert_eq.
Qed.

(** C10. With the models directory given as the relative path [models], a
    first load of the Hindi male voice succeeds and rewrites [config.yaml]:
    the file differs from what it held, and each of its three statistics
    entries is now a path under [models/], which is not absolute. *)
Theorem load_fastspeech2_writes_relative_paths :
  let e := demo_engine "models" in
  let cf := "models/hindi/male/model/config.yaml"%string in
  let '(r, e') := load_fastspeech2 e "hindi" "male" in
  is_ok r = true
  /\ fs (model_store e) !! cf = Some (File (Doc demo_conf))
  /\ fs (model_store e') !! cf <> fs (model_store e) !! cf
  /\ List.map (stats_entry (fs (model_store e') !! cf))
       ["normalize_conf"; "pitch_normalize_conf"; "energy_normalize_conf"]%string
     = [Some "models/hindi/male/model/feats_stats.npz";
        Some "models/hindi/male/model/pitch_stats.npz";
        Some "models/hindi/male/model/energy_stats.npz"]%string
  /\ is_absolute (Path "models/hindi/male/model/feats_stats.npz") = false.
Proof.
  vm_compute. repeat split; discriminate.
Qed.

(** ** One load per key *)

Lemma build_fastspeech2_effect (e e' : engine) (language gender : string)
    (h : handle) :
  build_fastspeech2 e language gender = (Ok h, e') ->
  next_object e' = S (next_object e) /\ model_cache e' = model_cache e
  /\ h_id h = next_object e.
Proof.
  unfold build_fastspeech2. intros Hbuild.
  repeat match type of Hbuild with
  | (if ?b then _ else _) = _ => destruct b; cbn [negb] in Hbuild
  | match ?x with _ => _ end = _ => destruct x; cbn in Hbuild
  end; try discriminate.
  injection Hbuild as <- <-. repeat split.
Qed.

Lemma build_vocoder_effect (e e' : engine) (language gender : string)
    (h : handle) :
  build_vocoder e language gender = (Ok h, e') ->
  next_object e' = S (next_object e) /\ model_cache e' = model_cache e
  /\ h_id h = next_object e.
Proof.
  unfold build_vocoder. intros Hbuild.
  repeat match type of Hbuild with
  | (if ?b then _ else _) = _ => destruct b; cbn [negb] in Hbuild
  | match ?x with _ => _ end = _ => destruct x; cbn in Hbuild
  end; try discriminate.
  injection Hbuild as <- <-. repeat split.
Qed.

Lemma load_fastspeech2_effect (e e' : engine) (language gender : string)
    (h : handle) :
  load_fastspeech2 e language gender = (Ok h, e') ->
  next_object e' = S (next_object e) /\ model_cache e' = model_cache e
  /\ h_id h = next_object e.
Proof.
  unfold load_fastspeech2.
  destruct (ensure_model _ _ _) as [[success msg] st].
  destruct success; cbn [negb]; [| discriminate].
  intros Hbuild. apply build_fastspeech2_effect in Hbuild. exact Hbuild.
Qed.

Lemma load_vocoder_effect (e e' : engine) (language gender : string)
    (h : handle) :
  load_vocoder e language gender = (Ok h, e') ->
  next_object e' = S (next_object e) /\ model_cache e' = model_cache e
  /\ h_id h = next_object e.
Proof.
  unfold load_vocoder.
  destruct (ensure_vocoder _ _ _) as [[success msg] st].
  destruct success; cbn [negb]; [| discriminate].
  intros Hbuild. apply build_vocoder_effect in Hbuild. exact Hbuild.
Qed.

(** A call on a cached key returns the entry and changes nothing. *)
Lemma load_model_cached (e : engine) (language gender : string) (entry : loaded) :
  model_cache e !! (language, gender) = Some entry ->
  load_model e language gender = (Ok entry, e).
Proof. intros Hhit. unfold load_model. rewrite Hhit. reflexivity. Qed.

Lemma load_model_iter_cached (e : engine) (language gender : string)
    (entry : loaded) (n : nat) :
  model_cache e !! (language, gender) = Some entry ->
  Nat.iter n (fun e' => snd (load_model e' language gender)) e = e.
Proof.
  intros Hhit. induction n as [| n IH]; [reflexivity |].
  rewrite Nat.iter_succ, IH, (load_model_cached _ _ _ _ Hhit). reflexivity.
Qed.

(** C1, as the code has it.  Calls of [load_model] that run one after the
    other: when the first call on an uncached key succeeds, it has
    constructed the acoustic model and the vocoder once each (two new
    objects) and cached the triple; every later call returns that same
    triple and leaves the engine unchanged, so nothing more is
    constructed. *)
Theorem load_model_once_in_sequence (e e1 : engine) (language gender : string)
    (entry : loaded) :
  model_cache e !! (language, gender) = None ->
  load_model e language gender = (Ok entry, e1) ->
  (next_object e1 = next_object e + 2)%nat
  /\ model_cache e1 !! (language, gender) = Some entry
  /\ forall n : nat,
       Nat.iter n (fun e' => snd (load_model e' language gender)) e1 = e1
       /\ load_model
            (Nat.iter n (fun e' => snd (load_model e' language gender)) e1)
            language gender
          = (Ok entry, e1).
Proof.
  intros Hmiss Hload. unfold load_model in Hload. rewrite Hmiss in Hload.
  destruct (load_fastspeech2 e language gender) as [[fs2 |] ea] eqn:Hfs2;
    [| discriminate].
  destruct (load_vocoder ea language gender) as [[voc |] eb] eqn:Hvoc;
    [| discriminate].
  injection Hload as <- <-.
  apply load_fastspeech2_effect in Hfs2 as (Hn1 & _ & _).
  apply load_vocoder_effect in Hvoc as (Hn2 & _ & _).
  set (e1 := set_cache eb _).
  assert (Hhit : model_cache e1 !! (language, gender)
                 = Some (fs2, voc, get_preprocessor (preprocessing_importable eb) language))
    by (cbn; apply lookup_insert_eq).
  split; [cbn; lia |]. split; [exact Hhit |].
  intros n. rewrite (load_model_iter_cached _ _ _ _ n Hhit).
  split; [reflexivity | apply load_model_cached; exact Hhit].
Qed.

Lemma load_model_once_in_sequence_witness :
  let e := demo_engine "/models" in
  let r := load_model e "hindi" "male" in
  is_ok (fst r) = true
  /\ next_object (snd r) = 2%nat
  /\ fst (load_model (snd r) "hindi" "male") = fst r.
Proof.
  intros e r.
  destruct (fst r) as [entry | x] eqn:Hr; [| vm_compute in Hr; discriminate].
  assert (Hload : load_model e "hindi" "male" = (Ok entry, snd r)).
  { fold r. rewrite <- Hr. destruct r; reflexivity. }
  assert (Hmiss : model_cache e !! ("hindi"%string, "male"%string) = None)
    by (vm_compute; reflexivity).
  destruct (load_model_once_in_sequence e (snd r) "hindi" "male" entry Hmiss Hload)
    as (Hn & _ & Hlater).
  split; [reflexivity |]. split; [exact Hn |].
  destruct (Hlater 0%nat) as [_ Hagain].
  change (Nat.iter 0 _ (snd r)) with (snd r) in Hagain.
  rewrite Hagain. reflexivity.
Defined.

(** The cache check and the insertion wait for no lock: whatever locks are
    held, a thread at either point moves, and the set of held locks stays as
    it is. *)
Lemma cache_path_takes_no_lock (e : engine) (h : gset string)
    (language gender : string) (fs2_model vocoder : handle) :
  (exists e' p, step_pc e h language gender AtCheck = Some (e', h, p))
  /\ (exists e' p,
        step_pc e h language gender (AtInsert fs2_model vocoder) = Some (e', h, p)).
Proof.
  split; cbn.
  - destruct (model_cache e !! (language, gender)); eauto.
  - eauto.
Qed.

(** C1, refuted as stated.  Two threads enter [load_model] for the same
    uncached key; the second checks the cache before the first has inserted.
    Every download lock is taken and released in turn, and still each thread
    constructs its own model and vocoder: four objects instead of two, and
    the callers hold different handles. *)
Lemma load_model_race_constructs_twice :
  let e := demo_engine "/models" in
  let schedule := [0; 1; 0; 0; 0; 0; 0; 0; 0; 0; 1; 1; 1; 1; 1; 1; 1; 1]%nat in
  model_cache e !! ("hindi"%string, "male"%string) = None
  /\ next_object (snd (load_model e "hindi" "male")) = 2%nat
  /\ match run (start e "hindi" "male" 2) schedule with
     | Some s =>
       List.map
         (fun t => option_map (fun '(m, v, _) => (h_id m, h_id v)) (returned t))
         (threads s)
       = [Some (0, 1); Some (2, 3)]%nat
       /\ next_object (sys_engine s) = 4%nat
       /\ held s = ∅
     | None => False
     end.
Proof. vm_compute. repeat split. Qed.

Local Close Scope string_scope.

(** ** Floating-point facts *)

Lemma digits2_pos_iter_xO (p : positive) (k : positive) :
  Zpos (digits2_pos (Pos.iter xO p k)) = Zpos (digits2_pos p) + Zpos k.
Proof.
  induction k as [| k IH] using Pos.peano_ind.
  - cbn. lia.
  - rewrite Pos.iter_succ. cbn [digits2_pos]. lia.
Qed.

Lemma Zpos_iter_xO (p k : positive) : Zpos (Pos.iter xO p k) = Zpos p * 2 ^ Zpos k.
Proof.
  induction k as [| k IH] using Pos.peano_ind.
  - cbn. lia.
  - rewrite Pos.iter_succ, Pos2Z.inj_succ, Z.pow_succ_r by lia.
    rewrite Pos2Z.inj_xO, IH. lia.
Qed.

Lemma digits2_pos_bound (p : positive) : Zpos p < 2 ^ Zpos (digits2_pos p).
Proof.
  induction p; cbn [digits2_pos]; rewrite ?Pos2Z.inj_succ, ?Z.pow_succ_r by lia; lia.
Qed.

Lemma pow_le_of_digits (p : positive) (n : Z) :
  0 <= n -> n < Zpos (digits2_pos p) -> 2 ^ n <= Zpos p.
Proof.
  revert n. induction p as [p IH | p IH |]; intros n Hn Hlt;
    cbn [digits2_pos] in Hlt; rewrite ?Pos2Z.inj_succ in Hlt.
  - destruct (Z.eq_dec n 0) as [-> | Hne]; [cbn; lia |].
    specialize (IH (n - 1) ltac:(lia) ltac:(lia)).
    replace n with (Z.succ (n - 1)) by lia. rewrite Z.pow_succ_r by lia. lia.
  - destruct (Z.eq_dec n 0) as [-> | Hne]; [cbn; lia |].
    specialize (IH (n - 1) ltac:(lia) ltac:(lia)).
    replace n with (Z.succ (n - 1)) by lia. rewrite Z.pow_succ_r by lia. lia.
  - replace n with 0 by lia. cbn. lia.
Qed.

(** A mantissa of 53 digits with an exponent in range needs no rounding. *)
Lemma binary_round_aux_exact (m : positive) (e : Z) :
  Zpos (digits2_pos m) = 53 -> -1074 <= e <= 971 ->
  binary_round_aux 53 1024 false (Zpos m) e loc_Exact = S754_finite false m e.
Proof.
  intros Hd He. unfold binary_round_aux, shr_fexp, fexp, emin. cbn [Zdigits2].
  rewrite Hd. replace (Z.max (53 + e - 53) (3 - 1024 - 53) - e) with 0 by lia.
  cbn [shr shr_record_of_loc loc_of_shr_record shr_m round_nearest_even Zdigits2].
  rewrite Hd. replace (Z.max (53 + e - 53) (3 - 1024 - 53) - e) with 0 by lia.
  cbn [shr shr_record_of_loc shr_m].
  destruct (Z.leb_spec e (1024 - 53)); [reflexivity | lia].
Qed.

(** An integer below [2^53] converts exactly. *)
Lemma float_of_int_pos (p : positive) :
  Zpos p < 2 ^ 53 ->
  exists m e, float_of_int (Zpos p) = Ok (S754_finite false m e)
    /\ Zpos (digits2_pos m) = 53 /\ -52 <= e <= 0 /\ Zpos m = Zpos p * 2 ^ (- e).
Proof.
  intros Hp. unfold float_of_int, binary_normalize, binary_round, shl_align, fexp, emin.
  assert (Hd : Zpos (digits2_pos p) <= 53).
  { destruct (Z.le_gt_cases (Zpos (digits2_pos p)) 53) as [H | H]; [exact H |].
    pose proof (pow_le_of_digits p 53). lia. }
  replace (Z.max (Zpos (digits2_pos p) + 0 - 53) (3 - 1024 - 53)) with (Zpos (digits2_pos p) - 53) by lia.
  destruct (Zpos (digits2_pos p) - 53 - 0) as [| k | k] eqn:Hk; try lia.
  - rewrite binary_round_aux_exact by lia. exists p, 0. repeat split; try lia.
  - rewrite binary_round_aux_exact; [| rewrite digits2_pos_iter_xO; lia | lia].
    exists (Pos.iter xO p k), (Zpos (digits2_pos p) - 53).
    split; [reflexivity |]. split; [rewrite digits2_pos_iter_xO; lia |]. split; [lia |].
    rewrite Zpos_iter_xO. f_equal. f_equal. lia.
Qed.

(** Halving a normal number only lowers its exponent. *)
Lemma fmul_half (m : positive) (e : Z) :
  Zpos (digits2_pos m) = 53 -> -52 <= e <= 0 ->
  fmul f0_5 (S754_finite false m e) = S754_finite false m (e - 1).
Proof.
  intros Hd He. unfold fmul, f0_5, SFmul. cbn [xorb].
  change (4503599627370496 * m)%positive with (Pos.iter xO m 52).
  unfold binary_round_aux, shr_fexp, fexp, emin. cbn [Zdigits2].
  rewrite digits2_pos_iter_xO, Hd.
  replace (Z.max _ (3 - 1024 - 53) - (-53 + e)) with 52 by lia.
  cbn [shr shr_record_of_loc].
  replace (SpecFloat.iter_pos shr_1 52
             {| shr_m := Zpos (Pos.iter xO m 52); shr_r := false; shr_s := false |})
    with {| shr_m := Zpos m; shr_r := false; shr_s := false |} by reflexivity.
  cbn [loc_of_shr_record shr_m round_nearest_even Zdigits2].
  rewrite Hd.
  replace (Z.max (53 + (-53 + e + 52) - 53) (3 - 1024 - 53) - (-53 + e + 52))
    with 0 by lia.
  cbn [shr shr_record_of_loc shr_m].
  destruct (Z.leb_spec (-53 + e + 52) (1024 - 53)); [| lia].
  f_equal. lia.
Qed.

(** [int(0.5 * rate)] is [rate // 2] for every rate below [2^53]. *)
Lemma int_of_scaled_half (rate : Z) :
  0 <= rate < 2 ^ 53 -> int_of_scaled f0_5 rate = Ok (rate / 2).
Proof.
  intros Hr. destruct rate as [| p | p]; [reflexivity | | lia].
  destruct (float_of_int_pos p) as (m & e & Hf & Hd & He & Hm); [lia |].
  unfold int_of_scaled. rewrite Hf. cbn [mbind result_bind].
  rewrite fmul_half by assumption. unfold py_int. cbn [cond_Zopp].
  destruct (Z.leb_spec 0 (e - 1)); [lia |]. f_equal.
  rewrite Hm. replace (- (e - 1)) with (Z.succ (- e)) by lia.
  rewrite Z.pow_succ_r by lia.
  rewrite (Z.mul_comm 2), <- Z.div_div by lia.
  rewrite Z.div_mul by lia. reflexivity.
Qed.

(** ** The synthesis loops *)

Lemma build_fastspeech2_config (e : engine) (language gender : string) :
  config (snd (build_fastspeech2 e language gender)) = config e.
Proof.
  unfold build_fastspeech2, construct.
  repeat match goal with
  | |- context [if ?b then _ else _] => destruct b
  | |- context [match ?x with _ => _ end] => destruct x
  end; reflexivity.
Qed.

Lemma build_vocoder_config (e : engine) (language gender : string) :
  config (snd (build_vocoder e language gender)) = config e.
Proof.
  unfold build_vocoder, construct.
  repeat match goal with
  | |- context [if ?b then _ else _] => destruct b
  | |- context [match ?x with _ => _ end] => destruct x
  end; reflexivity.
Qed.

Lemma load_fastspeech2_config (e : engine) (language gender : string) :
  config (snd (load_fastspeech2 e language gender)) = config e.
Proof.
  unfold load_fastspeech2.
  destruct (ensure_model _ _ _) as [[success msg] st].
  destruct success; cbn [negb]; [| reflexivity].
  rewrite build_fastspeech2_config. reflexivity.
Qed.

Lemma load_vocoder_config (e : engine) (language gender : string) :
  config (snd (load_vocoder e language gender)) = config e.
Proof.
  unfold load_vocoder.
  destruct (ensure_vocoder _ _ _) as [[success msg] st].
  destruct success; cbn [negb]; [| reflexivity].
  rewrite build_vocoder_config. reflexivity.
Qed.

(** Loading never changes the configuration. *)
Lemma load_model_config (e : engine) (language gender : string) :
  config (snd (load_model e language gender)) = config e.
Proof.
  unfold load_model.
  destruct (model_cache e !! (language, gender)); [reflexivity |].
  pose proof (load_fastspeech2_config e language gender) as H1.
  destruct (load_fastspeech2 e language gender) as [[fs2 | x] e1]; [| exact H1].
  pose proof (load_vocoder_config e1 language gender) as H2.
  destruct (load_vocoder e1 language gender) as [[voc | x] e2]; cbn in *; congruence.
Qed.

Local Close Scope string_scope.

Section SynthesisProperties.

Variable preprocess : preprocessor -> text -> string -> string -> result (list text).
Variable synthesize_chunk : text -> handle -> handle -> float -> result (list Z).
Variable np_alloc : Z -> option exn.

Let submit := submit_loop preprocess synthesize_chunk np_alloc.
Let audios_of := chunks_audio preprocess synthesize_chunk np_alloc.

Lemma collect_loop_app (new more : list future_item) (arr : list (list Z)) :
  collect_loop (new ++ more) arr
  = (arr' ← collect_loop new arr; collect_loop more arr').
Proof.
  revert arr. induction new as [| [a | r] new IH]; intros arr; cbn.
  - reflexivity.
  - apply IH.
  - destruct r as [a | x]; cbn; [apply IH | reflexivity].
Qed.

(** When every chunk yields its audio, the first loop succeeds and the
    second loop collects exactly these buffers, in chunk order. *)
Lemma submit_collect_ok (rate : Z) (language gender : string) (m : loaded)
    (chunks : list chunk) (bufs : list (list Z)) :
  audios_of rate language gender m chunks = Ok bufs ->
  forall futures, exists new,
    submit rate language gender m chunks futures = Ok (futures ++ new)
    /\ forall arr, collect_loop new arr = Ok (arr ++ bufs).
Proof.
  subst submit audios_of. revert bufs.
  induction chunks as [| c rest IH]; intros bufs Haudio futures.
  - injection Haudio as <-. exists []. rewrite !app_nil_r. split; [reflexivity |].
    intros arr. rewrite app_nil_r. reflexivity.
  - cbn [chunks_audio] in Haudio.
    destruct (chunk_audio _ _ _ rate language gender m c) as [o |] eqn:Hc;
      [| discriminate].
    destruct (chunks_audio _ _ _ rate language gender m rest) as [bufs' |];
      [| discriminate].
    cbn in Haudio. injection Haudio as <-.
    unfold chunk_audio in Hc. cbn [submit_loop].
    destruct (is_silence c).
    + destruct (silence_duration c) as [d |]; [| discriminate].
      destruct (int_of_scaled d rate) as [n |]; [| discriminate]. cbn in Hc |- *.
      destruct (np_zeros np_alloc n) as [z |]; [| discriminate]. cbn in Hc |- *.
      injection Hc as <-.
      destruct (IH bufs' eq_refl (futures ++ [Buffer z])) as (new & Hs & Hcol).
      exists (Buffer z :: new). rewrite Hs, <- app_assoc. split; [reflexivity |].
      intros arr. cbn. rewrite Hcol, <- app_assoc. reflexivity.
    + destruct (nonempty (strip (chunk_text c))); cbn [negb] in Hc |- *.
      * destruct m as [[model vocoder] pre].
        destruct (preprocess pre (chunk_text c) language gender) as [toks |];
          [| discriminate].
        cbn in Hc |- *.
        destruct (synthesize_chunk _ model vocoder (chunk_alpha c)) as [a |] eqn:Hsyn;
          [| discriminate].
        cbn in Hc. injection Hc as <-.
        destruct (IH bufs' eq_refl (futures ++ [Future (Ok a)]))
          as (new & Hs & Hcol).
        exists (Future (Ok a) :: new). rewrite Hs, <- app_assoc.
        split; [reflexivity |].
        intros arr. cbn. rewrite Hcol, <- app_assoc. reflexivity.
      * injection Hc as <-. apply IH. reflexivity.
Qed.

(** The result of [synthesize] once the model is loaded, the text is
    segmented and every chunk yields its audio. *)
Lemma synthesize_ok (e e1 : engine) (text0 : text) (language gender : string)
    (alpha : float) (m : loaded) (chunks : list chunk) (bufs : list (list Z)) :
  Z.of_nat (length text0) <= max_text_length (config e) ->
  load_model (log_call e (CallLoadModel language gender)) language gender
  = (Ok m, e1) ->
  extract_text_alpha_chunks text0 alpha = Ok chunks ->
  audios_of (sampling_rate (config e)) language gender m chunks = Ok bufs ->
  synthesize preprocess synthesize_chunk np_alloc e text0 language gender alpha
  = (if nonempty_list bufs then Ok (concat bufs)
     else n ← int_of_scaled f0_5 (sampling_rate (config e)); np_zeros np_alloc n,
     log_call e1 (CallExtract text0)).
Proof.
  intros Hlen Hload Hseg Haudio. unfold synthesize.
  destruct (Z.ltb_spec (max_text_length (config e)) (Z.of_nat (length text0)))
    as [Hlt | _]; [lia |].
  rewrite Hload, Hseg. cbn [mbind result_bind].
  assert (Hconf : config e1 = config e).
  { change e1 with (snd (Ok m, e1)). rewrite <- Hload.
    apply (load_model_config (log_call e (CallLoadModel language gender))). }
  cbn [log_call config]. rewrite Hconf.
  destruct (submit_collect_ok _ _ _ _ _ _ Haudio []) as (new & Hs & Hcol).
  subst submit. rewrite Hs. cbn [mbind result_bind app]. rewrite Hcol.
  cbn [mbind result_bind app]. destruct bufs; reflexivity.
Qed.





Lemma strip_nil_blank (t : text) : strip t = [] -> nonempty (strip t) = false.
Proof. intros ->. reflexivity. Qed.

(** Chunks that are neither silences nor carry text yield nothing. *)
Lemma chunks_audio_blank (rate : Z) (language gender : string) (m : loaded)
    (chunks : list chunk) :
  Forall (fun c => is_silence c = false /\ strip (chunk_text c) = []) chunks ->
  audios_of rate language gender m chunks = Ok [].
Proof.
  subst audios_of. induction 1 as [| c rest [Hsil Hblank] _ IH]; [reflexivity |].
  cbn [chunks_audio]. unfold chunk_audio.
  rewrite Hsil, (strip_nil_blank _ Hblank). cbn. rewrite IH. reflexivity.
Qed.

(** C8, as the code has it.  The model loaded and the text segmented into
    no chunk at all: [synthesize] returns [int(0.5 * rate)] zeros, which is
    [rate // 2] samples, half a second, when [np.zeros] can make that
    array. *)
Theorem synthesize_fallback_half_second (e e1 : engine) (text0 : text)
    (language gender : string) (alpha : float) (m : loaded) :
  let rate := sampling_rate (config e) in
  0 <= rate < 2 ^ 53 ->
  np_alloc (rate / 2) = None ->
  Z.of_nat (length text0) <= max_text_length (config e) ->
  load_model (log_call e (CallLoadModel language gender)) language gender
  = (Ok m, e1) ->
  extract_text_alpha_chunks text0 alpha = Ok [] ->
  fst (synthesize preprocess synthesize_chunk np_alloc e text0 language gender alpha)
  = Ok (repeat 0 (Z.to_nat (rate / 2))).
Proof.
  intros rate Hrate Halloc Hlen Hload Hseg.
  rewrite (synthesize_ok _ _ _ _ _ _ _ [] [] Hlen Hload Hseg eq_refl).
  cbn [fst nonempty_list]. fold rate.
  rewrite (int_of_scaled_half rate Hrate). cbn [mbind result_bind].
  unfold np_zeros. rewrite Halloc.
  destruct (Z.ltb_spec (rate / 2) 0) as [Hneg | _]; [| reflexivity].
  pose proof (Z.div_pos rate 2). lia.
Qed.

End SynthesisProperties.



Lemma synthesize_fallback_half_second_witness :
  let e := demo_engine "/models" in
  fst (synthesize demo_pre demo_synth demo_alloc e (str " . ") "hindi" "male" f1_0)
  = Ok (repeat 0 (Z.to_nat (22050 / 2))).
Proof.
  intros e.
  pose (r := load_model (log_call e (CallLoadModel "hindi" "male"))
               "hindi" "male").
  pose (m := match fst r with
             | Ok m => m
             | Raise _ => (Handle 0 "" (YScalar ""), Handle 0 "" (YScalar ""),
                           StubPreprocessor)
             end).
  apply (synthesize_fallback_half_second demo_pre demo_synth demo_alloc e (snd r)
           (str " . ") "hindi" "male" f1_0 m).
  - vm_compute. split; [discriminate | reflexivity].
  - vm_compute. reflexivity.
  - vm_compute. discriminate.
  - vm_compute. reflexivity.
  - vm_compute. reflexivity.
Defined.

(** C8, refuted as stated.  [<sil=0s>] is segmented into one silence of no
    sample: the chunks yield no audio at all, yet [synthesize] returns the
    empty array and not the half second of silence, which at 22050 Hz would
    be 11025 samples. *)
Lemma zero_silence_gives_empty_result :
  extract_text_alpha_chunks (str "<sil=0s>") f1_0
  = Ok [Chunk [] f1_0 true (Some (S754_zero false))]
  /\ fst (synthesize demo_pre demo_synth demo_alloc (demo_engine "/models")
            (str "<sil=0s>") "hindi" "male" f1_0)
     = Ok []
  /\ int_of_scaled f0_5 22050 = Ok 11025.
Proof. vm_compute. repeat split. Qed.

Local Close Scope Z_scope.

(** * Segmentation *)

(** ** Prefixes and spans *)

Lemma strip_prefix_app (p r : text) : strip_prefix p (p ++ r) = Some r.
Proof.
  induction p as [| a p IH]; [reflexivity |].
  cbn. rewrite N.eqb_refl. exact IH.
Qed.

Lemma strip_prefix_Some (p s r : text) : strip_prefix p s = Some r -> s = p ++ r.
Proof.
  revert s. induction p as [| a p IH]; intros s H.
  - injection H as <-. reflexivity.
  - destruct s as [| b s]; [discriminate |]. cbn in H.
    destruct (N.eqb_spec a b) as [<- | _]; [| discriminate].
    rewrite (IH _ H). reflexivity.
Qed.

(** A character that does not occur in [p] ends the comparison: what comes
    after it does not matter. *)
Lemma strip_prefix_cut (p u v : text) (x : N) :
  ~ In x p ->
  strip_prefix p (u ++ x :: v) = (fun r => r ++ x :: v) <$> strip_prefix p u.
Proof.
  revert u. induction p as [| a p IH]; intros u Hx; [reflexivity |].
  destruct u as [| b u]; cbn.
  - destruct (N.eqb_spec a x) as [-> | _]; [| reflexivity].
    exfalso. apply Hx. left. reflexivity.
  - destruct (a =? b); [| reflexivity]. apply IH. intros Hin. apply Hx.
    right. exact Hin.
Qed.

Lemma starts_with_cut (p u v : text) (x : N) :
  ~ In x p -> starts_with p (u ++ x :: v) = starts_with p u.
Proof.
  intros Hx. unfold starts_with. rewrite strip_prefix_cut by exact Hx.
  destruct (strip_prefix p u); reflexivity.
Qed.

Lemma starts_with_true (p s : text) :
  starts_with p s = true <-> exists r, s = p ++ r.
Proof.
  unfold starts_with. split.
  - destruct (strip_prefix p s) as [r |] eqn:H; [| discriminate].
    intros _. exists r. apply strip_prefix_Some. exact H.
  - intros [r ->]. rewrite strip_prefix_app. reflexivity.
Qed.

Lemma span_app (p : N -> bool) (a b : text) :
  forallb p a = true ->
  match b with [] => True | x :: _ => p x = false end ->
  span p (a ++ b) = (a, b).
Proof.
  intros Ha Hb. induction a as [| c a IH]; cbn.
  - destruct b as [| x b]; [reflexivity |]. cbn. rewrite Hb. reflexivity.
  - cbn in Ha. apply andb_true_iff in Ha as [Hc Ha]. rewrite Hc, (IH Ha).
    reflexivity.
Qed.

Lemma span_spec (p : N -> bool) (s a b : text) :
  span p s = (a, b) ->
  s = a ++ b /\ forallb p a = true
  /\ match b with [] => True | x :: _ => p x = false end.
Proof.
  revert a b. induction s as [| c s IH]; intros a b H; cbn in H.
  - injection H as <- <-. repeat split.
  - destruct (p c) eqn:Hc.
    + destruct (span p s) as [a' b'] eqn:Hs. injection H as <- <-.
      destruct (IH a' b' eq_refl) as (-> & Ha & Hb).
      cbn. rewrite Hc. repeat split; assumption.
    + injection H as <- <-. repeat split. exact Hc.
Qed.

Lemma span_cut (p : N -> bool) (u v : text) (x : N) :
  p x = false ->
  span p (u ++ x :: v) = (fst (span p u), snd (span p u) ++ x :: v).
Proof.
  intros Hx. induction u as [| c u IH]; cbn.
  - rewrite Hx. reflexivity.
  - destruct (p c); [| reflexivity]. rewrite IH.
    destruct (span p u). reflexivity.
Qed.

(** ** What the two patterns match *)


Lemma match_alpha_tag (num rest : text) :
  valid_num num -> match_alpha (alpha_tag num ++ rest) = Some num.
Proof.
  intros [Hne Hnum]. unfold match_alpha, alpha_tag.
  rewrite <- !app_assoc, strip_prefix_app.
  rewrite (span_app in_num_class num (str ">" ++ rest) Hnum eq_refl).
  destruct num; [contradiction | reflexivity].
Qed.

Lemma match_alpha_Some (s num : text) :
  match_alpha s = Some num ->
  valid_num num /\ exists rest, s = alpha_tag num ++ rest.
Proof.
  unfold match_alpha.
  destruct (strip_prefix (str "<alpha=") s) as [r |] eqn:Hp; [| discriminate].
  apply strip_prefix_Some in Hp as ->.
  destruct (span in_num_class r) as [a b] eqn:Hs.
  apply span_spec in Hs as (-> & Ha & _).
  destruct a as [| c a]; [discriminate |].
  destruct b as [| d b]; [discriminate |].
  destruct (N.eqb_spec d 62) as [-> | _]; [| discriminate].
  intros [= <-]. split; [split; [discriminate | exact Ha] |].
  exists b. unfold alpha_tag. rewrite <- !app_assoc. reflexivity.
Qed.

Lemma match_sil_tag (m : sil_match) (rest : text) :
  valid_sil m -> match_sil (sm_tag m ++ rest) = Some m.
Proof.
  intros (num & unit & [Hne Hnum] & Hunit & ->). unfold match_sil, mk_sil_match.
  cbn [sm_tag]. rewrite <- !app_assoc, strip_prefix_app.
  assert (Hs : span in_num_class (num ++ unit ++ str ">" ++ rest)
               = (num, unit ++ str ">" ++ rest)).
  { apply span_app; [exact Hnum |]. destruct Hunit as [-> | ->]; reflexivity. }
  rewrite Hs. destruct num as [| c num]; [contradiction |].
  destruct Hunit as [-> | ->]; reflexivity.
Qed.

Lemma match_sil_Some (s : text) (m : sil_match) :
  match_sil s = Some m -> valid_sil m /\ exists rest, s = sm_tag m ++ rest.
Proof.
  unfold match_sil.
  destruct (strip_prefix (str "<sil=") s) as [r |] eqn:Hp; [| discriminate].
  apply strip_prefix_Some in Hp as ->.
  destruct (span in_num_class r) as [a b] eqn:Hs.
  apply span_spec in Hs as (-> & Ha & _).
  destruct a as [| c a]; [discriminate |].
  destruct (starts_with (str "ms>") b) eqn:Hms.
  - apply starts_with_true in Hms as [rest ->]. intros [= <-]. split.
    + exists (c :: a), (str "ms"). repeat split; [discriminate | exact Ha | left; reflexivity].
    + exists rest. cbn [sm_tag mk_sil_match]. rewrite <- !app_assoc. reflexivity.
  - destruct (starts_with (str "s>") b) eqn:Hs; [| discriminate].
    apply starts_with_true in Hs as [rest ->]. intros [= <-]. split.
    + exists (c :: a), (str "s"). repeat split; [discriminate | exact Ha | right; reflexivity].
    + exists rest. cbn [sm_tag mk_sil_match]. rewrite <- !app_assoc. reflexivity.
Qed.

(** A silence tag starts with [<s], so the speed pattern does not match
    there. *)
Lemma match_alpha_sil_tag (m : sil_match) (rest : text) :
  valid_sil m -> match_alpha (sm_tag m ++ rest) = None.
Proof. intros (num & unit & _ & _ & ->). reflexivity. Qed.

Lemma match_sil_alpha_tag (num rest : text) :
  match_sil (alpha_tag num ++ rest) = None.
Proof. reflexivity. Qed.

(** Neither pattern matches at a character other than [<]. *)
Lemma strip_prefix_head_ne (a c : N) (p s : text) :
  a <> c -> strip_prefix (a :: p) (c :: s) = None.
Proof.
  intros Hne. cbn [strip_prefix].
  destruct (N.eqb_spec a c) as [-> | _]; [contradiction | reflexivity].
Qed.

Lemma match_alpha_not_lt (c : N) (s : text) : c <> 60 -> match_alpha (c :: s) = None.
Proof.
  intros Hc. unfold match_alpha.
  change (str "<alpha=") with (60 :: str "alpha=").
  rewrite strip_prefix_head_ne by congruence. reflexivity.
Qed.

Lemma match_sil_not_lt (c : N) (s : text) : c <> 60 -> match_sil (c :: s) = None.
Proof.
  intros Hc. unfold match_sil.
  change (str "<sil=") with (60 :: str "sil=").
  rewrite strip_prefix_head_ne by congruence. reflexivity.
Qed.

(** The characters after the first [<] of a tag are not [<]. *)

Lemma in_num_class_not_lt (num : text) :
  forallb in_num_class num = true -> forallb not_lt num = true.
Proof.
  induction num as [| c num IH]; [reflexivity |]. cbn [forallb].
  intros [Hc Hn]%andb_true_iff. rewrite (IH Hn), andb_true_r.
  unfold not_lt. destruct (N.eqb_spec c 60) as [-> | _]; [discriminate | reflexivity].
Qed.

Lemma sil_tag_shape (m : sil_match) :
  valid_sil m -> exists body, sm_tag m = 60 :: body /\ forallb not_lt body = true.
Proof.
  intros (num & unit & [_ Hnum] & Hunit & ->).
  exists (str "sil=" ++ num ++ unit ++ str ">"). split; [reflexivity |].
  rewrite !forallb_app, (in_num_class_not_lt num Hnum).
  destruct Hunit as [-> | ->]; reflexivity.
Qed.

(** ** The scanners, one step at a time *)

Lemma lex_go_skip (s : text) (k : nat) : lex_go k s = lex (drop k s).
Proof.
  revert k. induction s as [| c s IH]; intros [| k]; try reflexivity.
  cbn [lex_go drop]. apply IH.
Qed.

Lemma sil_items_go_skip (s : text) (k : nat) : sil_items_go k s = sil_items (drop k s).
Proof.
  revert k. induction s as [| c s IH]; intros [| k]; try reflexivity.
  cbn [sil_items_go drop]. apply IH.
Qed.

Lemma re_finditer_go_skip (s : text) (k : nat) :
  re_finditer_go k s = re_finditer_sil (drop k s).
Proof.
  revert k. induction s as [| c s IH]; intros [| k]; try reflexivity.
  cbn [re_finditer_go drop]. apply IH.
Qed.

Lemma re_split_go_skip (s : text) (k : nat) :
  re_split_go k s = re_split_alpha (drop k s).
Proof.
  revert k. induction s as [| c s IH]; intros [| k]; try reflexivity.
  cbn [re_split_go drop]. apply IH.
Qed.

Lemma replace_go_skip (old new s : text) (k : nat) :
  replace_go old new k s = replace (drop k s) old new.
Proof.
  revert k. induction s as [| c s IH]; intros [| k]; try reflexivity.
  cbn [replace_go drop]. apply IH.
Qed.

(** What is left after the first character of a tag has been read. *)
Lemma drop_tag_tail (c : N) (tag' rest : text) (k : nat) :
  k = length tag' -> drop k (tag' ++ rest) = rest.
Proof. intros ->. apply drop_app_length. Qed.

Lemma alpha_tag_cons (num : text) :
  alpha_tag num = 60 :: (str "alpha=" ++ num ++ str ">").
Proof. reflexivity. Qed.

Lemma lex_alpha (num rest : text) :
  valid_num num -> lex (alpha_tag num ++ rest) = TAlpha num :: lex rest.
Proof.
  intros Hnum. pose proof (match_alpha_tag num rest Hnum) as Hm.
  rewrite alpha_tag_cons in *. cbn [app] in *. unfold lex at 1. cbn [lex_go].
  rewrite Hm.
  rewrite lex_go_skip, (drop_tag_tail 60); [reflexivity |].
  rewrite !length_app. cbn. lia.
Qed.

Lemma re_split_alpha_tag (num rest : text) :
  valid_num num ->
  re_split_alpha (alpha_tag num ++ rest) = [] :: num :: re_split_alpha rest.
Proof.
  intros Hnum. pose proof (match_alpha_tag num rest Hnum) as Hm.
  rewrite alpha_tag_cons in *. cbn [app] in *. unfold re_split_alpha at 1.
  cbn [re_split_go]. rewrite Hm.
  rewrite re_split_go_skip, (drop_tag_tail 60); [reflexivity |].
  rewrite !length_app. cbn. lia.
Qed.

Lemma re_split_alpha_char (c : N) (s : text) :
  match_alpha (c :: s) = None ->
  re_split_alpha (c :: s) = cons_hd c (re_split_alpha s).
Proof. intros Hm. unfold re_split_alpha. cbn [re_split_go]. rewrite Hm. reflexivity. Qed.

Lemma lex_char (c : N) (s : text) :
  match_alpha (c :: s) = None -> match_sil (c :: s) = None ->
  lex (c :: s) = TChar c :: lex s.
Proof. intros Ha Hs. unfold lex. cbn [lex_go]. rewrite Ha, Hs. reflexivity. Qed.

Lemma lex_sil (m : sil_match) (rest : text) :
  valid_sil m -> lex (sm_tag m ++ rest) = TSil m :: lex rest.
Proof.
  intros Hm. pose proof (match_sil_tag m rest Hm) as Hs.
  pose proof (match_alpha_sil_tag m rest Hm) as Ha.
  destruct (sil_tag_shape m Hm) as (body & Hbody & _). rewrite Hbody in *.
  cbn [app] in *. unfold lex at 1. cbn [lex_go]. rewrite Ha, Hs, Hbody.
  rewrite lex_go_skip, (drop_tag_tail 60); [reflexivity |]. cbn. lia.
Qed.

Lemma sil_items_tag (m : sil_match) (rest : text) :
  valid_sil m -> sil_items (sm_tag m ++ rest) = ISil m :: sil_items rest.
Proof.
  intros Hm. pose proof (match_sil_tag m rest Hm) as Hs.
  destruct (sil_tag_shape m Hm) as (body & Hbody & _). rewrite Hbody in *.
  cbn [app] in *. unfold sil_items at 1. cbn [sil_items_go]. rewrite Hs, Hbody.
  rewrite sil_items_go_skip, (drop_tag_tail 60); [reflexivity |]. cbn. lia.
Qed.

Lemma sil_items_char (c : N) (s : text) :
  match_sil (c :: s) = None -> sil_items (c :: s) = IChar c :: sil_items s.
Proof. intros Hs. unfold sil_items. cbn [sil_items_go]. rewrite Hs. reflexivity. Qed.

Lemma re_finditer_sil_tag (m : sil_match) (rest : text) :
  valid_sil m -> re_finditer_sil (sm_tag m ++ rest) = m :: re_finditer_sil rest.
Proof.
  intros Hm. pose proof (match_sil_tag m rest Hm) as Hs.
  destruct (sil_tag_shape m Hm) as (body & Hbody & _). rewrite Hbody in *.
  cbn [app] in *. unfold re_finditer_sil at 1. cbn [re_finditer_go]. rewrite Hs, Hbody.
  rewrite re_finditer_go_skip, (drop_tag_tail 60); [reflexivity |]. cbn. lia.
Qed.

Lemma re_finditer_sil_char (c : N) (s : text) :
  match_sil (c :: s) = None -> re_finditer_sil (c :: s) = re_finditer_sil s.
Proof.
  intros Hs. unfold re_finditer_sil. cbn [re_finditer_go]. rewrite Hs. reflexivity.
Qed.

(** ** Induction over a text, tag by tag *)

Lemma text_alpha_ind (P : text -> Prop) :
  P [] ->
  (forall num rest, valid_num num -> P rest -> P (alpha_tag num ++ rest)) ->
  (forall c s, match_alpha (c :: s) = None -> P s -> P (c :: s)) ->
  forall s, P s.
Proof.
  intros Hnil Htag Hchar s.
  induction s as [s IH] using (induction_ltof1 _ (@length N)). unfold ltof in IH.
  destruct s as [| c s]; [exact Hnil |].
  destruct (match_alpha (c :: s)) as [num |] eqn:Hm.
  - apply match_alpha_Some in Hm as (Hnum & rest & Heq). rewrite Heq.
    apply Htag; [exact Hnum |]. apply IH. rewrite Heq, length_app.
    rewrite alpha_tag_cons. cbn. lia.
  - apply Hchar; [exact Hm |]. apply IH. cbn. lia.
Qed.

Lemma text_sil_ind (P : text -> Prop) :
  P [] ->
  (forall m rest, valid_sil m -> P rest -> P (sm_tag m ++ rest)) ->
  (forall c s, match_sil (c :: s) = None -> P s -> P (c :: s)) ->
  forall s, P s.
Proof.
  intros Hnil Htag Hchar s.
  induction s as [s IH] using (induction_ltof1 _ (@length N)). unfold ltof in IH.
  destruct s as [| c s]; [exact Hnil |].
  destruct (match_sil (c :: s)) as [m |] eqn:Hm.
  - apply match_sil_Some in Hm as (Hv & rest & Heq). rewrite Heq.
    apply Htag; [exact Hv |]. apply IH. rewrite Heq, length_app.
    destruct (sil_tag_shape m Hv) as (body & -> & _). cbn. lia.
  - apply Hchar; [exact Hm |]. apply IH. cbn. lia.
Qed.

Lemma text_tag_ind (P : text -> Prop) :
  P [] ->
  (forall num rest, valid_num num -> P rest -> P (alpha_tag num ++ rest)) ->
  (forall m rest, valid_sil m -> P rest -> P (sm_tag m ++ rest)) ->
  (forall c s, match_alpha (c :: s) = None -> match_sil (c :: s) = None ->
               P s -> P (c :: s)) ->
  forall s, P s.
Proof.
  intros Hnil Halpha Hsil Hchar s.
  induction s as [s IH] using (induction_ltof1 _ (@length N)). unfold ltof in IH.
  destruct s as [| c s]; [exact Hnil |].
  destruct (match_alpha (c :: s)) as [num |] eqn:Ha.
  - apply match_alpha_Some in Ha as (Hnum & rest & Heq). rewrite Heq.
    apply Halpha; [exact Hnum |]. apply IH. rewrite Heq, length_app.
    rewrite alpha_tag_cons. cbn. lia.
  - destruct (match_sil (c :: s)) as [m |] eqn:Hm.
    + apply match_sil_Some in Hm as (Hv & rest & Heq). rewrite Heq.
      apply Hsil; [exact Hv |]. apply IH. rewrite Heq, length_app.
      destruct (sil_tag_shape m Hv) as (body & -> & _). cbn. lia.
    + apply Hchar; [exact Ha | exact Hm |]. apply IH. cbn. lia.
Qed.

(** ** [re.split] *)

Lemma re_split_alpha_shape (s : text) :
  exists block tagged, re_split_alpha s = block :: tagged.
Proof.
  induction s as [| num rest Hnum IH | c s Hm IH] using text_alpha_ind.
  - exists [], []. reflexivity.
  - rewrite re_split_alpha_tag by exact Hnum. eauto.
  - rewrite re_split_alpha_char by exact Hm.
    destruct IH as (b & t & ->). cbn. eauto.
Qed.

(** Joining the pieces of [re.split], each group inside its tag again, gives
    the text back. *)
Lemma unsplit_re_split_alpha (s : text) : unsplit (re_split_alpha s) = s.
Proof.
  induction s as [| num rest Hnum IH | c s Hm IH] using text_alpha_ind.
  - reflexivity.
  - rewrite re_split_alpha_tag by exact Hnum.
    destruct (re_split_alpha_shape rest) as (b & t & Hrest). rewrite Hrest in *.
    cbn [unsplit unsplit_tagged app] in *. rewrite IH.
    unfold alpha_tag. rewrite <- !app_assoc. reflexivity.
  - rewrite re_split_alpha_char by exact Hm.
    destruct (re_split_alpha_shape s) as (b & t & Hs). rewrite Hs in *.
    cbn [cons_hd unsplit app] in *. rewrite IH. reflexivity.
Qed.

(** ** The loops only append *)

Lemma words_loop_acc (alpha : float) (ph : gmap text float) (words buffer : list text)
    (chunks : list chunk) :
  words_loop alpha ph words buffer chunks
  = (fst (words_loop alpha ph words buffer []),
     chunks ++ snd (words_loop alpha ph words buffer [])).
Proof.
  revert buffer chunks. induction words as [| w words IH]; intros buffer chunks.
  - cbn. rewrite app_nil_r. reflexivity.
  - cbn [words_loop]. destruct (ph !! w) as [d |].
    + rewrite IH. rewrite (IH [] (_ ++ [_])). cbn [fst snd].
      destruct (nonempty_list buffer); cbn [app]; rewrite <- ?app_assoc; reflexivity.
    + apply IH.
Qed.

Lemma sentences_loop_acc (alpha : float) (ph : gmap text float)
    (sentences : list text) (chunks : list chunk) :
  sentences_loop alpha ph sentences chunks
  = chunks ++ sentences_loop alpha ph sentences [].
Proof.
  revert chunks. induction sentences as [| s sentences IH]; intros chunks.
  - cbn. rewrite app_nil_r. reflexivity.
  - cbn [sentences_loop]. rewrite words_loop_acc.
    destruct (words_loop alpha ph (split_ws s) [] []) as [buffer cs] eqn:Hw.
    cbn [fst snd]. rewrite IH. rewrite (IH (if nonempty_list buffer then _ else _)).
    destruct (nonempty_list buffer); cbn [app]; rewrite <- ?app_assoc; reflexivity.
Qed.

Lemma process_block_acc (alpha : float) (block : text) (chunks : list chunk) :
  process_block alpha block chunks
  = (cs ← process_block alpha block []; Ok (chunks ++ cs)).
Proof.
  unfold process_block.
  destruct (sil_loop 0 (re_finditer_sil block) ∅ block) as [[ph b] | x];
    [| reflexivity].
  cbn. rewrite sentences_loop_acc. reflexivity.
Qed.

(** Every chunk of a block carries the speed of the block. *)
Lemma words_loop_alpha (alpha : float) (ph : gmap text float) (words buffer : list text)
    (chunks : list chunk) :
  Forall (fun c => chunk_alpha c = alpha) chunks ->
  Forall (fun c => chunk_alpha c = alpha)
    (snd (words_loop alpha ph words buffer chunks)).
Proof.
  revert buffer chunks. induction words as [| w words IH]; intros buffer chunks H.
  - exact H.
  - cbn [words_loop]. destruct (ph !! w) as [d |]; [| apply IH; exact H].
    apply IH. apply Forall_app. split; [| repeat constructor].
    destruct (nonempty_list buffer); [| exact H].
    apply Forall_app. split; [exact H | repeat constructor].
Qed.

Lemma sentences_loop_alpha (alpha : float) (ph : gmap text float)
    (sentences : list text) (chunks : list chunk) :
  Forall (fun c => chunk_alpha c = alpha) chunks ->
  Forall (fun c => chunk_alpha c = alpha)
    (sentences_loop alpha ph sentences chunks).
Proof.
  revert chunks. induction sentences as [| s sentences IH]; intros chunks H.
  - exact H.
  - cbn [sentences_loop].
    pose proof (words_loop_alpha alpha ph (split_ws s) [] chunks H) as Hw.
    destruct (words_loop alpha ph (split_ws s) [] chunks) as [buffer cs].
    cbn [snd] in Hw. apply IH. destruct (nonempty_list buffer); [| exact Hw].
    apply Forall_app. split; [exact Hw | repeat constructor].
Qed.

Lemma process_block_alpha (alpha : float) (block : text) (cs : list chunk) :
  process_block alpha block [] = Ok cs ->
  Forall (fun c => chunk_alpha c = alpha) cs.
Proof.
  unfold process_block.
  destruct (sil_loop 0 (re_finditer_sil block) ∅ block) as [[ph b] | x];
    [| discriminate].
  cbn. intros [= <-]. apply sentences_loop_alpha. constructor.
Qed.

(** ** The [while] loop, two pieces at a time *)

Lemma nth_drop_hd (l : list text) (i : nat) (x : text) (rest : list text) :
  drop i l = x :: rest -> nth i l [] = x /\ (i < length l)%nat /\ drop (S i) l = rest.
Proof.
  revert i. induction l as [| y l IH]; intros i H.
  - rewrite drop_nil in H. discriminate.
  - destruct i as [| i].
    + injection H as <- <-. repeat split. cbn. lia.
    + cbn [drop] in H. destruct (IH i H) as (Hn & Hl & Hd).
      cbn. repeat split; [exact Hn | lia | exact Hd].
Qed.

Lemma blocks_loop_tagged (fuel : nat) (alpha_blocks : list text) (i : nat)
    (alpha : float) (chunks : list chunk) :
  (0 < i)%nat -> (length (drop i alpha_blocks) <= fuel)%nat ->
  blocks_loop fuel alpha_blocks i alpha chunks
  = (more ← speed_scoped (drop i alpha_blocks); Ok (chunks ++ more)).
Proof.
  revert i alpha chunks.
  induction fuel as [| fuel IH]; intros i alpha chunks Hi Hfuel.
  - destruct (drop i alpha_blocks) as [| x rest] eqn:Hd; [| cbn in Hfuel; lia].
    cbn. rewrite app_nil_r. reflexivity.
  - cbn [blocks_loop].
    destruct (drop i alpha_blocks) as [| num rest] eqn:Hd.
    + apply drop_nil_inv in Hd. rewrite bool_decide_eq_false_2 by lia.
      cbn. rewrite app_nil_r. reflexivity.
    + destruct (nth_drop_hd _ _ _ _ Hd) as (Hnum & Hlt & Hrest).
      rewrite bool_decide_eq_true_2 by exact Hlt.
      rewrite bool_decide_eq_false_2 by lia. rewrite Hnum.
      cbn [speed_scoped].
      destruct (py_float num) as [a |]; [| destruct rest; reflexivity].
      cbn [mbind result_bind].
      destruct rest as [| block rest'].
      * assert (Hlen : length alpha_blocks = S i).
        { apply (f_equal (@length _)) in Hd. rewrite length_drop in Hd. cbn in Hd. lia. }
        rewrite bool_decide_eq_false_2 by lia.
        rewrite process_block_acc.
        destruct (process_block a [] []) as [cs |]; [| reflexivity].
        cbn [mbind result_bind]. destruct fuel as [| fuel']; [reflexivity |].
        cbn [blocks_loop]. rewrite bool_decide_eq_false_2 by lia. reflexivity.
      * destruct (nth_drop_hd _ _ _ _ Hrest) as (Hblock & Hlt' & Hrest').
        rewrite bool_decide_eq_true_2 by exact Hlt'. rewrite Hblock.
        rewrite process_block_acc.
        destruct (process_block a block []) as [cs |]; [| reflexivity].
        cbn [mbind result_bind].
        rewrite IH; [| lia |].
        -- rewrite Hrest'. destruct (speed_scoped rest') as [more |]; [| reflexivity].
           cbn. rewrite app_assoc. reflexivity.
        -- rewrite Hrest'. cbn in Hfuel. lia.
Qed.

(** [extract_text_alpha_chunks] segments the first piece at the default
    speed and every later piece at the speed of the tag before it. *)
Lemma extract_by_scope (text0 : text) (default_alpha : float) :
  extract_text_alpha_chunks text0 default_alpha
  = segment_by_scope default_alpha (re_split_alpha text0).
Proof.
  unfold extract_text_alpha_chunks.
  destruct (re_split_alpha_shape text0) as (block & tagged & ->).
  cbn [length blocks_loop segment_by_scope].
  rewrite bool_decide_eq_true_2 by (cbn; lia).
  rewrite bool_decide_eq_true_2 by reflexivity.
  cbn [mbind result_bind nth].
  destruct (process_block default_alpha block []) as [cs |]; [| reflexivity].
  cbn [mbind result_bind].
  rewrite blocks_loop_tagged; [reflexivity | lia |].
  change (drop 1 (block :: tagged)) with tagged. lia.
Qed.

(** ** A tag is recognised from its own characters *)

(** A space or a [<] after the first character ends any attempt to match
    the silence pattern: what follows it does not matter. *)
Lemma match_sil_cut (u v : text) (x : N) :
  u <> [] -> x = 60 \/ x = 32 ->
  match_sil (u ++ x :: v) = match_sil u.
Proof.
  intros Hu Hx. destruct u as [| b u]; [contradiction |].
  unfold match_sil. change (str "<sil=") with (60 :: str "sil=").
  cbn [app strip_prefix]. destruct (60 =? b); [| reflexivity].
  rewrite strip_prefix_cut by (destruct Hx as [-> | ->]; cbn; intuition discriminate).
  destruct (strip_prefix (str "sil=") u) as [r |]; [| reflexivity]. cbn [fmap option_fmap option_map].
  rewrite span_cut by (destruct Hx as [-> | ->]; reflexivity).
  destruct (span in_num_class r) as [a b']. cbn [fst snd].
  destruct a as [| c a]; [reflexivity |].
  rewrite !starts_with_cut by (destruct Hx as [-> | ->]; cbn; intuition discriminate).
  reflexivity.
Qed.

Lemma re_split_alpha_no_lt (u rest : text) :
  forallb not_lt u = true ->
  re_split_alpha (u ++ rest) = prepend u (re_split_alpha rest).
Proof.
  induction u as [| c u IH]; intros Hu.
  - cbn [app]. destruct (re_split_alpha_shape rest) as (b & t & ->). reflexivity.
  - cbn [forallb] in Hu. apply andb_true_iff in Hu as [Hc Hu].
    cbn [app]. rewrite re_split_alpha_char.
    + rewrite (IH Hu). destruct (re_split_alpha_shape rest) as (b & t & ->).
      reflexivity.
    + apply match_alpha_not_lt. unfold not_lt in Hc.
      destruct (N.eqb_spec c 60); [discriminate | assumption].
Qed.

Lemma re_split_alpha_sil_tag (m : sil_match) (rest : text) :
  valid_sil m ->
  re_split_alpha (sm_tag m ++ rest) = prepend (sm_tag m) (re_split_alpha rest).
Proof.
  intros Hm. pose proof (match_alpha_sil_tag m rest Hm) as Ha.
  destruct (sil_tag_shape m Hm) as (body & Hbody & Hlt). rewrite Hbody in *.
  cbn [app] in *. rewrite re_split_alpha_char by exact Ha.
  rewrite (re_split_alpha_no_lt body rest Hlt).
  destruct (re_split_alpha_shape rest) as (b & t & ->). reflexivity.
Qed.

(** What follows a block in the text is nothing or a speed tag. *)
Lemma unsplit_tagged_head (pieces : list text) :
  unsplit_tagged pieces = [] \/ exists v, unsplit_tagged pieces = 60 :: v.
Proof.
  destruct pieces as [| num [| block rest]]; [left; reflexivity | right.. ];
    eexists; reflexivity.
Qed.

(** One pass over the whole text sees the same tokens as [re.split]
    followed by the silence pattern on each block. *)
Lemma lex_by_pieces (s : text) : lex s = tokens_of_pieces (re_split_alpha s).
Proof.
  induction s as [| num rest Hnum IH | m rest Hm IH | c s Ha Hs IH] using text_tag_ind.
  - reflexivity.
  - rewrite lex_alpha, re_split_alpha_tag by exact Hnum. rewrite IH.
    destruct (re_split_alpha_shape rest) as (b & t & ->). reflexivity.
  - rewrite lex_sil, re_split_alpha_sil_tag by exact Hm. rewrite IH.
    destruct (re_split_alpha_shape rest) as (b & t & ->).
    cbn [prepend tokens_of_pieces]. rewrite sil_items_tag by exact Hm. reflexivity.
  - rewrite lex_char, re_split_alpha_char by assumption. rewrite IH.
    pose proof (unsplit_re_split_alpha s) as Hun.
    destruct (re_split_alpha_shape s) as (b & t & Hsplit). rewrite Hsplit in *.
    cbn [cons_hd tokens_of_pieces unsplit] in *.
    rewrite sil_items_char; [reflexivity |].
    destruct (unsplit_tagged_head t) as [Hnil | [v Hv]].
    + rewrite Hnil, app_nil_r in Hun. rewrite Hun. exact Hs.
    + rewrite <- (match_sil_cut (c :: b) v 60); [| discriminate | left; reflexivity].
      cbn [app]. rewrite <- Hv, Hun. exact Hs.
Qed.

Lemma list_pair_ind {A} (P : list A -> Prop) :
  P [] -> (forall x, P [x]) -> (forall x y l, P l -> P (x :: y :: l)) ->
  forall l, P l.
Proof.
  intros Hnil Hone Hpair.
  fix IH 1. intros [| x [| y l]]; [exact Hnil | apply Hone |].
  apply Hpair. apply IH.
Qed.

(** ** Malformed numbers *)

Lemma py_float_raise (v : text) (x : exn) : py_float v = Raise x -> x = ValueError.
Proof.
  unfold py_float. destruct (span is_digit v) as [ip r].
  destruct r as [| c fp].
  - destruct (nonempty ip); [discriminate | intros [= <-]; reflexivity].
  - destruct (_ && _ && _); [discriminate | intros [= <-]; reflexivity].
Qed.

Lemma re_finditer_sil_items (s : text) :
  re_finditer_sil s = omap sil_of_item (sil_items s).
Proof.
  induction s as [| m rest Hm IH | c s Hs IH] using text_sil_ind.
  - reflexivity.
  - rewrite re_finditer_sil_tag, sil_items_tag by exact Hm. cbn. rewrite IH.
    reflexivity.
  - rewrite re_finditer_sil_char, sil_items_char by exact Hs. exact IH.
Qed.

Lemma block_tag_values (block : text) :
  omap tag_value (List.map token_of_item (sil_items block))
  = List.map sm_value (re_finditer_sil block).
Proof.
  rewrite re_finditer_sil_items.
  induction (sil_items block) as [| [c | m] its IH]; cbn; [reflexivity | exact IH |].
  rewrite IH. reflexivity.
Qed.

Lemma sil_loop_raise (j : nat) (ms : list sil_match) (ph : gmap text float)
    (block : text) (x : exn) :
  sil_loop j ms ph block = Raise x -> x = ValueError.
Proof.
  revert j ph block. induction ms as [| m ms IH]; intros j ph block; [discriminate |].
  cbn [sil_loop]. destruct (py_float (sm_value m)) as [value |] eqn:Hv; cbn [mbind result_bind].
  - apply IH.
  - intros [= <-]. apply (py_float_raise _ _ Hv).
Qed.

Lemma sil_loop_bad (j : nat) (ms : list sil_match) (ph : gmap text float)
    (block : text) (v : text) :
  In v (List.map sm_value ms) -> py_float v = Raise ValueError ->
  sil_loop j ms ph block = Raise ValueError.
Proof.
  revert j ph block. induction ms as [| m ms IH]; intros j ph block Hin Hbad;
    [destruct Hin |].
  cbn [sil_loop]. destruct Hin as [<- | Hin].
  - rewrite Hbad. reflexivity.
  - destruct (py_float (sm_value m)) as [value |] eqn:Hv; cbn [mbind result_bind].
    + apply IH; assumption.
    + rewrite (py_float_raise _ _ Hv). reflexivity.
Qed.

Lemma process_block_raise (alpha : float) (block : text) (chunks : list chunk)
    (x : exn) :
  process_block alpha block chunks = Raise x -> x = ValueError.
Proof.
  unfold process_block.
  destruct (sil_loop 0 (re_finditer_sil block) ∅ block) as [[ph b] |] eqn:Hl;
    [discriminate |].
  intros [= <-]. apply (sil_loop_raise _ _ _ _ _ Hl).
Qed.

Lemma process_block_bad (alpha : float) (block : text) (chunks : list chunk)
    (v : text) :
  In v (List.map sm_value (re_finditer_sil block)) ->
  py_float v = Raise ValueError ->
  process_block alpha block chunks = Raise ValueError.
Proof.
  intros Hin Hbad. unfold process_block.
  rewrite (sil_loop_bad _ _ _ _ v Hin Hbad). reflexivity.
Qed.

Lemma speed_scoped_raise (pieces : list text) (x : exn) :
  speed_scoped pieces = Raise x -> x = ValueError.
Proof.
  induction pieces as [| num | num block rest IH] using list_pair_ind;
    [discriminate | |]; cbn [speed_scoped].
  - destruct (py_float num) as [a |] eqn:Hv; cbn [mbind result_bind].
    + apply process_block_raise.
    + intros [= <-]. apply (py_float_raise _ _ Hv).
  - destruct (py_float num) as [a |] eqn:Hv; cbn [mbind result_bind].
    + destruct (process_block a block []) as [cs |] eqn:Hb; cbn [mbind result_bind].
      * destruct (speed_scoped rest) as [more |]; cbn [mbind result_bind]; [discriminate |].
        intros [= <-]. apply IH. reflexivity.
      * intros [= <-]. apply (process_block_raise _ _ _ _ Hb).
    + intros [= <-]. apply (py_float_raise _ _ Hv).
Qed.

Lemma speed_scoped_bad (pieces : list text) (v : text) :
  In v (omap tag_value (tokens_tagged pieces)) ->
  py_float v = Raise ValueError ->
  speed_scoped pieces = Raise ValueError.
Proof.
  intros Hin Hbad. revert Hin.
  induction pieces as [| num | num block rest IH] using list_pair_ind;
    cbn [tokens_tagged speed_scoped omap list_omap tag_value].
  - intros [].
  - intros [<- | []]. rewrite Hbad. reflexivity.
  - change (omap tag_value (TAlpha num :: ?l)) with (num :: omap tag_value l).
    rewrite omap_app, block_tag_values.
    intros [<- | Hin]; [rewrite Hbad; reflexivity |].
    destruct (py_float num) as [a |] eqn:Hv; cbn [mbind result_bind];
      [| rewrite (py_float_raise _ _ Hv); reflexivity].
    apply in_app_or in Hin as [Hin | Hin].
    + rewrite (process_block_bad a block [] v Hin Hbad). reflexivity.
    + destruct (process_block a block []) as [cs |] eqn:Hb; cbn [mbind result_bind];
        [| rewrite (process_block_raise _ _ _ _ Hb); reflexivity].
      rewrite (IH Hin). reflexivity.
Qed.

(** A tag value that [float] rejects fails the whole segmentation. *)
Lemma malformed_tag_value_fails (text0 : text) (default_alpha : float) (v : text) :
  In v (tag_values text0) ->
  py_float v = Raise ValueError ->
  extract_text_alpha_chunks text0 default_alpha = Raise ValueError.
Proof.
  intros Hin Hbad. rewrite extract_by_scope. revert Hin.
  unfold tag_values. rewrite lex_by_pieces.
  destruct (re_split_alpha_shape text0) as (block & tagged & ->).
  cbn [tokens_of_pieces segment_by_scope]. rewrite omap_app, block_tag_values.
  intros Hin. apply in_app_or in Hin as [Hin | Hin].
  - rewrite (process_block_bad _ block [] v Hin Hbad). reflexivity.
  - destruct (process_block default_alpha block []) as [cs |] eqn:Hb; cbn [mbind result_bind];
      [| rewrite (process_block_raise _ _ _ _ Hb); reflexivity].
    rewrite (speed_scoped_bad tagged v Hin Hbad). reflexivity.
Qed.

(** ** Placeholders *)

Lemma str_inj (a b : string) : str a = str b -> a = b.
Proof.
  unfold str. revert b. induction a as [| c a IH]; intros [| d b] H;
    try discriminate; [reflexivity |].
  cbn in H. injection H as Hc Hs. f_equal; [| apply IH; exact Hs].
  rewrite <- (ascii_N_embedding c), <- (ascii_N_embedding d), Hc. reflexivity.
Qed.

Lemma string_of_uint_digits (u : Decimal.uint) :
  forallb is_digit (str (NilEmpty.string_of_uint u)) = true.
Proof. induction u; cbn; try reflexivity; exact IHu. Qed.

Lemma decimal_digits (n : nat) : forallb is_digit (decimal n) = true.
Proof.
  unfold decimal, NilZero.string_of_uint.
  destruct (Nat.to_uint n); try reflexivity; apply string_of_uint_digits.
Qed.

Lemma to_uint_nonnil (n : nat) : Nat.to_uint n <> Decimal.Nil.
Proof.
  pose proof (DecimalNat.Unsigned.to_of (Nat.to_uint n)) as H.
  rewrite DecimalNat.Unsigned.of_to in H. rewrite H.
  apply DecimalFacts.unorm_nonnil.
Qed.

Lemma decimal_inj (i j : nat) : decimal i = decimal j -> i = j.
Proof.
  unfold decimal. intros H. apply str_inj in H.
  apply (f_equal NilZero.uint_of_string) in H.
  rewrite !NilZero.usu in H by apply to_uint_nonnil. injection H as H.
  apply DecimalNat.Unsigned.to_uint_inj. exact H.
Qed.

Lemma placeholder_inj (i j : nat) : placeholder i = placeholder j -> i = j.
Proof.
  unfold placeholder. intros H. apply app_inv_head in H.
  apply app_inv_tail in H. apply decimal_inj. exact H.
Qed.

Lemma is_digit_word_char (s : text) :
  forallb is_digit s = true -> forallb word_char s = true.
Proof.
  induction s as [| c s IH]; [reflexivity |]. cbn [forallb].
  intros [Hc Hs]%andb_true_iff. rewrite (IH Hs), andb_true_r.
  unfold is_digit in Hc. apply andb_true_iff in Hc as [H1 H2].
  apply N.leb_le in H1, H2. unfold word_char, is_space.
  repeat match goal with
  | |- context [?a <=? ?b] => destruct (N.leb_spec a b); try lia
  | |- context [?a =? ?b] => destruct (N.eqb_spec a b); try lia
  end; reflexivity.
Qed.

(** A placeholder is one word: no whitespace, no period, no [<]. *)
Lemma placeholder_word (j : nat) : forallb word_char (placeholder j) = true.
Proof.
  unfold placeholder. rewrite !forallb_app.
  rewrite (is_digit_word_char _ (decimal_digits j)). reflexivity.
Qed.

Lemma placeholder_nonempty (j : nat) : nonempty (placeholder j) = true.
Proof. reflexivity. Qed.

Lemma word_char_not_lt (s : text) :
  forallb word_char s = true -> forallb not_lt s = true.
Proof.
  induction s as [| c s IH]; [reflexivity |]. cbn [forallb].
  intros [Hc Hs]%andb_true_iff. rewrite (IH Hs), andb_true_r.
  unfold word_char in Hc. apply andb_true_iff in Hc as [_ Hc]. exact Hc.
Qed.

Lemma word_char_not_sep (s : text) :
  forallb word_char s = true -> forallb (fun c => negb (sep c)) s = true.
Proof.
  induction s as [| c s IH]; [reflexivity |]. cbn [forallb].
  intros [Hc Hs]%andb_true_iff. rewrite (IH Hs), andb_true_r.
  unfold word_char in Hc. unfold sep.
  apply andb_true_iff in Hc as [[H1 H2]%andb_true_iff _].
  rewrite N.eqb_sym. destruct (is_space c), (c =? 46); try discriminate; reflexivity.
Qed.

(** ** [str.replace] *)

Lemma replace_nil (old new : text) : replace [] old new = [].
Proof. reflexivity. Qed.

Lemma replace_match (old new s : text) :
  old <> [] -> replace (old ++ s) old new = new ++ replace s old new.
Proof.
  intros Hold. destruct old as [| c old]; [contradiction |].
  unfold replace at 1. cbn [app replace_go].
  assert (Hs : starts_with (c :: old) (c :: old ++ s) = true).
  { apply starts_with_true. exists s. reflexivity. }
  rewrite Hs, replace_go_skip.
  replace (length (c :: old) - 1)%nat with (length old) by (cbn; lia).
  rewrite drop_app_length. reflexivity.
Qed.

Lemma replace_char (old new s : text) (c : N) :
  starts_with old (c :: s) = false ->
  replace (c :: s) old new = c :: replace s old new.
Proof. intros Hs. unfold replace. cbn [replace_go]. rewrite Hs. reflexivity. Qed.

Lemma starts_with_head_ne (a c : N) (p s : text) :
  a <> c -> starts_with (a :: p) (c :: s) = false.
Proof. intros H. unfold starts_with. rewrite strip_prefix_head_ne by exact H. reflexivity. Qed.

(** A tag cannot start inside a run without [<]. *)
Lemma replace_no_lt (old new u s : text) :
  forallb not_lt u = true ->
  replace (u ++ s) (60 :: old) new = u ++ replace s (60 :: old) new.
Proof.
  induction u as [| c u IH]; intros Hu; [reflexivity |].
  cbn [forallb] in Hu. apply andb_true_iff in Hu as [Hc Hu].
  cbn [app]. rewrite replace_char, (IH Hu); [reflexivity |].
  apply starts_with_head_ne. unfold not_lt in Hc.
  destruct (N.eqb_spec c 60); [discriminate | congruence].
Qed.

(** ** A block under the silence loop *)

Lemma mflat_cons (mk : mark) (marks : list mark) :
  mflat (mk :: marks) = mark_text mk ++ mflat marks.
Proof. reflexivity. Qed.

Lemma mflat_items (s : text) : mflat (List.map mark_of_item (sil_items s)) = s.
Proof.
  induction s as [| m rest Hm IH | c s Hs IH] using text_sil_ind.
  - reflexivity.
  - rewrite sil_items_tag by exact Hm. cbn [List.map mark_of_item].
    rewrite mflat_cons, IH. reflexivity.
  - rewrite sil_items_char by exact Hs. cbn [List.map mark_of_item].
    rewrite mflat_cons, IH. reflexivity.
Qed.

Lemma sil_items_valid (s : text) :
  Forall valid_mark (List.map mark_of_item (sil_items s)).
Proof.
  induction s as [| m rest Hm IH | c s Hs IH] using text_sil_ind.
  - constructor.
  - rewrite sil_items_tag by exact Hm. constructor; [exact Hm | exact IH].
  - rewrite sil_items_char by exact Hs. constructor; [exact I | exact IH].
Qed.

Lemma sil_items_lexed (s : text) : lexed (List.map mark_of_item (sil_items s)).
Proof.
  induction s as [| m rest Hm IH | c s Hs IH] using text_sil_ind.
  - exact I.
  - rewrite sil_items_tag by exact Hm. exact IH.
  - rewrite sil_items_char by exact Hs. cbn [List.map mark_of_item lexed].
    rewrite mflat_items. split; [exact Hs | exact IH].
Qed.

Lemma ph_text_cons (j : nat) : ph_text j = 32 :: (placeholder j ++ str " ").
Proof. reflexivity. Qed.

(** Whether a silence tag starts at a plain character depends only on the
    plain characters that follow it. *)
Lemma match_sil_lead (u : text) (marks : list mark) :
  u <> [] -> Forall valid_mark marks ->
  match_sil (u ++ mflat marks) = match_sil (u ++ lead marks).
Proof.
  intros Hu Hv. revert u Hu.
  induction Hv as [| mk marks Hmk _ IH]; intros u Hu; [reflexivity |].
  destruct mk as [c | m | j m]; rewrite mflat_cons; cbn [mark_text lead].
  - change (c :: lead marks) with ([c] ++ lead marks).
    rewrite !app_assoc. apply IH. destruct u; discriminate.
  - destruct (sil_tag_shape m Hmk) as (body & -> & _).
    rewrite app_nil_r. cbn [app].
    apply match_sil_cut; [exact Hu | left; reflexivity].
  - rewrite ph_text_cons, app_nil_r. cbn [app].
    apply match_sil_cut; [exact Hu | right; reflexivity].
Qed.

Lemma lead_mark_step (j : nat) (t : text) (marks : list mark) :
  lead (List.map (mark_step j t) marks) = lead marks.
Proof.
  induction marks as [| [c | m | i m] marks IH]; cbn [List.map mark_step lead];
    [reflexivity | rewrite IH; reflexivity | | reflexivity].
  destruct (text_eqb (sm_tag m) t); reflexivity.
Qed.

Lemma valid_mark_step (j : nat) (t : text) (marks : list mark) :
  Forall valid_mark marks -> Forall valid_mark (List.map (mark_step j t) marks).
Proof.
  induction 1 as [| mk marks Hmk _ IH]; [constructor |].
  cbn [List.map]. constructor; [| exact IH].
  destruct mk as [c | m | i m]; cbn [mark_step]; try exact Hmk.
  destruct (text_eqb (sm_tag m) t); exact Hmk.
Qed.

Lemma lexed_mark_step (j : nat) (t : text) (marks : list mark) :
  Forall valid_mark marks -> lexed marks ->
  lexed (List.map (mark_step j t) marks).
Proof.
  induction 1 as [| mk marks Hmk Hv IH]; intros Hl; [exact I |].
  destruct mk as [c | m | i m]; cbn [List.map mark_step lexed] in *.
  - destruct Hl as [Hc Hl]. split; [| apply IH; exact Hl].
    rewrite <- Hc.
    pose proof (match_sil_lead [c] _ ltac:(discriminate) (valid_mark_step j t _ Hv)) as H1.
    pose proof (match_sil_lead [c] _ ltac:(discriminate) Hv) as H2.
    cbn [app] in H1, H2. rewrite H1, H2, lead_mark_step. reflexivity.
  - destruct (text_eqb (sm_tag m) t); apply IH; exact Hl.
  - apply IH; exact Hl.
Qed.

Lemma valid_sil_tag_inj (m m' : sil_match) :
  valid_sil m -> valid_sil m' -> sm_tag m = sm_tag m' -> m = m'.
Proof.
  intros Hm Hm' Htag.
  pose proof (match_sil_tag m [] Hm) as H1.
  pose proof (match_sil_tag m' [] Hm') as H2.
  rewrite Htag, H2 in H1. injection H1 as <-. reflexivity.
Qed.

Lemma starts_with_tag (mt : sil_match) (s : text) :
  valid_sil mt -> starts_with (sm_tag mt) s = true -> match_sil s = Some mt.
Proof.
  intros Hmt [rest ->]%starts_with_true. apply match_sil_tag. exact Hmt.
Qed.

Lemma ph_text_no_lt (j : nat) : forallb not_lt (ph_text j) = true.
Proof.
  unfold ph_text. rewrite !forallb_app.
  rewrite (word_char_not_lt _ (placeholder_word j)). reflexivity.
Qed.

(** One [replace] of the loop turns exactly the pending tags with the same
    text into the placeholder. *)
Lemma replace_marks (mt : sil_match) (j : nat) (marks : list mark) :
  valid_sil mt -> Forall valid_mark marks -> lexed marks ->
  replace (mflat marks) (sm_tag mt) (ph_text j)
  = mflat (List.map (mark_step j (sm_tag mt)) marks).
Proof.
  intros Hmt Hv. destruct (sil_tag_shape mt Hmt) as (tbody & Htag & _).
  induction Hv as [| mk marks Hmk Hv IH]; intros Hl; [reflexivity |].
  destruct mk as [c | m | i m]; cbn [List.map mark_step lexed] in *;
    rewrite !mflat_cons; cbn [mark_text].
  - destruct Hl as [Hc Hl]. cbn [app]. rewrite replace_char, (IH Hl); [reflexivity |].
    destruct (starts_with (sm_tag mt) (c :: mflat marks)) eqn:Hs; [| reflexivity].
    rewrite (starts_with_tag mt _ Hmt Hs) in Hc. discriminate.
  - unfold text_eqb.
    destruct (bool_decide_reflect (sm_tag m = sm_tag mt)) as [Heq | Hne];
      cbn [mark_text].
    + rewrite Heq, replace_match by (rewrite Htag; discriminate).
      rewrite (IH Hl). reflexivity.
    + destruct (sil_tag_shape m Hmk) as (body & Hbody & Hlt).
      rewrite Hbody. cbn [app]. rewrite replace_char.
      * rewrite Htag, (replace_no_lt tbody _ body _ Hlt), <- Htag, (IH Hl).
        reflexivity.
      * destruct (starts_with (sm_tag mt) (60 :: body ++ mflat marks)) eqn:Hs;
          [| reflexivity].
        apply (starts_with_tag mt _ Hmt) in Hs.
        change (60 :: body ++ mflat marks) with ((60 :: body) ++ mflat marks) in Hs.
        rewrite <- Hbody, (match_sil_tag m _ Hmk) in Hs. injection Hs as ->.
        contradiction.
  - rewrite Htag, (replace_no_lt tbody _ _ _ (ph_text_no_lt i)), <- Htag, (IH Hl).
    reflexivity.
Qed.

Lemma sil_seconds_unfold (m : sil_match) :
  sil_seconds m
  = (value ← py_float (sm_value m);
     Ok (if text_eqb (sm_unit m) (str "ms") then fdiv value f1000 else value)).
Proof. reflexivity. Qed.

(** The whole silence loop on a block. *)
Lemma sil_loop_marks (ms : list sil_match) (j : nat) (ph : gmap text float)
    (marks : list mark) :
  Forall valid_sil ms -> Forall valid_mark marks -> lexed marks ->
  sil_loop j ms ph (mflat marks)
  = (ds ← all_seconds ms; Ok (ph_all j ds ph, mflat (mark_all j ms marks))).
Proof.
  intros Hms. revert j ph marks.
  induction Hms as [| m ms Hm _ IH]; intros j ph marks Hv Hl; [reflexivity |].
  cbn [sil_loop all_seconds mark_all]. rewrite sil_seconds_unfold.
  destruct (py_float (sm_value m)) as [value |]; [| reflexivity].
  cbn [mbind result_bind].
  change (str " " ++ placeholder j ++ str " ") with (ph_text j).
  rewrite (replace_marks m j marks Hm Hv Hl).
  rewrite IH by (try apply valid_mark_step; try apply lexed_mark_step; assumption).
  destruct (all_seconds ms) as [ds |]; reflexivity.
Qed.

(** ** The block after the silence loop *)

Lemma mark_step_sil (j : nat) (t : text) (mk : mark) :
  mark_sil (mark_step j t mk) = mark_sil mk.
Proof.
  destruct mk as [c | m | i m]; cbn; try reflexivity.
  destruct (text_eqb (sm_tag m) t); reflexivity.
Qed.

Lemma mark_step_blank (j : nat) (t : text) (mk : mark) :
  blank_mark (mark_step j t mk) = blank_mark mk.
Proof.
  destruct mk as [c | m | i m]; cbn; try reflexivity.
  destruct (text_eqb (sm_tag m) t); reflexivity.
Qed.

Lemma mark_all_sil (ms : list sil_match) (j : nat) (marks : list mark) :
  omap mark_sil (mark_all j ms marks) = omap mark_sil marks.
Proof.
  revert j marks. induction ms as [| m ms IH]; intros j marks; [reflexivity |].
  cbn [mark_all]. rewrite IH. clear IH.
  induction marks as [| mk marks IH]; [reflexivity |].
  cbn. rewrite mark_step_sil. destruct (mark_sil mk); [f_equal |]; exact IH.
Qed.

Lemma mark_all_blank (ms : list sil_match) (j : nat) (marks : list mark) :
  mblank (mark_all j ms marks) = mblank marks.
Proof.
  revert j marks. induction ms as [| m ms IH]; intros j marks; [reflexivity |].
  cbn [mark_all]. rewrite IH. unfold mblank. rewrite List.map_map.
  f_equal. apply List.map_ext. intros mk. apply mark_step_blank.
Qed.

Lemma mark_all_valid (ms : list sil_match) (j : nat) (marks : list mark) :
  Forall valid_mark marks -> Forall valid_mark (mark_all j ms marks).
Proof.
  revert j marks. induction ms as [| m ms IH]; intros j marks Hv; [exact Hv |].
  cbn [mark_all]. apply IH, valid_mark_step, Hv.
Qed.

(** A tag still pending at the end was pending at the start and has the
    text of none of the matches. *)
Lemma mark_all_raw (ms : list sil_match) (j : nat) (marks : list mark)
    (m' : sil_match) :
  In (MRaw m') (mark_all j ms marks) ->
  In (MRaw m') marks /\ forall m, In m ms -> sm_tag m <> sm_tag m'.
Proof.
  revert j marks. induction ms as [| m ms IH]; intros j marks Hin.
  - split; [exact Hin | intros m []].
  - cbn [mark_all] in Hin. apply IH in Hin as [Hin Hne].
    apply in_map_iff in Hin as (mk & Hstep & Hin).
    destruct mk as [c | m0 | i m0]; cbn [mark_step] in Hstep; try discriminate.
    unfold text_eqb in Hstep.
    destruct (bool_decide_reflect (sm_tag m0 = sm_tag m)) as [Heq | Hneq];
      [discriminate |].
    injection Hstep as <-. split; [exact Hin |].
    intros m1 [<- | H1]; [congruence | apply Hne; exact H1].
Qed.

(** A placeholder at the end was there at the start, or stands for a
    pending tag with the text of the match of that turn. *)
Lemma mark_all_ph (ms : list sil_match) (j : nat) (marks : list mark)
    (i : nat) (m' : sil_match) :
  In (MPh i m') (mark_all j ms marks) ->
  In (MPh i m') marks
  \/ (In (MRaw m') marks /\ (j <= i)%nat
      /\ exists m, ms !! (i - j)%nat = Some m /\ sm_tag m = sm_tag m').
Proof.
  revert j marks. induction ms as [| m ms IH]; intros j marks Hin.
  - left. exact Hin.
  - cbn [mark_all] in Hin. apply IH in Hin as [Hin | (Hin & Hle & m1 & Hm1 & Htag)].
    + apply in_map_iff in Hin as (mk & Hstep & Hin).
      destruct mk as [c | m0 | i0 m0]; cbn [mark_step] in Hstep; try discriminate.
      * unfold text_eqb in Hstep.
        destruct (bool_decide_reflect (sm_tag m0 = sm_tag m)) as [Heq | Hneq];
          [| discriminate].
        injection Hstep as <- <-. right. split; [exact Hin |]. split; [lia |].
        exists m. rewrite Nat.sub_diag. split; [reflexivity | congruence].
      * injection Hstep as <- <-. left. exact Hin.
    + apply in_map_iff in Hin as (mk & Hstep & Hin).
      destruct mk as [c | m0 | i0 m0]; cbn [mark_step] in Hstep; try discriminate.
      unfold text_eqb in Hstep.
      destruct (bool_decide_reflect (sm_tag m0 = sm_tag m)); [discriminate |].
      injection Hstep as <-. right. split; [exact Hin |]. split; [lia |].
      exists m1. split; [| exact Htag].
      replace (i - j)%nat with (S (i - S j)) by lia. exact Hm1.
Qed.

Lemma all_seconds_lookup (ms : list sil_match) (ds : list float) (k : nat)
    (m : sil_match) :
  all_seconds ms = Ok ds -> ms !! k = Some m ->
  exists d, ds !! k = Some d /\ sil_seconds m = Ok d.
Proof.
  revert ds k. induction ms as [| m0 ms IH]; intros ds k Hall Hk; [discriminate |].
  cbn [all_seconds] in Hall.
  destruct (sil_seconds m0) as [d0 |] eqn:H0; [| discriminate].
  destruct (all_seconds ms) as [ds' |]; [| discriminate].
  cbn in Hall. injection Hall as <-.
  destruct k as [| k]; cbn in Hk |- *.
  - injection Hk as <-. eauto.
  - apply (IH ds' k eq_refl Hk).
Qed.

Lemma ph_all_keep (ds : list float) (j : nat) (ph : gmap text float) (w : text) :
  (forall i, (j <= i)%nat -> w <> placeholder i) ->
  ph_all j ds ph !! w = ph !! w.
Proof.
  revert j ph. induction ds as [| d ds IH]; intros j ph Hw; [reflexivity |].
  cbn [ph_all]. rewrite IH by (intros i Hi; apply Hw; lia).
  apply lookup_insert_ne. intros Heq. apply (Hw j); [lia | symmetry; exact Heq].
Qed.

Lemma ph_all_lookup (ds : list float) (j : nat) (ph : gmap text float) (i : nat) :
  (j <= i)%nat -> (i - j < length ds)%nat ->
  ph_all j ds ph !! placeholder i = ds !! (i - j)%nat.
Proof.
  revert j ph. induction ds as [| d ds IH]; intros j ph Hle Hlt;
    [cbn [length] in Hlt; lia |].
  cbn [ph_all]. destruct (decide (i = j)) as [-> | Hne].
  - rewrite Nat.sub_diag, ph_all_keep.
    + rewrite lookup_insert_eq. reflexivity.
    + intros i Hi Heq. apply placeholder_inj in Heq. lia.
  - rewrite IH by (cbn [length] in Hlt; lia).
    replace (i - j)%nat with (S (i - S j)) by lia. reflexivity.
Qed.

Lemma ph_all_lookup_other (ds : list float) (j : nat) (ph : gmap text float)
    (w : text) :
  (forall i, w <> placeholder i) -> ph_all j ds ph !! w = ph !! w.
Proof. intros Hw. apply ph_all_keep. intros i _. apply Hw. Qed.

(** ** Sentences and words *)

Lemma split_on_shape (p : N -> bool) (s : text) :
  exists h t, split_on p s = h :: t.
Proof.
  induction s as [| c s (h & t & IH)]; [exists [], []; reflexivity |].
  cbn [split_on]. destruct (p c); [eauto |]. rewrite IH. cbn. eauto.
Qed.

Lemma cons_hd_app (c : N) (l l' : list text) :
  l <> [] -> cons_hd c (l ++ l') = cons_hd c l ++ l'.
Proof. destruct l; [contradiction | reflexivity]. Qed.

(** Splitting at a separator splits the two sides independently. *)
Lemma split_on_app_sep (p : N -> bool) (x y : text) (c : N) :
  p c = true -> split_on p (x ++ c :: y) = split_on p x ++ split_on p y.
Proof.
  intros Hc. induction x as [| a x IH]; cbn [app split_on].
  - rewrite Hc. reflexivity.
  - rewrite IH. destruct (p a); [reflexivity |].
    apply cons_hd_app. destruct (split_on_shape p x) as (h & t & ->). discriminate.
Qed.

Lemma split_on_none (p : N -> bool) (w : text) :
  forallb (fun c => negb (p c)) w = true -> split_on p w = [w].
Proof.
  induction w as [| c w IH]; [reflexivity |]. cbn [forallb split_on].
  intros [Hc Hw]%andb_true_iff. rewrite (IH Hw).
  destruct (p c); [discriminate | reflexivity].
Qed.

Lemma split_on_word (p : N -> bool) (w s : text) (c : N) :
  forallb (fun c => negb (p c)) w = true -> p c = true ->
  split_on p (w ++ c :: s) = w :: split_on p s.
Proof.
  intros Hw Hc. rewrite split_on_app_sep by exact Hc.
  rewrite (split_on_none p w Hw). reflexivity.
Qed.

(** Splitting at periods and then at whitespace is splitting at both. *)
Lemma split_nested (s : text) :
  split_on sep s = concat (List.map (split_on is_space) (split_char 46 s)).
Proof.
  unfold split_char, sep. induction s as [| c s IH]; [reflexivity |].
  cbn [split_on]. destruct (split_on_shape (N.eqb 46) s) as (b & t & Hs).
  rewrite Hs in *. destruct (46 =? c); cbn [orb].
  - cbn [List.map concat split_on app]. rewrite IH. reflexivity.
  - cbn [cons_hd List.map concat split_on]. cbn [List.map concat] in IH.
    rewrite IH. destruct (is_space c); [reflexivity |].
    apply cons_hd_app. destruct (split_on_shape is_space b) as (h & t' & ->).
    discriminate.
Qed.

Lemma filter_concat_map {A B} (f : B -> bool) (g : A -> list B) (l : list A) :
  List.filter f (concat (List.map g l))
  = concat (List.map (fun x => List.filter f (g x)) l).
Proof.
  induction l as [| x l IH]; [reflexivity |].
  cbn [List.map concat]. rewrite List.filter_app, IH. reflexivity.
Qed.

Lemma split_ws_lstrip (x : text) : split_ws (lstrip x) = split_ws x.
Proof.
  induction x as [| c x IH]; [reflexivity |]. cbn [lstrip].
  destruct (is_space c) eqn:Hc; [| reflexivity].
  rewrite IH. unfold split_ws. cbn [split_on]. rewrite Hc. reflexivity.
Qed.

Lemma lstrip_spec (x : text) :
  exists ws, forallb is_space ws = true /\ x = ws ++ lstrip x.
Proof.
  induction x as [| c x (ws & Hws & IH)]; [exists []; split; reflexivity |].
  cbn [lstrip]. destruct (is_space c) eqn:Hc.
  - exists (c :: ws). cbn [forallb]. rewrite Hc, Hws. split; [reflexivity |].
    cbn [app]. rewrite <- IH. reflexivity.
  - exists []. split; reflexivity.
Qed.

Lemma split_ws_spaces (ws : text) : forallb is_space ws = true -> split_ws ws = [].
Proof.
  induction ws as [| c ws IH]; [reflexivity |]. cbn [forallb].
  intros [Hc Hws]%andb_true_iff. unfold split_ws in *. cbn [split_on].
  rewrite Hc. cbn. apply IH. exact Hws.
Qed.

Lemma split_ws_app_spaces (x ws : text) :
  forallb is_space ws = true -> split_ws (x ++ ws) = split_ws x.
Proof.
  destruct ws as [| c ws]; [rewrite app_nil_r; reflexivity |].
  cbn [forallb]. intros [Hc Hws]%andb_true_iff. unfold split_ws.
  rewrite split_on_app_sep by exact Hc. rewrite List.filter_app.
  fold (split_ws ws). rewrite (split_ws_spaces ws Hws), app_nil_r. reflexivity.
Qed.

Lemma split_ws_strip (x : text) : split_ws (strip x) = split_ws x.
Proof.
  unfold strip. destruct (lstrip_spec (rev (lstrip x))) as (ws & Hws & Hx).
  apply (f_equal (@rev N)) in Hx. rewrite rev_involutive, rev_app_distr in Hx.
  rewrite <- (split_ws_lstrip x).
  transitivity (split_ws (rev (lstrip (rev (lstrip x))) ++ rev ws));
    [| rewrite <- Hx; reflexivity].
  symmetry. apply split_ws_app_spaces.
  rewrite forallb_forall in *. intros c Hc. apply Hws, in_rev. exact Hc.
Qed.

Lemma split_ws_blank (x : text) : nonempty (strip x) = false -> split_ws x = [].
Proof.
  intros H. rewrite <- split_ws_strip. destruct (strip x); [reflexivity | discriminate].
Qed.

(** The words of all sentences of a block are its pieces between
    separators. *)
Lemma sentence_words (s : text) :
  concat (List.map split_ws
            (List.map strip
               (List.filter (fun x => nonempty (strip x)) (split_char 46 s))))
  = List.filter nonempty (split_on sep s).
Proof.
  rewrite split_nested, filter_concat_map.
  induction (split_char 46 s) as [| x l IH]; [reflexivity |].
  cbn [List.filter List.map concat]. fold (split_ws x).
  destruct (nonempty (strip x)) eqn:Hx.
  - cbn [List.map concat]. rewrite split_ws_strip, IH. reflexivity.
  - rewrite (split_ws_blank x Hx), IH. reflexivity.
Qed.

(** ** Chunks and the words they speak *)

Lemma join_snoc (sp : text) (X : list text) (y : text) :
  join sp (X ++ [y])
  = match X with [] => y | _ => join sp X ++ sp ++ y end.
Proof.
  induction X as [| x X IH]; [reflexivity |].
  cbn [app join]. destruct X as [| x' X]; [reflexivity |].
  cbn [app] in *. rewrite IH. cbn [join]. rewrite <- !app_assoc. reflexivity.
Qed.

Lemma join_app (sp : text) (X Y : list text) :
  X <> [] -> Y <> [] ->
  join sp (X ++ Y) = join sp X ++ sp ++ join sp Y.
Proof.
  intros HX HY. induction X as [| x X IH]; [contradiction |].
  destruct X as [| x' X].
  - cbn [app join]. destruct Y; [contradiction | reflexivity].
  - specialize (IH ltac:(discriminate)). cbn [app join] in *.
    rewrite IH. rewrite <- !app_assoc. reflexivity.
Qed.

Lemma texts_app (cs cs' : list chunk) : texts (cs ++ cs') = texts cs ++ texts cs'.
Proof. unfold texts. rewrite List.filter_app, List.map_app. reflexivity. Qed.

Lemma silences_app (cs cs' : list chunk) :
  silences (cs ++ cs') = silences cs ++ silences cs'.
Proof. unfold silences. apply omap_app. Qed.

Lemma speaks_app (cs cs' : list chunk) (W W' : list text) :
  speaks cs W -> speaks cs' W' -> speaks (cs ++ cs') (W ++ W').
Proof.
  unfold speaks, spoken_text. fold (texts cs) (texts cs') (texts (cs ++ cs')).
  intros [H1 E1] [H2 E2]. rewrite texts_app. split.
  - destruct (texts cs) as [| t ts] eqn:Ht.
    + rewrite (proj1 E1 eq_refl). exact H2.
    + destruct W as [| w W]; [destruct E1 as [_ E1]; discriminate (E1 eq_refl) |].
      destruct (texts cs') as [| t' ts'] eqn:Ht'.
      * rewrite (proj1 E2 eq_refl), !app_nil_r. exact H1.
      * destruct W' as [| w' W']; [destruct E2 as [_ E2]; discriminate (E2 eq_refl) |].
        rewrite !join_app by discriminate. rewrite H1, H2. reflexivity.
  - split; intros H; apply app_eq_nil in H as [Ha Hb].
    + apply E1 in Ha. apply E2 in Hb. rewrite Ha, Hb. reflexivity.
    + apply E1 in Ha. apply E2 in Hb. rewrite Ha, Hb. reflexivity.
Qed.

Lemma speaks_nil : speaks [] [].
Proof. split; [reflexivity | split; reflexivity]. Qed.

Lemma speaks_flush (alpha : float) (buffer : list text) :
  speaks (flush alpha buffer) buffer.
Proof.
  unfold flush. destruct buffer as [| w buffer]; [apply speaks_nil |].
  split; [reflexivity | split; discriminate].
Qed.

Lemma speaks_silence (alpha : float) (d : float) :
  speaks [Chunk [] alpha true (Some d)] [].
Proof. split; [reflexivity | split; reflexivity]. Qed.

Lemma silences_flush (alpha : float) (buffer : list text) :
  silences (flush alpha buffer) = [].
Proof. unfold flush. destruct (nonempty_list buffer); reflexivity. Qed.

Lemma flush_app (alpha : float) (buffer : list text) (chunks : list chunk) :
  (if nonempty_list buffer
   then chunks ++ [Chunk (join (str " ") buffer) alpha false None]
   else chunks)
  = chunks ++ flush alpha buffer.
Proof.
  unfold flush. destruct (nonempty_list buffer); [reflexivity |].
  rewrite app_nil_r. reflexivity.
Qed.

Lemma omap_cons_eq {A B} (f : A -> option B) (x : A) (l : list A) :
  omap f (x :: l)
  = match f x with Some y => y :: omap f l | None => omap f l end.
Proof. reflexivity. Qed.

(** The word loop: buffered words, then the words that are no placeholder;
    one silence per placeholder. *)
Lemma words_loop_speaks (alpha : float) (ph : gmap text float)
    (words buffer : list text) :
  let '(buffer', cs) := words_loop alpha ph words buffer [] in
  speaks (cs ++ flush alpha buffer') (buffer ++ plain_words ph words)
  /\ silences (cs ++ flush alpha buffer') = omap (ph !!.) words.
Proof.
  revert buffer. induction words as [| w words IH]; intros buffer.
  - cbn [words_loop app plain_words List.filter omap list_omap].
    rewrite app_nil_r. split; [apply speaks_flush | apply silences_flush].
  - cbn [words_loop]. unfold plain_words. cbn [List.filter].
    destruct (ph !! w) as [d |] eqn:Hw.
    + rewrite bool_decide_eq_false_2 by discriminate.
      rewrite words_loop_acc. specialize (IH []).
      destruct (words_loop alpha ph words [] []) as [buffer' cs]. cbn [fst snd].
      destruct IH as [Hs Hd]. rewrite flush_app. cbn [app].
      split.
      * rewrite <- !app_assoc.
        replace (buffer ++ List.filter _ words)
          with (buffer ++ [] ++ [] ++ plain_words ph words) by reflexivity.
        apply speaks_app; [apply speaks_flush |].
        apply speaks_app; [apply speaks_silence | exact Hs].
      * rewrite <- !app_assoc, !silences_app, silences_flush.
        rewrite <- silences_app, Hd, omap_cons_eq, Hw. reflexivity.
    + rewrite bool_decide_eq_true_2 by reflexivity.
      specialize (IH (buffer ++ [w])).
      destruct (words_loop alpha ph words (buffer ++ [w]) []) as [buffer' cs].
      destruct IH as [Hs Hd]. rewrite <- app_assoc in Hs. split; [exact Hs |].
      rewrite Hd, omap_cons_eq, Hw. reflexivity.
Qed.

Lemma plain_words_app (ph : gmap text float) (X Y : list text) :
  plain_words ph (X ++ Y) = plain_words ph X ++ plain_words ph Y.
Proof. apply List.filter_app. Qed.

Lemma sentences_loop_speaks (alpha : float) (ph : gmap text float)
    (sentences : list text) :
  let words := concat (List.map split_ws sentences) in
  speaks (sentences_loop alpha ph sentences []) (plain_words ph words)
  /\ silences (sentences_loop alpha ph sentences []) = omap (ph !!.) words.
Proof.
  induction sentences as [| s sentences [IHs IHd]]; cbn zeta.
  - split; [apply speaks_nil | reflexivity].
  - cbn [sentences_loop List.map concat].
    pose proof (words_loop_speaks alpha ph (split_ws s) []) as Hw.
    destruct (words_loop alpha ph (split_ws s) [] []) as [buffer cs].
    destruct Hw as [Hs Hd]. rewrite flush_app, sentences_loop_acc.
    rewrite plain_words_app, omap_app, silences_app. split.
    + apply speaks_app; [exact Hs | exact IHs].
    + rewrite Hd, IHd. reflexivity.
Qed.

(** ** The words of a block after the silence loop *)

Lemma sep_space : sep 32 = true.
Proof. reflexivity. Qed.

Lemma plain_words_cons (ph : gmap text float) (w : text) (X : list text) :
  plain_words ph (w :: X)
  = if bool_decide (ph !! w = None) then w :: plain_words ph X
    else plain_words ph X.
Proof. reflexivity. Qed.

Lemma filter_nonempty_cons (w : text) (X : list text) :
  List.filter nonempty (w :: X)
  = if nonempty w then w :: List.filter nonempty X else List.filter nonempty X.
Proof. reflexivity. Qed.

(** Adding one more piece in front that is a plain word or empty. *)
Lemma plain_piece (ph : gmap text float) (h : text) (tl tc : list text) :
  (nonempty h = true -> ph !! h = None) ->
  plain_words ph (List.filter nonempty tl) = List.filter nonempty tc ->
  plain_words ph (List.filter nonempty (h :: tl)) = List.filter nonempty (h :: tc).
Proof.
  intros Hh Heq. rewrite !filter_nonempty_cons.
  destruct (nonempty h); [| exact Heq].
  rewrite plain_words_cons, (Hh eq_refl), bool_decide_eq_true_2 by reflexivity.
  rewrite Heq. reflexivity.
Qed.

Lemma seconds_piece (ph : gmap text float) (h : text) (tl : list text) :
  (nonempty h = true -> ph !! h = None) ->
  omap (ph !!.) (List.filter nonempty (h :: tl))
  = omap (ph !!.) (List.filter nonempty tl).
Proof.
  intros Hh. rewrite filter_nonempty_cons. destruct (nonempty h); [| reflexivity].
  rewrite omap_cons_eq, (Hh eq_refl). reflexivity.
Qed.

Lemma filter_nonempty_placeholder (i : nat) (X : list text) :
  List.filter nonempty (placeholder i :: X)
  = placeholder i :: List.filter nonempty X.
Proof. reflexivity. Qed.

Lemma words_of_marks (ph : gmap text float) (fm : list mark) :
  Forall (fun mk => is_raw mk = false) fm ->
  (forall i m, In (MPh i m) fm ->
     exists d, ph !! placeholder i = Some d /\ sil_seconds m = Ok d) ->
  exists h tl tc,
    split_on sep (mflat fm) = h :: tl
    /\ split_on sep (mblank fm) = h :: tc
    /\ ((forall w, In w tc -> nonempty w = true -> ph !! w = None) ->
        plain_words ph (List.filter nonempty tl) = List.filter nonempty tc
        /\ all_seconds (omap mark_sil fm)
           = Ok (omap (ph !!.) (List.filter nonempty tl))).
Proof.
  induction 1 as [| mk fm Hmk _ IH]; intros Hph.
  - exists [], [], []. repeat split.
  - destruct IH as (h & tl & tc & HL & HC & IH);
      [intros i m Hin; apply Hph; right; exact Hin |].
    destruct mk as [c | m | i m]; [| discriminate |].
    + rewrite mflat_cons. unfold mblank. cbn [List.map concat mark_text blank_mark app].
      fold (mblank fm). cbn [split_on]. rewrite HL, HC.
      destruct (sep c).
      * exists [], (h :: tl), (h :: tc). split; [reflexivity |]. split; [reflexivity |].
        intros Hclean.
        destruct IH as [IHw IHd]; [intros w Hw; apply Hclean; right; exact Hw |].
        assert (Hh : nonempty h = true -> ph !! h = None)
          by (apply Hclean; left; reflexivity).
        split; [apply plain_piece; assumption |].
        rewrite (seconds_piece ph h tl Hh). exact IHd.
      * exists (c :: h), tl, tc. split; [reflexivity |]. split; [reflexivity |].
        exact IH.
    + rewrite mflat_cons. unfold mblank. cbn [List.map concat mark_text blank_mark app].
      fold (mblank fm). rewrite ph_text_cons. cbn [split_on app].
      rewrite sep_space, <- app_assoc. cbn [app str List.map list_ascii_of_string].
      change (N_of_ascii " ") with 32.
      rewrite (split_on_word sep (placeholder i) (mflat fm) 32
                 (word_char_not_sep _ (placeholder_word i)) sep_space).
      rewrite HL, HC.
      exists [], (placeholder i :: h :: tl), (h :: tc).
      split; [reflexivity |]. split; [reflexivity |]. intros Hclean.
      destruct IH as [IHw IHd]; [intros w Hw; apply Hclean; right; exact Hw |].
      assert (Hh : nonempty h = true -> ph !! h = None)
        by (apply Hclean; left; reflexivity).
      destruct (Hph i m (or_introl eq_refl)) as (d & Hd & Hsec).
      rewrite filter_nonempty_placeholder. split.
      * rewrite plain_words_cons, bool_decide_eq_false_2.
        -- apply plain_piece; assumption.
        -- intros Hn. assert (Some d = None) as Hsn; [| discriminate Hsn].
           etransitivity; [symmetry; exact Hd | exact Hn].
      * change (omap mark_sil (MPh i m :: fm)) with (m :: omap mark_sil fm).
        rewrite (omap_cons_eq (ph !!.) (placeholder i)). cbn beta.
        rewrite Hd, (seconds_piece ph h tl Hh).
        cbn [all_seconds]. rewrite Hsec, IHd. reflexivity.
Qed.

Lemma blank_block_split (its : list item) :
  split_on is_space
    (concat (List.map (fun it => blank_token (token_of_item it)) its))
  = split_on sep (mblank (List.map mark_of_item its)).
Proof.
  induction its as [| it its IH]; [reflexivity |].
  unfold mblank in *. cbn [List.map concat].
  destruct it as [c | m]; cbn [token_of_item blank_token mark_of_item blank_mark app split_on].
  - unfold sep. rewrite IH. destruct (N.eqb_spec c 46) as [-> | Hne].
    + reflexivity.
    + destruct (N.eqb_spec 46 c) as [<- | _]; [contradiction | reflexivity].
  - rewrite IH. reflexivity.
Qed.

Lemma blank_block_words (block : text) :
  split_ws (blank_block block)
  = List.filter nonempty
      (split_on sep (mblank (List.map mark_of_item (sil_items block)))).
Proof. unfold split_ws, blank_block. rewrite blank_block_split. reflexivity. Qed.

Lemma finditer_marks (block : text) :
  re_finditer_sil block
  = omap mark_sil (List.map mark_of_item (sil_items block)).
Proof.
  rewrite re_finditer_sil_items.
  induction (sil_items block) as [| [c | m] its IH]; [reflexivity | exact IH |].
  cbn. f_equal. exact IH.
Qed.

Lemma finditer_valid (block : text) : Forall valid_sil (re_finditer_sil block).
Proof.
  rewrite finditer_marks. pose proof (sil_items_valid block) as Hv.
  induction Hv as [| mk marks Hmk _ IH]; [constructor |].
  destruct mk as [c | m | i m]; [exact IH | |]; constructor; assumption.
Qed.

Lemma raw_in_marks (marks : list mark) (m : sil_match) :
  In (MRaw m) marks -> In m (omap mark_sil marks).
Proof.
  induction marks as [| mk marks IH]; [intros [] |].
  intros [-> | Hin].
  - left. reflexivity.
  - rewrite omap_cons_eq. destruct (mark_sil mk); [right |]; apply IH; exact Hin.
Qed.

Lemma In_valid_mark (marks : list mark) (mk : mark) :
  Forall valid_mark marks -> In mk marks -> valid_mark mk.
Proof. intros Hv Hin. rewrite Forall_forall in Hv. apply Hv, list_elem_of_In, Hin. Qed.

(** What the silence loop leaves: no pending tag, and every placeholder is
    a key of the dictionary whose value is the seconds of its tag. *)
Lemma final_marks (block : text) (ds : list float) :
  let ms := re_finditer_sil block in
  let marks := List.map mark_of_item (sil_items block) in
  all_seconds ms = Ok ds ->
  Forall (fun mk => is_raw mk = false) (mark_all 0 ms marks)
  /\ forall i m, In (MPh i m) (mark_all 0 ms marks) ->
       exists d, ph_all 0 ds ∅ !! placeholder i = Some d /\ sil_seconds m = Ok d.
Proof.
  intros ms marks Hds. pose proof (sil_items_valid block) as Hv. fold marks in Hv.
  assert (Hms : ms = omap mark_sil marks) by apply finditer_marks.
  split.
  - apply Forall_forall. intros mk Hin. apply list_elem_of_In in Hin.
    destruct mk as [c | m | i m]; try reflexivity. exfalso.
    apply mark_all_raw in Hin as [Hin Hne].
    apply (Hne m); [| reflexivity]. rewrite Hms. apply raw_in_marks. exact Hin.
  - intros i m Hin.
    apply mark_all_ph in Hin as [Hin | (Hin & _ & m1 & Hm1 & Htag)].
    + exfalso. unfold marks in Hin. apply in_map_iff in Hin as ([c | m0] & H & _);
        discriminate.
    + rewrite Nat.sub_0_r in Hm1.
      assert (m1 = m) as ->.
      { apply valid_sil_tag_inj; [| | exact Htag].
        - pose proof (finditer_valid block) as Hfv. rewrite Forall_forall in Hfv.
          apply Hfv. apply list_elem_of_lookup. exists i. exact Hm1.
        - apply (In_valid_mark marks (MRaw m) Hv Hin). }
      destruct (all_seconds_lookup ms ds i m Hds Hm1) as (d & Hd & Hsec).
      exists d. split; [| exact Hsec].
      rewrite ph_all_lookup; [rewrite Nat.sub_0_r; exact Hd | lia |].
      rewrite Nat.sub_0_r. apply lookup_lt_Some in Hd. exact Hd.
Qed.

(** [process_block] on any block: it fails exactly when the seconds of some
    silence tag cannot be computed; otherwise, for a block none of whose
    words is a placeholder, the chunks speak its words and carry the seconds
    of its silence tags, in order. *)
Lemma process_block_spec (alpha : float) (block : text) :
  match all_seconds (re_finditer_sil block) with
  | Raise x => process_block alpha block [] = Raise x
  | Ok ds =>
    exists cs,
      process_block alpha block [] = Ok cs
      /\ ((forall w, In w (split_ws (blank_block block)) ->
                     forall j, w <> placeholder j) ->
          speaks cs (split_ws (blank_block block)) /\ silences cs = ds)
  end.
Proof.
  unfold process_block.
  set (ms := re_finditer_sil block).
  set (marks := List.map mark_of_item (sil_items block)).
  assert (Hloop : sil_loop 0 ms ∅ block
                  = (ds ← all_seconds ms;
                     Ok (ph_all 0 ds ∅, mflat (mark_all 0 ms marks)))).
  { rewrite <- (mflat_items block) at 1. apply sil_loop_marks.
    - apply finditer_valid.
    - apply sil_items_valid.
    - apply sil_items_lexed. }
  rewrite Hloop. destruct (all_seconds ms) as [ds | x] eqn:Hds; [| reflexivity].
  cbn [mbind result_bind]. eexists. split; [reflexivity |].
  intros Hclean.
  destruct (final_marks block ds Hds) as [Hraw Hph]. fold ms marks in Hraw, Hph.
  destruct (words_of_marks (ph_all 0 ds ∅) (mark_all 0 ms marks) Hraw Hph)
    as (h & tl & tc & HL & HC & Hwords).
  rewrite mark_all_blank in HC.
  assert (Hcw : split_ws (blank_block block) = List.filter nonempty (h :: tc)).
  { rewrite blank_block_words. fold marks. rewrite HC. reflexivity. }
  assert (Hnone : forall w, In w (h :: tc) -> nonempty w = true ->
                            ph_all 0 ds ∅ !! w = None).
  { intros w Hin Hne. rewrite ph_all_lookup_other; [apply lookup_empty |].
    apply Hclean. rewrite Hcw. apply filter_In. split; assumption. }
  destruct Hwords as [Hw Hd]; [intros w Hin; apply Hnone; right; exact Hin |].
  pose proof (sentences_loop_speaks alpha (ph_all 0 ds ∅)
                (List.map strip
                   (List.filter (fun s => nonempty (strip s))
                      (split_char 46 (mflat (mark_all 0 ms marks)))))) as Hs.
  cbn zeta in Hs. rewrite sentence_words, HL in Hs. destruct Hs as [Hsp Hsd].
  assert (Hh : nonempty h = true -> ph_all 0 ds ∅ !! h = None)
    by (apply Hnone; left; reflexivity).
  rewrite (plain_piece _ h tl tc Hh Hw) in Hsp.
  rewrite (seconds_piece _ h tl Hh) in Hsd.
  rewrite Hcw. split; [exact Hsp |].
  rewrite Hsd. rewrite mark_all_sil in Hd. fold marks in Hd.
  unfold ms in Hds. rewrite finditer_marks in Hds. fold marks in Hds.
  rewrite Hds in Hd. injection Hd as <-. reflexivity.
Qed.

(** ** From blocks to the whole text *)

Lemma all_seconds_app (X Y : list sil_match) :
  all_seconds (X ++ Y)
  = (dx ← all_seconds X; dy ← all_seconds Y; Ok (dx ++ dy)).
Proof.
  induction X as [| m X IH]; cbn [app all_seconds].
  - destruct (all_seconds Y); reflexivity.
  - destruct (sil_seconds m) as [d |]; [| reflexivity]. cbn [mbind result_bind].
    rewrite IH. destruct (all_seconds X) as [dx |]; [| reflexivity].
    cbn [mbind result_bind]. destruct (all_seconds Y); reflexivity.
Qed.

Lemma block_token_sil (block : text) :
  omap token_sil (List.map token_of_item (sil_items block)) = re_finditer_sil block.
Proof.
  rewrite re_finditer_sil_items.
  induction (sil_items block) as [| [c | m] its IH]; [reflexivity | exact IH |].
  cbn. f_equal. exact IH.
Qed.

Lemma block_blank (block : text) :
  concat (List.map blank_token (List.map token_of_item (sil_items block)))
  = blank_block block.
Proof. unfold blank_block. rewrite List.map_map. reflexivity. Qed.

Lemma split_ws_app_sep (x y : text) :
  split_ws (x ++ 32 :: y) = split_ws x ++ split_ws y.
Proof.
  unfold split_ws. rewrite split_on_app_sep by reflexivity.
  apply List.filter_app.
Qed.

Lemma split_ws_space (y : text) : split_ws (32 :: y) = split_ws y.
Proof. reflexivity. Qed.

(** The blanked text of the tagged pieces is empty or starts with the space
    that stands for a speed tag. *)
Lemma blank_tagged_head (pieces : list text) :
  let y := concat (List.map blank_token (tokens_tagged pieces)) in
  y = [] \/ exists y', y = 32 :: y'.
Proof.
  destruct pieces as [| num [| block rest]]; [left; reflexivity | right.. ];
    eexists; reflexivity.
Qed.

Lemma split_ws_block_tagged (x : text) (pieces : list text) :
  split_ws (x ++ concat (List.map blank_token (tokens_tagged pieces)))
  = split_ws x ++ split_ws (concat (List.map blank_token (tokens_tagged pieces))).
Proof.
  destruct (blank_tagged_head pieces) as [-> | [y' ->]].
  - rewrite !app_nil_r. reflexivity.
  - rewrite split_ws_app_sep, split_ws_space. reflexivity.
Qed.

(** The tagged pieces: the chunks speak the words of the blocks and carry
    the seconds of their silence tags. *)
Lemma speed_scoped_spec (pieces : list text) (cs : list chunk) :
  speed_scoped pieces = Ok cs ->
  let toks := tokens_tagged pieces in
  (forall w, In w (split_ws (concat (List.map blank_token toks))) ->
             forall j, w <> placeholder j) ->
  speaks cs (split_ws (concat (List.map blank_token toks)))
  /\ all_seconds (omap token_sil toks) = Ok (silences cs).
Proof.
  revert cs.
  induction pieces as [| num | num block rest IH] using list_pair_ind;
    intros cs Hcs; cbn zeta; cbn [speed_scoped tokens_tagged] in *.
  - injection Hcs as <-. intros _. split; [apply speaks_nil | reflexivity].
  - destruct (py_float num) as [a |]; [| discriminate].
    cbn [mbind result_bind] in Hcs. cbv in Hcs. injection Hcs as <-.
    intros _. split; [apply speaks_nil | reflexivity].
  - destruct (py_float num) as [a |]; [| discriminate].
    cbn [mbind result_bind] in Hcs.
    pose proof (process_block_spec a block) as Hb.
    destruct (process_block a block []) as [cs1 |] eqn:Hp;
      [| discriminate].
    cbn [mbind result_bind] in Hcs.
    destruct (speed_scoped rest) as [more |]; [| discriminate].
    cbn [mbind result_bind] in Hcs. injection Hcs as <-.
    destruct (all_seconds (re_finditer_sil block)) as [ds |] eqn:Hds;
      [| discriminate].
    destruct Hb as (cs1' & [= <-] & Hb).
    cbn [List.map concat blank_token app].
    rewrite List.map_app, concat_app, block_blank.
    rewrite split_ws_space, split_ws_block_tagged.
    intros Hclean.
    destruct Hb as [Hs1 Hd1]; [intros w Hw; apply Hclean, in_or_app; left; exact Hw |].
    destruct (IH more eq_refl) as [Hs2 Hd2];
      [intros w Hw; apply Hclean, in_or_app; right; exact Hw |].
    split; [apply speaks_app; assumption |].
    change (omap token_sil (TAlpha num :: ?l)) with (omap token_sil l).
    rewrite omap_app, block_token_sil, all_seconds_app, Hds, Hd2, silences_app, Hd1.
    reflexivity.
Qed.

(** The whole text. *)
Lemma extract_spec (text0 : text) (default_alpha : float) (chunks : list chunk) :
  extract_text_alpha_chunks text0 default_alpha = Ok chunks ->
  placeholder_free text0 ->
  speaks chunks (split_ws (blank_tags text0))
  /\ all_seconds (sil_tags text0) = Ok (silences chunks).
Proof.
  unfold placeholder_free, sil_tags, blank_tags.
  rewrite extract_by_scope, lex_by_pieces.
  destruct (re_split_alpha_shape text0) as (block & tagged & ->).
  cbn [segment_by_scope tokens_of_pieces]. intros Hcs.
  pose proof (process_block_spec default_alpha block) as Hb.
  destruct (process_block default_alpha block []) as [cs1 |]; [| discriminate].
  cbn [mbind result_bind] in Hcs.
  destruct (speed_scoped tagged) as [more |] eqn:Hmore; [| discriminate].
  cbn [mbind result_bind] in Hcs. injection Hcs as <-.
  destruct (all_seconds (re_finditer_sil block)) as [ds |] eqn:Hds;
    [| discriminate].
  destruct Hb as (cs1' & [= <-] & Hb).
  rewrite List.map_app, concat_app, block_blank, split_ws_block_tagged.
  intros Hclean.
  destruct Hb as [Hs1 Hd1]; [intros w Hw; apply Hclean, in_or_app; left; exact Hw |].
  destruct (speed_scoped_spec tagged more Hmore) as [Hs2 Hd2];
    [intros w Hw; apply Hclean, in_or_app; right; exact Hw |].
  split; [apply speaks_app; assumption |].
  rewrite omap_app, block_token_sil, all_seconds_app, Hds.
  cbn zeta in Hd2. rewrite Hd2, silences_app, Hd1. reflexivity.
Qed.

(** ** Every silence comes from a tag *)

Lemma sil_loop_block (block : text) :
  sil_loop 0 (re_finditer_sil block) ∅ block
  = (ds ← all_seconds (re_finditer_sil block);
     Ok (ph_all 0 ds ∅,
         mflat (mark_all 0 (re_finditer_sil block)
                  (List.map mark_of_item (sil_items block))))).
Proof.
  rewrite <- (mflat_items block) at 2. apply sil_loop_marks.
  - apply finditer_valid.
  - apply sil_items_valid.
  - apply sil_items_lexed.
Qed.

Lemma ph_all_values (ds : list float) (j : nat) (ph : gmap text float)
    (w : text) (d : float) :
  ph_all j ds ph !! w = Some d -> In d ds \/ ph !! w = Some d.
Proof.
  revert j ph. induction ds as [| d0 ds IH]; intros j ph H; [right; exact H |].
  cbn [ph_all] in H. apply IH in H as [H | H]; [left; right; exact H |].
  destruct (decide (placeholder j = w)) as [<- | Hne].
  - rewrite lookup_insert_eq in H. injection H as <-. left. left. reflexivity.
  - rewrite lookup_insert_ne in H by exact Hne. right. exact H.
Qed.

Lemma all_seconds_In (ms : list sil_match) (ds : list float) (d : float) :
  all_seconds ms = Ok ds -> In d ds ->
  exists m, In m ms /\ sil_seconds m = Ok d.
Proof.
  revert ds. induction ms as [| m ms IH]; intros ds Hall Hin.
  - injection Hall as <-. destruct Hin.
  - cbn [all_seconds] in Hall.
    destruct (sil_seconds m) as [d0 |] eqn:H0; [| discriminate].
    destruct (all_seconds ms) as [ds' |]; [| discriminate].
    cbn in Hall. injection Hall as <-. destruct Hin as [<- | Hin].
    + exists m. split; [left; reflexivity | exact H0].
    + destruct (IH ds' eq_refl Hin) as (m' & Hm' & Hs).
      exists m'. split; [right; exact Hm' | exact Hs].
Qed.

Lemma In_omap_lookup (ph : gmap text float) (words : list text) (d : float) :
  In d (omap (ph !!.) words) -> exists w, ph !! w = Some d.
Proof.
  induction words as [| w words IH]; [intros [] |].
  rewrite omap_cons_eq. destruct (ph !! w) as [d' |] eqn:Hw; [| exact IH].
  intros [<- | Hin]; [eauto | apply IH; exact Hin].
Qed.

Lemma process_block_silences (alpha : float) (block : text) (cs : list chunk)
    (d : float) :
  process_block alpha block [] = Ok cs -> In d (silences cs) ->
  exists m, In m (re_finditer_sil block) /\ sil_seconds m = Ok d.
Proof.
  unfold process_block. rewrite sil_loop_block.
  destruct (all_seconds (re_finditer_sil block)) as [ds |] eqn:Hds; [| discriminate].
  cbn [mbind result_bind]. intros [= <-] Hin.
  match type of Hin with
  | In d (silences (sentences_loop ?a ?ph ?ss [])) =>
    destruct (sentences_loop_speaks a ph ss) as [_ Hsd]
  end.
  rewrite Hsd in Hin. apply In_omap_lookup in Hin as [w Hw].
  apply ph_all_values in Hw as [Hw | Hw]; [| rewrite lookup_empty in Hw; discriminate].
  apply (all_seconds_In _ _ _ Hds Hw).
Qed.

Lemma speed_scoped_silences (pieces : list text) (cs : list chunk) (d : float) :
  speed_scoped pieces = Ok cs -> In d (silences cs) ->
  exists m, In m (omap token_sil (tokens_tagged pieces)) /\ sil_seconds m = Ok d.
Proof.
  revert cs.
  induction pieces as [| num | num block rest IH] using list_pair_ind;
    intros cs Hcs Hin; cbn [speed_scoped tokens_tagged] in *.
  - injection Hcs as <-. destruct Hin.
  - destruct (py_float num) as [a |]; [| discriminate].
    cbn [mbind result_bind] in Hcs. cbv in Hcs. injection Hcs as <-. destruct Hin.
  - destruct (py_float num) as [a |]; [| discriminate].
    cbn [mbind result_bind] in Hcs.
    destruct (process_block a block []) as [cs1 |] eqn:Hp; [| discriminate].
    cbn [mbind result_bind] in Hcs.
    destruct (speed_scoped rest) as [more |]; [| discriminate].
    cbn [mbind result_bind] in Hcs. injection Hcs as <-.
    change (omap token_sil (TAlpha num :: ?l)) with (omap token_sil l).
    rewrite omap_app, block_token_sil.
    rewrite silences_app in Hin. apply in_app_or in Hin as [Hin | Hin].
    + destruct (process_block_silences a block cs1 d Hp Hin) as (m & Hm & Hs).
      exists m. split; [apply in_or_app; left; exact Hm | exact Hs].
    + destruct (IH more eq_refl Hin) as (m & Hm & Hs).
      exists m. split; [apply in_or_app; right; exact Hm | exact Hs].
Qed.

Lemma extract_silences (text0 : text) (default_alpha : float)
    (chunks : list chunk) (d : float) :
  extract_text_alpha_chunks text0 default_alpha = Ok chunks ->
  In d (silences chunks) ->
  exists m, In m (sil_tags text0) /\ sil_seconds m = Ok d.
Proof.
  unfold sil_tags. rewrite extract_by_scope, lex_by_pieces.
  destruct (re_split_alpha_shape text0) as (block & tagged & ->).
  cbn [segment_by_scope tokens_of_pieces]. intros Hcs Hin.
  destruct (process_block default_alpha block []) as [cs1 |] eqn:Hp; [| discriminate].
  cbn [mbind result_bind] in Hcs.
  destruct (speed_scoped tagged) as [more |] eqn:Hmore; [| discriminate].
  cbn [mbind result_bind] in Hcs. injection Hcs as <-.
  rewrite omap_app, block_token_sil.
  rewrite silences_app in Hin. apply in_app_or in Hin as [Hin | Hin].
  - destruct (process_block_silences _ block cs1 d Hp Hin) as (m & Hm & Hs).
    exists m. split; [apply in_or_app; left; exact Hm | exact Hs].
  - destruct (speed_scoped_silences tagged more d Hmore Hin) as (m & Hm & Hs).
    exists m. split; [apply in_or_app; right; exact Hm | exact Hs].
Qed.

(** ** Speed scopes, malformed numbers, silences and the spoken words *)

(** C6. The pieces of [re.split] put together again are the text, and seen
    as tokens they are what one pass over the text sees, each group being a
    speed tag.  The first piece is segmented at the default speed; every
    later block at the speed written in the tag just before it, whatever
    tags came earlier; and every chunk of a block carries the speed of the
    block.  [<alpha=1.5>One. Two.] gives two chunks, both at 1.5. *)
Theorem speed_tag_scopes (text0 : text) (default_alpha : float) :
  let pieces := re_split_alpha text0 in
  unsplit pieces = text0
  /\ lex text0 = tokens_of_pieces pieces
  /\ extract_text_alpha_chunks text0 default_alpha
     = segment_by_scope default_alpha pieces
  /\ (forall alpha block cs,
        process_block alpha block [] = Ok cs ->
        Forall (fun c => chunk_alpha c = alpha) cs)
  /\ (forall f1_5, py_float (str "1.5") = Ok f1_5 ->
        extract_text_alpha_chunks (str "<alpha=1.5>One. Two.") default_alpha
        = Ok [Chunk (str "One") f1_5 false None;
              Chunk (str "Two") f1_5 false None]).
Proof.
  cbn zeta. split; [apply unsplit_re_split_alpha |].
  split; [apply lex_by_pieces |].
  split; [apply extract_by_scope |].
  split; [apply process_block_alpha |].
  intros f1_5 H. vm_compute in H. injection H as <-.
  rewrite extract_by_scope. vm_compute. reflexivity.
Qed.

(** C4, as the code has it.  A tag is what the two patterns match, so its
    number is a run of digits and periods.  A text with a tag whose number
    [float] rejects (in [tag_values], the numbers of the speed and silence
    tags that one pass over the text sees) makes the whole call raise
    [ValueError]: no chunk is returned and no default stands in for the
    number. *)
Theorem malformed_tag_value_raises (text0 : text) (default_alpha : float)
    (v : text) :
  In v (tag_values text0) ->
  py_float v = Raise ValueError ->
  extract_text_alpha_chunks text0 default_alpha = Raise ValueError.
Proof. apply malformed_tag_value_fails. Qed.

Lemma malformed_tag_value_raises_witness :
  (In (str "1.2.3") (tag_values (str "Hi <alpha=1.2.3>there <sil=2s> you"))
   /\ py_float (str "1.2.3") = Raise ValueError)
  /\ extract_text_alpha_chunks (str "Hi <alpha=1.2.3>there <sil=2s> you") f1_0
     = Raise ValueError.
Proof.
  assert (Hin : In (str "1.2.3")
                  (tag_values (str "Hi <alpha=1.2.3>there <sil=2s> you")))
    by (vm_compute; left; reflexivity).
  assert (Hbad : py_float (str "1.2.3") = Raise ValueError)
    by (vm_compute; reflexivity).
  split; [split; assumption |].
  exact (malformed_tag_value_raises _ f1_0 _ Hin Hbad).
Defined.

(** C4, refuted as stated.  A tag whose value is no run of digits and
    periods ([abc], [-2], nothing, [1e3]) is not matched by the patterns:
    the call does not fail, the tag is spoken as text and the speed is the
    default one. *)
Lemma malformed_tag_is_spoken_at_default_speed :
  extract_text_alpha_chunks (str "<alpha=abc>Hi") f1_0
  = Ok [Chunk (str "<alpha=abc>Hi") f1_0 false None]
  /\ extract_text_alpha_chunks (str "<alpha=-2>Hi") f1_0
     = Ok [Chunk (str "<alpha=-2>Hi") f1_0 false None]
  /\ extract_text_alpha_chunks (str "<alpha=>Hi") f1_0
     = Ok [Chunk (str "<alpha=>Hi") f1_0 false None]
  /\ extract_text_alpha_chunks (str "<sil=1e3ms>Hi") f1_0
     = Ok [Chunk (str "<sil=1e3ms>Hi") f1_0 false None]
  /\ tag_values (str "<alpha=abc>Hi") = [].
Proof. vm_compute. repeat split. Qed.

Lemma sil_tags_valid (text0 : text) : Forall valid_sil (sil_tags text0).
Proof.
  unfold sil_tags.
  induction text0 as [| num rest Hnum IH | m rest Hm IH | c s Ha Hs IH]
    using text_tag_ind.
  - constructor.
  - rewrite lex_alpha by exact Hnum. exact IH.
  - rewrite lex_sil by exact Hm. constructor; [exact Hm | exact IH].
  - rewrite lex_char by assumption. exact IH.
Qed.

(** The seconds of a tag: its number divided by 1000 for [ms], its number
    for [s]. *)
Lemma sil_seconds_unit (m : sil_match) (v : float) :
  valid_sil m -> py_float (sm_value m) = Ok v ->
  (sm_unit m = str "ms" /\ sil_seconds m = Ok (fdiv v f1000))
  \/ (sm_unit m = str "s" /\ sil_seconds m = Ok v).
Proof.
  intros (num & unit & _ & Hunit & ->) Hv. unfold sil_seconds.
  cbn [sm_value sm_unit mk_sil_match] in *. rewrite Hv.
  destruct Hunit as [-> | ->]; [left | right]; split; reflexivity.
Qed.

(** C5. Every silence chunk carries the seconds of a silence tag of the
    text, and the seconds of a tag are its number divided by 1000 when the
    unit is [ms] and its number when the unit is [s].  When no word of the
    text is itself a placeholder token, the silence chunks are, in order,
    exactly the silence tags of the text.  [<sil=500ms>] gives 0.5 and
    [<sil=2s>] gives 2.0. *)
Theorem silence_seconds (text0 : text) (default_alpha : float)
    (chunks : list chunk) :
  extract_text_alpha_chunks text0 default_alpha = Ok chunks ->
  (forall d, In d (silences chunks) ->
     exists m, In m (sil_tags text0) /\ sil_seconds m = Ok d)
  /\ (forall m v, In m (sil_tags text0) -> py_float (sm_value m) = Ok v ->
        (sm_unit m = str "ms" /\ sil_seconds m = Ok (fdiv v f1000))
        \/ (sm_unit m = str "s" /\ sil_seconds m = Ok v))
  /\ (placeholder_free text0 ->
      all_seconds (sil_tags text0) = Ok (silences chunks))
  /\ extract_text_alpha_chunks (str "<sil=500ms>") default_alpha
     = Ok [Chunk [] default_alpha true (Some f0_5)]
  /\ extract_text_alpha_chunks (str "<sil=2s>") default_alpha
     = Ok [Chunk [] default_alpha true (Some (float_of_decimal (str "2") []))].
Proof.
  intros Hcs. split; [intros d; apply (extract_silences _ _ _ d Hcs) |].
  split.
  { intros m v Hin Hv. apply sil_seconds_unit; [| exact Hv].
    pose proof (sil_tags_valid text0) as Hval. rewrite Forall_forall in Hval.
    apply Hval, list_elem_of_In, Hin. }
  split; [intros Hfree; apply (extract_spec _ _ _ Hcs Hfree) |].
  split; rewrite extract_by_scope; vm_compute; reflexivity.
Qed.

Lemma placeholder_head (j : nat) : exists rest, placeholder j = 95 :: rest.
Proof. eexists. reflexivity. Qed.

Lemma silence_seconds_witness :
  let t := str "Wait <sil=500ms> then <sil=2s>go." in
  let chunks := [Chunk (str "Wait") f1_0 false None;
                 Chunk [] f1_0 true (Some f0_5);
                 Chunk (str "then") f1_0 false None;
                 Chunk [] f1_0 true (Some (float_of_decimal (str "2") []));
                 Chunk (str "go") f1_0 false None] in
  (extract_text_alpha_chunks t f1_0 = Ok chunks /\ placeholder_free t)
  /\ all_seconds (sil_tags t) = Ok (silences chunks).
Proof.
  intros t chunks.
  assert (Hcs : extract_text_alpha_chunks t f1_0 = Ok chunks)
    by (vm_compute; reflexivity).
  assert (Hfree : placeholder_free t).
  { intros w Hw j Heq. destruct (placeholder_head j) as [rest Hp].
    rewrite Hp in Heq. vm_compute in Hw.
    destruct Hw as [<- | [<- | [<- | []]]]; discriminate. }
  split; [split; assumption |].
  exact (proj1 (proj2 (proj2 (silence_seconds t f1_0 chunks Hcs))) Hfree).
Defined.

(** C3, as the code has it.  When no word of the text is itself a
    placeholder token, the texts of the non-silence chunks joined by single
    spaces are the words of the text joined by single spaces, where every
    speed tag, every silence tag and every period separates words and is
    itself dropped. *)
Theorem spoken_text_round_trip (text0 : text) (default_alpha : float)
    (chunks : list chunk) :
  extract_text_alpha_chunks text0 default_alpha = Ok chunks ->
  placeholder_free text0 ->
  spoken_text chunks = collapse_ws (blank_tags text0).
Proof.
  intros Hcs Hfree. destruct (extract_spec _ _ _ Hcs Hfree) as [[Hs _] _].
  exact Hs.
Qed.

Lemma spoken_text_round_trip_witness :
  let t := str "Hello.  <sil=500ms> World<alpha=1.5>again." in
  let f1_5 := float_of_decimal (str "1") (str "5") in
  let chunks := [Chunk (str "Hello") f1_0 false None;
                 Chunk [] f1_0 true (Some f0_5);
                 Chunk (str "World") f1_0 false None;
                 Chunk (str "again") f1_5 false None] in
  (extract_text_alpha_chunks t f1_0 = Ok chunks /\ placeholder_free t)
  /\ spoken_text chunks = collapse_ws (blank_tags t).
Proof.
  intros t f1_5 chunks.
  assert (Hcs : extract_text_alpha_chunks t f1_0 = Ok chunks)
    by (vm_compute; reflexivity).
  assert (Hfree : placeholder_free t).
  { intros w Hw j Heq. destruct (placeholder_head j) as [rest Hp].
    rewrite Hp in Heq. vm_compute in Hw.
    destruct Hw as [<- | [<- | [<- | []]]]; discriminate. }
  split; [split; assumption |].
  exact (spoken_text_round_trip t f1_0 chunks Hcs Hfree).
Defined.

(** C3, refuted as stated.  The periods of [Hello. World.] are not tags, so
    the text with its tags removed and whitespace collapsed is the text
    itself; the chunks say [Hello World]. *)
Lemma round_trip_drops_periods :
  let t := str "Hello. World." in
  match extract_text_alpha_chunks t f1_0 with
  | Ok chunks =>
    spoken_text chunks = str "Hello World"
    /\ collapse_ws (remove_tags t) = str "Hello. World."
    /\ spoken_text chunks <> collapse_ws (remove_tags t)
  | Raise _ => False
  end.
Proof. vm_compute. repeat split. discriminate. Qed.

(** * The rest of the service *)

(** ** Stripping *)

Lemma lstrip_head (x r : text) (c : N) : lstrip x = c :: r -> is_space c = false.
Proof.
  induction x as [| a x IH]; [discriminate |]. cbn [lstrip].
  destruct (is_space a) eqn:Ha; [exact IH |]. intros [= <- _]. exact Ha.
Qed.

Lemma lstrip_fix (c : N) (x : text) : is_space c = false -> lstrip (c :: x) = c :: x.
Proof. intros H. cbn [lstrip]. rewrite H. reflexivity. Qed.

Lemma lstrip_idem (x : text) : lstrip (lstrip x) = lstrip x.
Proof.
  destruct (lstrip x) as [| c r] eqn:H; [reflexivity |].
  apply lstrip_fix, (lstrip_head _ _ _ H).
Qed.

Lemma lstrip_app_fix (x y : text) : x <> [] -> lstrip x = x -> lstrip (x ++ y) = x ++ y.
Proof.
  destruct x as [| c x]; [contradiction |]. intros _ H.
  cbn [app]. apply lstrip_fix, (lstrip_head _ _ _ H).
Qed.

(** What [strip] returns has no whitespace at either end. *)
Lemma strip_trimmed (x : text) :
  lstrip (strip x) = strip x /\ lstrip (rev (strip x)) = rev (strip x).
Proof.
  unfold strip. set (y := lstrip x). set (z := lstrip (rev y)).
  split; [| rewrite rev_involutive; apply lstrip_idem].
  destruct (lstrip_spec (rev y)) as (ws & Hws & Hy). fold z in Hy.
  destruct z as [| c z'] eqn:Hz; [reflexivity |].
  assert (Hrev : y = rev (c :: z') ++ rev ws).
  { rewrite <- rev_app_distr, <- Hy, rev_involutive. reflexivity. }
  destruct (rev (c :: z')) as [| a t] eqn:Ht.
  { apply (f_equal (@length N)) in Ht. rewrite length_rev in Ht. discriminate. }
  apply lstrip_fix. cbn [app] in Hrev.
  apply (lstrip_head x (t ++ rev ws)). exact Hrev.
Qed.

Lemma strip_fix (x : text) :
  lstrip x = x -> lstrip (rev x) = rev x -> strip x = x.
Proof. intros H1 H2. unfold strip. rewrite H1, H2. apply rev_involutive. Qed.

Lemma strip_idem (x : text) : strip (strip x) = strip x.
Proof. destruct (strip_trimmed x). apply strip_fix; assumption. Qed.

(** A text is its stripped part between two runs of whitespace. *)
Lemma strip_spec (x : text) :
  exists ws1 ws2,
    forallb is_space ws1 = true /\ forallb is_space ws2 = true
    /\ x = ws1 ++ strip x ++ ws2.
Proof.
  destruct (lstrip_spec x) as (ws1 & H1 & Hx).
  destruct (lstrip_spec (rev (lstrip x))) as (ws2 & H2 & Hy).
  exists ws1, (rev ws2). split; [exact H1 |]. split.
  - rewrite forallb_forall in *. intros c Hc. apply H2, in_rev, Hc.
  - unfold strip. rewrite <- rev_app_distr, <- Hy, rev_involutive. exact Hx.
Qed.

Lemma strip_In (x : text) (c : N) : In c (strip x) -> In c x.
Proof.
  destruct (strip_spec x) as (ws1 & ws2 & _ & _ & Hx). intros H.
  rewrite Hx. apply in_or_app. right. apply in_or_app. left. exact H.
Qed.

Lemma filter_spaces (p : N -> bool) (ws : text) :
  (forall c, p c = true -> is_space c = false) ->
  forallb is_space ws = true -> List.filter p ws = [].
Proof.
  intros Hp. induction ws as [| c ws IH]; [reflexivity |].
  cbn [forallb List.filter]. intros [Hc Hws]%andb_prop.
  destruct (p c) eqn:Hpc; [rewrite (Hp c Hpc) in Hc; discriminate |].
  apply IH, Hws.
Qed.

(** Stripping removes no character that is not whitespace. *)
Lemma filter_strip (p : N -> bool) (x : text) :
  (forall c, p c = true -> is_space c = false) ->
  List.filter p (strip x) = List.filter p x.
Proof.
  intros Hp. destruct (strip_spec x) as (ws1 & ws2 & H1 & H2 & Hx).
  rewrite Hx at 2. rewrite !List.filter_app.
  rewrite (filter_spaces p ws1 Hp H1), (filter_spaces p ws2 Hp H2).
  rewrite app_nil_r. reflexivity.
Qed.

(** ** Pieces of a split *)

Lemma split_on_length (p : N -> bool) (s : text) :
  length (split_on p s) = S (length (List.filter p s)).
Proof.
  induction s as [| c s IH]; [reflexivity |]. cbn [split_on List.filter].
  destruct (p c); cbn [length]; [rewrite IH; reflexivity |].
  destruct (split_on p s); cbn [cons_hd length] in *; [discriminate | exact IH].
Qed.

Lemma split_on_pieces (p : N -> bool) (s w : text) (c : N) :
  In w (split_on p s) -> In c w -> p c = false /\ In c s.
Proof.
  revert w. induction s as [| a s IH]; intros w Hw Hc.
  - destruct Hw as [<- | []]. destruct Hc.
  - cbn [split_on] in Hw. destruct (p a) eqn:Ha.
    + destruct Hw as [<- | Hw]; [destruct Hc |].
      destruct (IH w Hw Hc). split; [assumption | right; assumption].
    + destruct (split_on p s) as [| h t].
      * destruct Hw as [<- | []]. destruct Hc as [<- | []].
        split; [exact Ha | left; reflexivity].
      * destruct Hw as [<- | Hw].
        -- destruct Hc as [<- | Hc]; [split; [exact Ha | left; reflexivity] |].
           destruct (IH h (or_introl eq_refl) Hc).
           split; [assumption | right; assumption].
        -- destruct (IH w (or_intror Hw) Hc).
           split; [assumption | right; assumption].
Qed.

Lemma forallb_not_In (c : N) (w : text) :
  ~ In c w -> forallb (fun a => negb (c =? a)) w = true.
Proof.
  induction w as [| a w IH]; [reflexivity |]. intros H. cbn [forallb].
  rewrite IH by (intros Hin; apply H; right; exact Hin).
  destruct (N.eqb_spec c a) as [-> | _]; [exfalso; apply H; left |]; reflexivity.
Qed.

(** ** [Config._parse_preload_models] *)

Lemma preload_items_loop_acc (items : list text) (models : list (text * text)) :
  preload_items_loop items models = models ++ preload_items_loop items [].
Proof.
  revert models. induction items as [| item rest IH]; intros models.
  - cbn. rewrite app_nil_r. reflexivity.
  - cbn [preload_items_loop].
    repeat match goal with
           | |- context [if ?b then _ else _] => destruct b
           end; try apply IH.
    rewrite (IH (models ++ _)), (IH ([] ++ _)), <- app_assoc. reflexivity.
Qed.

Lemma preload_items_loop_app (a b : list text) :
  preload_items_loop (a ++ b) []
  = preload_items_loop a [] ++ preload_items_loop b [].
Proof.
  induction a as [| item a IH]; [reflexivity |].
  cbn [app preload_items_loop].
  repeat match goal with
         | |- context [if ?b then _ else _] => destruct b
         end; try apply IH.
  rewrite (preload_items_loop_acc (a ++ b)), (preload_items_loop_acc a), IH.
  rewrite <- app_assoc. reflexivity.
Qed.

Lemma parse_preload_models_loop (s : text) :
  _parse_preload_models (Some s) = preload_items_loop (split_char 44 s) [].
Proof. destruct s; reflexivity. Qed.

Lemma preload_items_loop_clean (items : list text) (l g : text) :
  In (l, g) (preload_items_loop items []) ->
  exists item, In item items
    /\ l <> [] /\ g <> [] /\ strip l = l /\ strip g = g
    /\ ~ In 58 l /\ ~ In 58 g
    /\ (forall c, In c l -> In c item) /\ (forall c, In c g -> In c item).
Proof.
  induction items as [| item rest IH]; [intros [] |].
  cbn [preload_items_loop].
  assert (Hrest : In (l, g) (preload_items_loop rest []) ->
                  exists item0, In item0 (item :: rest)
                    /\ l <> [] /\ g <> [] /\ strip l = l /\ strip g = g
                    /\ ~ In 58 l /\ ~ In 58 g
                    /\ (forall c, In c l -> In c item0)
                    /\ (forall c, In c g -> In c item0)).
  { intros H. destruct (IH H) as (i & Hi & Hp). exists i. split; [right |]; assumption. }
  destruct (nonempty (strip item)); cbn [negb]; [| exact Hrest].
  destruct (split_char 58 (strip item)) as [| a [| b [| ? ?]]] eqn:Hsplit;
    cbn [length]; try exact Hrest.
  rewrite bool_decide_eq_true_2 by reflexivity. cbn [nth].
  destruct (nonempty (strip a)) eqn:Ha; [| exact Hrest].
  destruct (nonempty (strip b)) eqn:Hb; [| exact Hrest].
  cbn [andb app]. rewrite preload_items_loop_acc.
  intros [[= <- <-] | Hin]; [| exact (Hrest Hin)].
  assert (Hpiece : forall w c, In w [a; b] -> In c (strip w) ->
                               58 <> c /\ In c item).
  { intros w c Hw Hc. apply strip_In in Hc.
    assert (Hw' : In w (split_on (N.eqb 58) (strip item)))
      by (unfold split_char in Hsplit; rewrite Hsplit; exact Hw).
    destruct (split_on_pieces _ _ _ _ Hw' Hc) as [Hne Hc'].
    split; [apply N.eqb_neq, Hne | apply strip_In, Hc']. }
  exists item. split; [left; reflexivity |].
  split; [intros E; rewrite E in Ha; discriminate |].
  split; [intros E; rewrite E in Hb; discriminate |].
  split; [apply strip_idem |]. split; [apply strip_idem |].
  split; [intros H; apply (Hpiece a 58); [left; reflexivity | exact H | reflexivity] |].
  split; [intros H; apply (Hpiece b 58); [right; left; reflexivity | exact H | reflexivity] |].
  split; intros c Hc; [apply (Hpiece a) | apply (Hpiece b)];
    [left; reflexivity | exact Hc | right; left; reflexivity | exact Hc].
Qed.

(** X1. Every pair that parsing [PRELOAD_MODELS] returns has a language and a
    gender that are not empty, carry no whitespace at either end and hold
    neither a comma nor a colon. *)
Theorem parse_preload_models_clean (env : option text) (l g : text) :
  In (l, g) (_parse_preload_models env) -> clean_name l /\ clean_name g.
Proof.
  destruct env as [s |]; [| intros []].
  rewrite parse_preload_models_loop. intros H.
  destruct (preload_items_loop_clean _ _ _ H)
    as (item & Hitem & Hl & Hg & Hsl & Hsg & Hcl & Hcg & Hil & Hig).
  assert (Hcomma : forall c, In c item -> 44 <> c).
  { intros c Hc. apply N.eqb_neq. apply (split_on_pieces _ _ _ _ Hitem Hc). }
  unfold clean_name. repeat split; try assumption.
  - intros Hin. apply (Hcomma 44 (Hil _ Hin)). reflexivity.
  - intros Hin. apply (Hcomma 44 (Hig _ Hin)). reflexivity.
Qed.

Lemma parse_preload_models_clean_witness :
  In (str "hindi", str "male")
     (_parse_preload_models (Some (str " hindi : male ,tamil")))
  /\ clean_name (str "hindi") /\ clean_name (str "male").
Proof.
  assert (H : In (str "hindi", str "male")
                (_parse_preload_models (Some (str " hindi : male ,tamil"))))
    by (vm_compute; left; reflexivity).
  split; [exact H |].
  exact (parse_preload_models_clean _ _ _ H).
Defined.

(** The value is read entry by entry: what is parsed from two values joined
    by a comma is what is parsed from the first followed by what is parsed
    from the second. *)
Lemma parse_preload_models_comma (a b : text) :
  _parse_preload_models (Some (a ++ 44 :: b))
  = _parse_preload_models (Some a) ++ _parse_preload_models (Some b).
Proof.
  rewrite !parse_preload_models_loop. unfold split_char.
  rewrite split_on_app_sep by reflexivity. apply preload_items_loop_app.
Qed.

Lemma parse_preload_item (l g : text) :
  clean_name l -> clean_name g ->
  _parse_preload_models (Some (preload_item (l, g))) = [(l, g)].
Proof.
  intros (Hl & Hsl & Hl44 & Hl58) (Hg & Hsg & Hg44 & Hg58).
  rewrite parse_preload_models_loop. unfold preload_item, split_char. cbn [fst snd].
  rewrite split_on_none.
  2: { apply forallb_not_In. intros [H | [H | H]]%in_app_or;
         [exact (Hl44 H) | discriminate | exact (Hg44 H)]. }
  cbn [preload_items_loop].
  assert (Hstrip : strip (l ++ 58 :: g) = l ++ 58 :: g).
  { destruct (strip_trimmed l) as [Hl1 _]. destruct (strip_trimmed g) as [_ Hg2].
    rewrite Hsl in Hl1. rewrite Hsg in Hg2. apply strip_fix.
    - apply lstrip_app_fix; assumption.
    - rewrite rev_app_distr. cbn [rev]. rewrite <- !app_assoc.
      apply lstrip_app_fix; [| exact Hg2].
      intros E. apply (f_equal (@rev N)) in E. rewrite rev_involutive in E.
      exact (Hg E). }
  rewrite Hstrip.
  destruct l as [| c l']; [contradiction |]. cbn [app nonempty negb].
  change (c :: l' ++ 58 :: g) with ((c :: l') ++ 58 :: g).
  unfold split_char.
  rewrite split_on_word by (try reflexivity; apply forallb_not_In, Hl58).
  rewrite split_on_none by (apply forallb_not_In, Hg58).
  cbn [length nth]. rewrite bool_decide_eq_true_2 by reflexivity.
  rewrite Hsl, Hsg. destruct g; [contradiction |]. reflexivity.
Qed.

(** X2. Writing a list of clean names as [language:gender] entries joined by
    commas and parsing the result gives the list back. *)
Theorem parse_preload_models_round_trip (models : list (text * text)) :
  Forall (fun m => clean_name (fst m) /\ clean_name (snd m)) models ->
  _parse_preload_models (Some (join [44] (List.map preload_item models)))
  = models.
Proof.
  induction 1 as [| [l g] rest [Hl Hg] _ IH]; [reflexivity |].
  cbn [List.map join]. destruct rest as [| m rest].
  - apply parse_preload_item; assumption.
  - change (List.map preload_item (m :: rest))
      with (preload_item m :: List.map preload_item rest) in *.
    cbn [app]. rewrite parse_preload_models_comma, IH.
    rewrite parse_preload_item by assumption. reflexivity.
Qed.

Lemma parse_preload_models_round_trip_witness :
  _parse_preload_models (Some (str "hindi:male,tamil:female"))
  = [(str "hindi", str "male"); (str "tamil", str "female")].
Proof.
  apply (parse_preload_models_round_trip
           [(str "hindi", str "male"); (str "tamil", str "female")]).
  repeat constructor; cbn; try discriminate; try reflexivity;
    intros H; repeat (destruct H as [H | H]; [discriminate |]); exact H.
Defined.

Lemma parse_malformed_item (item : text) :
  ~ In 44 item -> length (List.filter (N.eqb 58) item) <> 1%nat ->
  _parse_preload_models (Some item) = [].
Proof.
  intros H44 Hcount. rewrite parse_preload_models_loop. unfold split_char.
  rewrite split_on_none by (apply forallb_not_In, H44).
  cbn [preload_items_loop].
  destruct (nonempty (strip item)); [| reflexivity]. cbn [negb].
  rewrite bool_decide_eq_false_2; [reflexivity |].
  unfold split_char. rewrite split_on_length, filter_strip.
  - intros [= H]. exact (Hcount H).
  - intros c <-%N.eqb_eq. reflexivity.
Qed.

(** X3. An entry that does not have exactly one colon is passed over without an
    error, and the entries around it are read as if it were not there. *)
Theorem parse_preload_models_skips_malformed (a item b : text) :
  ~ In 44 item -> length (List.filter (N.eqb 58) item) <> 1%nat ->
  _parse_preload_models (Some (a ++ 44 :: item ++ 44 :: b))
  = _parse_preload_models (Some a) ++ _parse_preload_models (Some b).
Proof.
  intros H44 Hcount. rewrite !parse_preload_models_comma.
  rewrite (parse_malformed_item item H44 Hcount). reflexivity.
Qed.

Lemma parse_preload_models_skips_malformed_witness :
  _parse_preload_models (Some (str "hindi:male,tamil,bengali:female:x,urdu:male"))
  = [(str "hindi", str "male"); (str "urdu", str "male")].
Proof.
  assert (H1 : _parse_preload_models
                 (Some (str "hindi:male" ++ 44 :: str "tamil" ++ 44 ::
                        str "bengali:female:x,urdu:male"))
               = _parse_preload_models (Some (str "hindi:male"))
                 ++ _parse_preload_models (Some (str "bengali:female:x,urdu:male"))).
  { apply parse_preload_models_skips_malformed.
    - intros H. vm_compute in H. repeat (destruct H as [H | H]; [discriminate |]). exact H.
    - vm_compute. discriminate. }
  etransitivity; [exact H1 |]. vm_compute. reflexivity.
Defined.

(** ** Words *)

Lemma split_ws_words (s : text) : Forall is_word (split_ws s).
Proof.
  apply Forall_forall. intros w Hw. apply list_elem_of_In in Hw.
  unfold split_ws in Hw. apply List.filter_In in Hw as [Hw Hne].
  split; [intros ->; discriminate |].
  apply forallb_forall. intros c Hc.
  destruct (split_on_pieces _ _ _ _ Hw Hc) as [-> _]. reflexivity.
Qed.

Lemma split_ws_word (w : text) : is_word w -> split_ws w = [w].
Proof.
  intros [Hne Hw]. unfold split_ws. rewrite split_on_none by exact Hw.
  destruct w; [contradiction | reflexivity].
Qed.

(** Words joined by single spaces split into the same words. *)
Lemma split_ws_join (ws : list text) :
  Forall is_word ws -> split_ws (join (str " ") ws) = ws.
Proof.
  induction 1 as [| w rest Hw _ IH]; [reflexivity |].
  destruct rest as [| w' rest]; [apply split_ws_word, Hw |].
  change (join (str " ") (w :: w' :: rest))
    with (w ++ 32 :: join (str " ") (w' :: rest)).
  rewrite split_ws_app_sep, IH, (split_ws_word w Hw). reflexivity.
Qed.

(** ** [TTSEngine.split_into_chunks] *)

Local Open Scope Z_scope.

Lemma range_go_done (fuel : nat) (i stop step : Z) :
  0 < step -> stop <= i -> range_go fuel i stop step = [].
Proof.
  intros Hstep Hi. destruct fuel; [reflexivity |]. cbn [range_go].
  destruct (Z.ltb_spec 0 step); [| lia].
  destruct (Z.ltb_spec i stop); [lia | reflexivity].
Qed.

Lemma range_go_next (fuel : nat) (i stop step : Z) :
  0 < step -> i < stop ->
  range_go (S fuel) i stop step = i :: range_go fuel (i + step) stop step.
Proof.
  intros Hstep Hi. cbn [range_go].
  destruct (Z.ltb_spec 0 step); [| lia].
  destruct (Z.ltb_spec i stop); [reflexivity | lia].
Qed.

Lemma slice_inside {A} (l : list A) (i n : Z) :
  0 <= i <= Z.of_nat (length l) -> 0 < n ->
  slice l i (i + n)
  = take (Z.to_nat (Z.min n (Z.of_nat (length l) - i))) (drop (Z.to_nat i) l).
Proof.
  intros Hi Hn. unfold slice, slice_index.
  destruct (Z.ltb_spec i 0); [lia |].
  destruct (Z.ltb_spec (i + n) 0); [lia |].
  rewrite (Z.min_l i) by lia. f_equal. f_equal. lia.
Qed.

Section Chunks.

Variable words : list text.
Variable n : Z.
Hypothesis n_pos : 0 < n.

Let len : Z := Z.of_nat (length words).
Let chunks_from (fuel : nat) (i : Z) : list (list text) :=
  List.map (fun j => slice words j (j + n)) (range_go fuel i len n).

Lemma chunks_from_spec (fuel : nat) (i : Z) :
  0 <= i <= len -> len - i <= Z.of_nat fuel ->
  concat (chunks_from fuel i) = drop (Z.to_nat i) words
  /\ Forall (fun c => (1 <= length c)%nat /\ Z.of_nat (length c) <= n)
       (chunks_from fuel i)
  /\ Z.of_nat (length (chunks_from fuel i)) = (len - i + n - 1) / n
  /\ (forall k, (S k < length (chunks_from fuel i))%nat ->
        Z.of_nat (length (nth k (chunks_from fuel i) [])) = n).
Proof.
  subst chunks_from len. cbn beta.
  revert i. induction fuel as [| fuel IH]; intros i Hi Hfuel.
  - assert (i = Z.of_nat (length words)) as -> by lia.
    cbn [range_go List.map concat length]. rewrite Nat2Z.id, drop_all.
    replace (Z.of_nat (length words) - Z.of_nat (length words) + n - 1)
      with (n - 1) by lia.
    rewrite Z.div_small by lia. repeat split; [constructor | intros k Hk; cbn in Hk; lia].
  - destruct (Z.eq_dec i (Z.of_nat (length words))) as [-> | Hne].
    + rewrite range_go_done by lia.
      cbn [List.map concat length]. rewrite Nat2Z.id, drop_all.
      replace (Z.of_nat (length words) - Z.of_nat (length words) + n - 1)
        with (n - 1) by lia.
      rewrite Z.div_small by lia.
      repeat split; [constructor | intros k Hk; cbn in Hk; lia].
    + rewrite range_go_next by lia.
      cbn [List.map concat length]. rewrite slice_inside by lia.
      set (rest := drop (Z.to_nat i) words).
      assert (Hrest : Z.of_nat (length rest) = Z.of_nat (length words) - i).
      { subst rest. rewrite length_drop. lia. }
      destruct (Z.le_gt_cases (Z.of_nat (length words)) (i + n)) as [Hlast | Hmore].
      * rewrite range_go_done by lia. cbn [List.map concat length].
        rewrite Z.min_r by lia.
        rewrite take_ge by lia. rewrite app_nil_r.
        split; [reflexivity |]. split; [constructor; [lia | constructor] |].
        split.
        -- change (Z.of_nat 1) with 1.
           apply (Z.div_unique _ _ 1 (Z.of_nat (length words) - i - 1)); lia.
        -- intros k Hk. lia.
      * destruct (IH (i + n)) as (Hcat & Hall & Hcount & Hfull); [lia | lia |].
        rewrite Z.min_l by lia.
        split.
        { rewrite Hcat. rewrite Z2Nat.inj_add by lia.
          rewrite <- drop_drop. apply take_drop. }
        split.
        { constructor; [| exact Hall]. rewrite length_take. lia. }
        split.
        { rewrite Nat2Z.inj_succ, Hcount.
          replace (Z.of_nat (length words) - i + n - 1)
            with (Z.of_nat (length words) - (i + n) + n - 1 + 1 * n) by lia.
          rewrite Z.div_add by lia. lia. }
        { intros [| k] Hk; cbn [nth].
          - rewrite length_take. lia.
          - apply Hfull. lia. }
Qed.

End Chunks.

Lemma Forall_word_sub (words : list text) (cs : list (list text)) (i : nat) :
  Forall is_word words -> concat cs = drop i words ->
  Forall (Forall is_word) cs.
Proof.
  intros Hw Hcat. apply Forall_forall. intros c Hc.
  apply Forall_forall. intros w Hin.
  rewrite Forall_forall in Hw. apply Hw.
  apply (subseteq_drop i words). rewrite <- Hcat.
  apply list_elem_of_In, in_concat. exists c.
  split; apply list_elem_of_In; assumption.
Qed.

Lemma concat_split_ws_join (cs : list (list text)) :
  Forall (Forall is_word) cs ->
  List.map split_ws (List.map (join (str " ")) cs) = cs.
Proof.
  induction 1 as [| c cs Hc _ IH]; [reflexivity |].
  cbn [List.map]. rewrite IH, (split_ws_join c Hc). reflexivity.
Qed.

Lemma split_into_chunks_pos (text0 : text) (n : Z) :
  0 < n ->
  let words := split_ws text0 in
  let cs := List.map (fun j => slice words j (j + n))
              (range_go (length words) 0 (Z.of_nat (length words)) n) in
  split_into_chunks text0 n = Ok (List.map (join (str " ")) cs)
  /\ List.map split_ws (List.map (join (str " ")) cs) = cs
  /\ concat cs = words.
Proof.
  intros Hn words cs.
  destruct (chunks_from_spec words n Hn (length words) 0) as (Hcat & _);
    [lia | lia |].
  cbn [Z.to_nat drop] in Hcat. fold words in Hcat.
  split.
  - unfold split_into_chunks, py_range. fold words.
    destruct (Z.eqb_spec n 0); [lia |].
    rewrite Z.sub_0_r, Z.abs_eq, Nat2Z.id by lia. reflexivity.
  - split; [| exact Hcat]. apply concat_split_ws_join.
    apply (Forall_word_sub words cs 0); [apply split_ws_words | exact Hcat].
Qed.

(** X4. With a positive number of words per chunk, [split_into_chunks] returns
    chunks whose words, read in order, are the words of the text; every
    chunk has at least one word and at most the requested number. *)
Theorem split_into_chunks_keeps_words (text0 : text) (words_per_chunk : Z) :
  0 < words_per_chunk ->
  exists chunks,
    split_into_chunks text0 words_per_chunk = Ok chunks
    /\ concat (List.map split_ws chunks) = split_ws text0
    /\ Forall (fun c => (1 <= length (split_ws c))%nat
                        /\ Z.of_nat (length (split_ws c)) <= words_per_chunk)
         chunks.
Proof.
  intros Hn. destruct (split_into_chunks_pos text0 _ Hn) as (Hres & Hmap & Hcat).
  cbn zeta in *. eexists. split; [exact Hres |].
  rewrite Hmap. split; [exact Hcat |].
  destruct (chunks_from_spec (split_ws text0) _ Hn (length (split_ws text0)) 0)
    as (_ & Hall & _); [lia | lia |].
  apply Forall_forall. intros c Hc. apply list_elem_of_In in Hc.
  apply in_map_iff in Hc as (ws & <- & Hws).
  assert (Hin : In (split_ws (join (str " ") ws))
                  (List.map split_ws (List.map (join (str " ")) 
                    (List.map (fun j => slice (split_ws text0) j (j + words_per_chunk))
                       (range_go (length (split_ws text0)) 0
                          (Z.of_nat (length (split_ws text0))) words_per_chunk))))).
  { apply in_map, in_map, Hws. }
  rewrite Hmap in Hin. rewrite Forall_forall in Hall.
  apply Hall, list_elem_of_In, Hin.
Qed.

Lemma split_into_chunks_keeps_words_witness :
  exists chunks,
    split_into_chunks (str " one two  three four five ") 2 = Ok chunks
    /\ concat (List.map split_ws chunks)
       = [str "one"; str "two"; str "three"; str "four"; str "five"].
Proof.
  destruct (split_into_chunks_keeps_words (str " one two  three four five ") 2)
    as (chunks & Hres & Hwords & _); [lia |].
  exists chunks. split; [exact Hres |]. rewrite Hwords. vm_compute. reflexivity.
Defined.

(** X5. With a positive number [n] of words per chunk and [len] words in the
    text there are [ceil(len / n)] chunks, and every chunk but the last has
    exactly [n] words. *)
Theorem split_into_chunks_count (text0 : text) (words_per_chunk : Z) :
  0 < words_per_chunk ->
  exists chunks,
    split_into_chunks text0 words_per_chunk = Ok chunks
    /\ Z.of_nat (length chunks)
       = (Z.of_nat (length (split_ws text0)) + words_per_chunk - 1)
         / words_per_chunk
    /\ (forall k, (S k < length chunks)%nat ->
          Z.of_nat (length (split_ws (nth k chunks []))) = words_per_chunk).
Proof.
  intros Hn. destruct (split_into_chunks_pos text0 _ Hn) as (Hres & Hmap & Hcat).
  cbn zeta in *. eexists. split; [exact Hres |].
  destruct (chunks_from_spec (split_ws text0) _ Hn (length (split_ws text0)) 0)
    as (_ & _ & Hcount & Hfull); [lia | lia |].
  rewrite Z.sub_0_r in Hcount. rewrite length_map. split; [exact Hcount |].
  intros k Hk. specialize (Hfull k). rewrite !length_map in Hk, Hfull.
  etransitivity; [| exact (Hfull Hk)]. f_equal. f_equal.
  match goal with
  | |- split_ws (nth k ?l []) = _ => pose proof (map_nth split_ws l [] k) as Hnth
  end.
  change (split_ws []) with (@nil text) in Hnth. rewrite Hmap in Hnth.
  symmetry. exact Hnth.
Qed.

Lemma split_into_chunks_count_witness :
  exists chunks,
    split_into_chunks (str " one two  three four five ") 2 = Ok chunks
    /\ length chunks = 3%nat.
Proof.
  destruct (split_into_chunks_count (str " one two  three four five ") 2)
    as (chunks & Hres & Hcount & _); [lia |].
  exists chunks. split; [exact Hres |].
  apply Nat2Z.inj. rewrite Hcount. vm_compute. reflexivity.
Defined.

(** X6. Zero words per chunk raises [ValueError], whatever the text; a negative
    number returns no chunk at all, the text being dropped without an
    error. *)
Theorem split_into_chunks_nonpositive (text0 : text) (words_per_chunk : Z) :
  words_per_chunk <= 0 ->
  split_into_chunks text0 words_per_chunk
  = if words_per_chunk =? 0 then Raise ValueError else Ok [].
Proof.
  intros Hn. unfold split_into_chunks, py_range.
  destruct (Z.eqb_spec words_per_chunk 0) as [-> | Hne]; [reflexivity |].
  cbn [mbind result_bind].
  destruct (Z.to_nat _) as [| fuel]; [reflexivity |]. cbn [range_go].
  destruct (Z.ltb_spec 0 words_per_chunk); [lia |].
  destruct (Z.ltb_spec (Z.of_nat (length (split_ws text0))) 0); [lia | reflexivity].
Qed.

Lemma split_into_chunks_nonpositive_witness :
  split_into_chunks (str "one two three") (-1) = Ok []
  /\ split_into_chunks (str "one two three") 0 = Raise ValueError.
Proof.
  split.
  - apply (split_into_chunks_nonpositive (str "one two three") (-1)). lia.
  - apply (split_into_chunks_nonpositive (str "one two three") 0). lia.
Defined.

Local Close Scope Z_scope.

(** ** Runs of a character class *)

Lemma sub_runs_In (p : N -> bool) (b : bool) (s : text) (c : N) :
  In c (sub_runs p b s) -> c = 32 \/ (In c s /\ p c = false).
Proof.
  revert b. induction s as [| a s IH]; intros b; [intros [] |].
  cbn [sub_runs]. destruct (p a) eqn:Ha.
  - destruct b.
    + intros H. destruct (IH _ H) as [-> | [H1 H2]]; [left | right; split; [right |]]; auto.
    + intros [<- | H]; [left; reflexivity |].
      destruct (IH _ H) as [-> | [H1 H2]]; [left | right; split; [right |]]; auto.
  - intros [<- | H]; [right; split; [left |]; auto |].
    destruct (IH _ H) as [-> | [H1 H2]]; [left | right; split; [right |]]; auto.
Qed.

Lemma sub_runs_filter (p keep : N -> bool) (b : bool) (s : text) :
  keep 32 = false -> (forall c, p c = true -> keep c = false) ->
  List.filter keep (sub_runs p b s) = List.filter keep s.
Proof.
  intros H32 Hp. revert b. induction s as [| a s IH]; intros b; [reflexivity |].
  cbn [sub_runs List.filter]. destruct (p a) eqn:Ha.
  - rewrite (Hp a Ha). destruct b; [apply IH |].
    cbn [List.filter]. rewrite H32. apply IH.
  - cbn [List.filter]. rewrite IH. reflexivity.
Qed.

Lemma split_runs_shape (p : N -> bool) (b : bool) (s : text) :
  exists h t, split_runs p b s = h :: t.
Proof.
  revert b. induction s as [| a s IH]; intros b; [eexists _, _; reflexivity |].
  cbn [split_runs]. destruct (p a).
  - destruct b; [apply IH | eexists _, _; reflexivity].
  - destruct (IH false) as (h & t & ->). eexists _, _; reflexivity.
Qed.

Lemma split_runs_head (p : N -> bool) (s h : text) (t : list text) :
  split_runs p false s = h :: t -> exists post, s = h ++ post.
Proof.
  revert h t. induction s as [| a s IH]; intros h t.
  - intros [= <- _]. exists []. reflexivity.
  - cbn [split_runs]. destruct (p a).
    + intros [= <- _]. exists (a :: s). reflexivity.
    + destruct (split_runs_shape p false s) as (h' & t' & Hs). rewrite Hs.
      cbn [cons_hd]. intros [= <- _].
      destruct (IH _ _ Hs) as (post & ->). exists post. reflexivity.
Qed.

(** A piece of the split is a part of the text. *)
Lemma split_runs_factor (p : N -> bool) (b : bool) (s w : text) :
  In w (split_runs p b s) -> exists pre post, s = pre ++ w ++ post.
Proof.
  revert b w. induction s as [| a s IH]; intros b w.
  - intros [<- | []]. exists [], []. reflexivity.
  - cbn [split_runs]. destruct (p a) eqn:Ha.
    + assert (Hrec : In w (split_runs p true s) ->
                     exists pre post, a :: s = pre ++ w ++ post).
      { intros H. destruct (IH _ _ H) as (pre & post & ->).
        exists (a :: pre), post. reflexivity. }
      destruct b; [exact Hrec |].
      intros [<- | H]; [| exact (Hrec H)]. exists [], (a :: s). reflexivity.
    + destruct (split_runs_shape p false s) as (h & t & Hs). rewrite Hs.
      cbn [cons_hd]. intros [<- | H].
      * destruct (split_runs_head _ _ _ _ Hs) as (post & ->).
        exists [], post. reflexivity.
      * destruct (IH false w) as (pre & post & ->); [rewrite Hs; right; exact H |].
        exists (a :: pre), post. reflexivity.
Qed.

(** A piece of the split holds no character of the class. *)
Lemma split_runs_free (p : N -> bool) (b : bool) (s w : text) (c : N) :
  In w (split_runs p b s) -> In c w -> p c = false.
Proof.
  revert b w. induction s as [| a s IH]; intros b w.
  - intros [<- | []] [].
  - cbn [split_runs]. destruct (p a) eqn:Ha.
    + destruct b; [apply IH |]. intros [<- | H]; [intros [] | exact (IH _ _ H)].
    + destruct (split_runs_shape p false s) as (h & t & Hs).
      pose proof (IH false) as IH'. rewrite Hs in IH' |- *. cbn [cons_hd].
      intros [<- | H].
      * intros [<- | Hc]; [exact Ha | exact (IH' h (or_introl eq_refl) Hc)].
      * exact (IH' w (or_intror H)).
Qed.

Lemma cons_hd_concat (c : N) (l : list text) :
  l <> [] -> concat (cons_hd c l) = c :: concat l.
Proof. destruct l; [contradiction | reflexivity]. Qed.

(** The pieces together are the text without the characters of the class. *)
Lemma split_runs_concat (p : N -> bool) (b : bool) (s : text) :
  concat (split_runs p b s) = List.filter (fun c => negb (p c)) s.
Proof.
  revert b. induction s as [| a s IH]; intros b; [reflexivity |].
  cbn [split_runs List.filter]. destruct (p a); cbn [negb].
  - destruct b; [apply IH | cbn [concat app]; apply IH].
  - destruct (split_runs_shape p false s) as (h & t & Hs).
    rewrite cons_hd_concat by (rewrite Hs; discriminate). rewrite IH. reflexivity.
Qed.

(** ** Single spacing *)

Lemma single_spaced_weaken (s : text) :
  single_spaced true s = true -> single_spaced false s = true.
Proof.
  destruct s as [| c s]; [reflexivity |]. cbn [single_spaced].
  destruct (is_space c); [| auto]. rewrite andb_false_r. discriminate.
Qed.

Lemma single_spaced_any (b : bool) (s : text) :
  single_spaced b s = true -> single_spaced false s = true.
Proof. destruct b; [apply single_spaced_weaken | auto]. Qed.

Lemma single_spaced_app (b : bool) (x y : text) :
  single_spaced b (x ++ y) = true ->
  single_spaced b x = true /\ single_spaced false y = true.
Proof.
  revert b. induction x as [| c x IH]; intros b.
  - cbn [app]. intros H. split; [reflexivity | exact (single_spaced_any _ _ H)].
  - cbn [app single_spaced]. destruct (is_space c).
    + intros [[-> ->]%andb_prop H]%andb_prop.
      destruct (IH _ H) as [H1 H2]. rewrite H1. auto.
    + apply IH.
Qed.

Lemma single_spaced_factor (b : bool) (pre w post : text) :
  single_spaced b (pre ++ w ++ post) = true -> single_spaced false w = true.
Proof.
  intros H. apply single_spaced_app in H as [_ H].
  apply single_spaced_app in H as [H _]. exact H.
Qed.

Lemma sub_runs_single_spaced (b : bool) (s : text) :
  single_spaced b (sub_runs is_space b s) = true.
Proof.
  revert b. induction s as [| c s IH]; intros b; [reflexivity |].
  cbn [sub_runs]. destruct (is_space c) eqn:Hc.
  - destruct b; [apply IH |]. cbn [single_spaced].
    change (is_space 32) with true. cbn. apply IH.
  - cbn [single_spaced]. rewrite Hc. apply IH.
Qed.

Lemma single_spaced_space (b : bool) (s : text) (c : N) :
  single_spaced b s = true -> In c s -> is_space c = true -> c = 32.
Proof.
  revert b. induction s as [| a s IH]; intros b H Hin Hc; [destruct Hin |].
  cbn [single_spaced] in H. destruct Hin as [<- | Hin].
  - rewrite Hc in H. apply andb_prop in H as [[H _]%andb_prop _].
    apply N.eqb_eq, H.
  - destruct (is_space a).
    + apply andb_prop in H as [_ H]. exact (IH _ H Hin Hc).
    + exact (IH _ H Hin Hc).
Qed.

(** Splitting at whitespace and joining with spaces gives the text back
    when all its whitespace is spaces. *)
Lemma join_split_on_space (s : text) :
  (forall c, In c s -> is_space c = true -> c = 32) ->
  join (str " ") (split_on is_space s) = s.
Proof.
  induction s as [| a s IH]; intros H; [reflexivity |].
  assert (IH' : join (str " ") (split_on is_space s) = s)
    by (apply IH; intros c Hc; apply H; right; exact Hc).
  cbn [split_on]. destruct (split_on_shape is_space s) as (h & t & Hs).
  rewrite Hs in *. destruct (is_space a) eqn:Ha.
  - rewrite (H a (or_introl eq_refl) Ha).
    change (join (str " ") ([] :: h :: t)) with (32 :: join (str " ") (h :: t)).
    rewrite IH'. reflexivity.
  - cbn [cons_hd]. destruct t as [| h' t].
    + cbn [join] in *. rewrite IH'. reflexivity.
    + change (join (str " ") ((a :: h) :: h' :: t))
        with (a :: (h ++ str " " ++ join (str " ") (h' :: t))).
      change (join (str " ") (h :: h' :: t))
        with (h ++ str " " ++ join (str " ") (h' :: t)) in IH'.
      rewrite IH'. reflexivity.
Qed.

(** In a single-spaced text that ends in no whitespace, only the first
    piece of the split at whitespace can be empty, and it is when the text
    starts with whitespace. *)
Lemma split_on_tight (b : bool) (s : text) :
  s <> [] -> single_spaced b s = true ->
  (forall c, last s = Some c -> is_space c = false) ->
  exists h t,
    split_on is_space s = h :: t /\ Forall (fun w => w <> []) t
    /\ (h = [] -> exists c r, s = c :: r /\ is_space c = true).
Proof.
  revert b. induction s as [| a s IH]; intros b Hne Hss Hlast; [contradiction |].
  destruct s as [| a' s'].
  - assert (Ha : is_space a = false) by (apply Hlast; reflexivity).
    cbn [split_on]. rewrite Ha. cbn [cons_hd].
    eexists _, _. split; [reflexivity |]. split; [constructor | discriminate].
  - cbn [single_spaced] in Hss.
    assert (Hlast' : forall c, last (a' :: s') = Some c -> is_space c = false).
    { intros c Hc. apply Hlast. rewrite last_cons, Hc. reflexivity. }
    change (split_on is_space (a :: a' :: s'))
      with (if is_space a then [] :: split_on is_space (a' :: s')
            else cons_hd a (split_on is_space (a' :: s'))).
    destruct (is_space a) eqn:Ha.
    + apply andb_prop in Hss as [_ Hss].
      destruct (IH true) as (h & t & Hs & Ht & Hh);
        [discriminate | exact Hss | exact Hlast' |].
      rewrite Hs. eexists _, _. split; [reflexivity |].
      split; [| intros _; eexists _, _; split; [reflexivity | exact Ha]].
      constructor; [| exact Ht]. intros ->.
      destruct (Hh eq_refl) as (c & r & [= <- <-] & Hc).
      cbn [single_spaced] in Hss. rewrite Hc in Hss.
      rewrite andb_false_r in Hss. discriminate.
    + destruct (IH false) as (h & t & Hs & Ht & Hh);
        [discriminate | exact Hss | exact Hlast' |].
      rewrite Hs. cbn [cons_hd]. eexists _, _. split; [reflexivity |].
      split; [exact Ht | discriminate].
Qed.

Lemma filter_nonempty_all (l : list text) :
  Forall (fun w => w <> []) l -> List.filter nonempty l = l.
Proof.
  induction 1 as [| w l Hw _ IH]; [reflexivity |].
  cbn [List.filter]. destruct w; [contradiction |]. cbn. rewrite IH. reflexivity.
Qed.

Lemma trimmed_last (s : text) (c : N) :
  lstrip (rev s) = rev s -> last s = Some c -> is_space c = false.
Proof.
  intros Hs Hc. destruct (last_Some s c) as [(l' & ->) _]; [exact Hc |].
  rewrite rev_app_distr in Hs. cbn [rev app] in Hs.
  apply (lstrip_head _ _ _ Hs).
Qed.

(** A single-spaced text without whitespace at its ends is its words joined
    by single spaces. *)
Lemma join_split_ws (b : bool) (s : text) :
  single_spaced b s = true -> lstrip s = s -> lstrip (rev s) = rev s ->
  join (str " ") (split_ws s) = s.
Proof.
  intros Hss Hl Hr. destruct s as [| a s']; [reflexivity |].
  destruct (split_on_tight b (a :: s')) as (h & t & Hs & Ht & Hh);
    [discriminate | exact Hss | intros c; apply trimmed_last, Hr |].
  assert (Hnh : h <> []).
  { intros E. destruct (Hh E) as (c & r & [= <- <-] & Hc).
    rewrite (lstrip_head _ _ _ Hl) in Hc. discriminate. }
  unfold split_ws. rewrite Hs.
  rewrite (filter_nonempty_all (h :: t)) by (constructor; assumption).
  rewrite <- Hs. apply join_split_on_space.
  intros c Hc Hsp. exact (single_spaced_space _ _ _ Hss Hc Hsp).
Qed.

(** ** [StubPreprocessor.preprocess] *)

Lemma stub_phrase_parts (text0 : text) (language gender : string) (p : text) :
  In p (fst (stub_preprocess text0 language gender)) ->
  exists piece,
    p = strip piece /\ p <> []
    /\ In piece
         (split_runs is_phrase_sep false
            (strip (sub_runs is_space false
                      (sub_runs is_hash_or_newline false text0)))).
Proof.
  unfold stub_preprocess. cbn [fst]. intros H.
  apply in_map_iff in H as (piece & <- & H).
  apply List.filter_In in H as [H Hne].
  exists piece. split; [reflexivity |]. split; [| exact H].
  intros E. rewrite E in Hne. discriminate.
Qed.

Lemma stub_phrase_clean (text0 : text) (language gender : string) (p : text) :
  In p (fst (stub_preprocess text0 language gender)) ->
  p <> [] /\ lstrip p = p
  /\ join (str " ") (split_ws p) = p
  /\ forall c, In c p -> is_phrase_sep c = false /\ is_hash_or_newline c = false.
Proof.
  intros H. destruct (stub_phrase_parts _ _ _ _ H) as (piece & -> & Hne & Hpiece).
  set (t1 := sub_runs is_hash_or_newline false text0) in *.
  set (t2 := sub_runs is_space false t1) in *.
  destruct (strip_trimmed piece) as [Hl Hr].
  split; [exact Hne |]. split; [exact Hl |]. split.
  - apply (join_split_ws false); [| exact Hl | exact Hr].
    destruct (strip_spec piece) as (w1 & w2 & _ & _ & Hp).
    destruct (split_runs_factor _ _ _ _ Hpiece) as (pre & post & Ht3).
    destruct (strip_spec t2) as (v1 & v2 & _ & _ & Ht2).
    pose proof (sub_runs_single_spaced false t1) as Hss. fold t2 in Hss.
    rewrite Ht2 in Hss. apply single_spaced_factor in Hss.
    rewrite Ht3 in Hss. apply single_spaced_factor in Hss.
    rewrite Hp in Hss. apply single_spaced_factor in Hss. exact Hss.
  - intros c Hc. apply strip_In in Hc.
    split; [exact (split_runs_free _ _ _ _ _ Hpiece Hc) |].
    destruct (split_runs_factor _ _ _ _ Hpiece) as (pre & post & Ht3).
    assert (Hc2 : In c t2).
    { apply strip_In. rewrite Ht3. apply in_or_app. right.
      apply in_or_app. left. exact Hc. }
    destruct (sub_runs_In _ _ _ _ Hc2) as [-> | [Hc1 _]]; [split; reflexivity |].
    destruct (sub_runs_In _ _ _ _ Hc1) as [-> | [_ Hh]]; [reflexivity | exact Hh].
Qed.

(** X7. Every phrase the stub returns is not empty, is its own words joined by
    single spaces (so it has no whitespace at its ends, and no whitespace
    but single spaces inside), and holds no phrase separator, no [#] and no
    line break. *)
Theorem stub_preprocess_phrases_clean (text0 : text) (language gender : string)
    (p : text) :
  In p (fst (stub_preprocess text0 language gender)) ->
  p <> []
  /\ join (str " ") (split_ws p) = p
  /\ forall c, In c p -> is_phrase_sep c = false /\ is_hash_or_newline c = false.
Proof.
  intros H. destruct (stub_phrase_clean _ _ _ _ H) as (H1 & _ & H2 & H3).
  auto.
Qed.

Lemma stub_preprocess_phrases_clean_witness :
  let p := str "Hello world" in
  In p (fst (stub_preprocess (str " # Hello   world!?  Next;")
               "hindi"%string "male"%string))
  /\ join (str " ") (split_ws p) = p.
Proof.
  intros p.
  assert (H : In p (fst (stub_preprocess (str " # Hello   world!?  Next;")
                           "hindi"%string "male"%string)))
    by (vm_compute; left; reflexivity).
  split; [exact H |].
  exact (proj1 (proj2 (stub_preprocess_phrases_clean _ _ _ _ H))).
Defined.

Lemma stub_keeps_not_space (c : N) : stub_keeps c = true -> is_space c = false.
Proof.
  unfold stub_keeps. intros [[_ H]%andb_prop _]%andb_prop.
  apply negb_true_iff, H.
Qed.

Lemma filter_strip_pieces (keep : N -> bool) (pieces : list text) :
  (forall c, keep c = true -> is_space c = false) ->
  List.filter keep
    (concat (List.map strip
               (List.filter (fun p => nonempty (strip p)) pieces)))
  = List.filter keep (concat pieces).
Proof.
  intros Hk. induction pieces as [| w l IH]; [reflexivity |].
  cbn [List.filter concat]. rewrite List.filter_app, <- IH.
  rewrite <- (filter_strip keep w Hk).
  destruct (strip w) eqn:Hw; cbn [nonempty]; [reflexivity |].
  cbn [List.map concat]. rewrite List.filter_app, Hw. reflexivity.
Qed.

Lemma filter_within (keep q : N -> bool) (s : text) :
  (forall c, keep c = true -> q c = true) ->
  List.filter keep (List.filter q s) = List.filter keep s.
Proof.
  intros H. induction s as [| c s IH]; [reflexivity |]. cbn [List.filter].
  destruct (q c) eqn:Hq; cbn [List.filter]; rewrite IH; [reflexivity |].
  destruct (keep c) eqn:Hk; [rewrite (H c Hk) in Hq; discriminate | reflexivity].
Qed.

Lemma stub_keeps_content (text0 : text) (language gender : string) :
  List.filter stub_keeps (concat (fst (stub_preprocess text0 language gender)))
  = List.filter stub_keeps text0.
Proof.
  unfold stub_preprocess. cbn [fst].
  rewrite (filter_strip_pieces _ _ stub_keeps_not_space).
  rewrite split_runs_concat.
  set (t3 := strip _).
  rewrite filter_within.
  2: { intros c. unfold stub_keeps. intros [_ H]%andb_prop. exact H. }
  subst t3.
  rewrite (filter_strip _ _ stub_keeps_not_space).
  rewrite sub_runs_filter; [| reflexivity |].
  2: { intros c Hc. unfold stub_keeps. rewrite Hc, andb_false_r. reflexivity. }
  apply sub_runs_filter; [reflexivity |].
  intros c Hc. unfold stub_keeps. rewrite Hc. reflexivity.
Qed.

(** X8. The stub loses nothing but separators: the characters of the phrases,
    whitespace left aside, are in order the characters of the text that are
    neither whitespace, nor [#] or a line break, nor phrase separators. *)
Theorem stub_preprocess_keeps_content (text0 : text) (language gender : string) :
  List.filter stub_keeps (concat (fst (stub_preprocess text0 language gender)))
  = List.filter stub_keeps text0.
Proof. apply stub_keeps_content. Qed.

(** X9. The stub returns no phrase exactly when every character of the text is
    whitespace, [#], a line break or a phrase separator. *)
Theorem stub_preprocess_no_phrase (text0 : text) (language gender : string) :
  fst (stub_preprocess text0 language gender) = []
  <-> forallb (fun c => negb (stub_keeps c)) text0 = true.
Proof.
  pose proof (stub_keeps_content text0 language gender) as Hkeep.
  split.
  - intros E. rewrite E in Hkeep. cbn in Hkeep.
    apply forallb_forall. intros c Hc.
    destruct (stub_keeps c) eqn:Hk; [| reflexivity].
    assert (Hin : In c (List.filter stub_keeps text0))
      by (apply List.filter_In; split; assumption).
    rewrite <- Hkeep in Hin. destruct Hin.
  - intros Hall.
    destruct (fst (stub_preprocess text0 language gender)) as [| p ps] eqn:E;
      [reflexivity |].
    assert (Hp : In p (fst (stub_preprocess text0 language gender)))
      by (rewrite E; left; reflexivity).
    destruct (stub_phrase_clean _ _ _ _ Hp) as (Hne & Hl & _ & Hc).
    destruct p as [| c p']; [contradiction |].
    destruct (Hc c (or_introl eq_refl)) as [Hsep Hhash].
    assert (Hk : stub_keeps c = true).
    { unfold stub_keeps. rewrite Hsep, Hhash, (lstrip_head _ _ _ Hl). reflexivity. }
    assert (Hin : In c (List.filter stub_keeps text0)).
    { rewrite <- Hkeep. cbn [concat app List.filter]. rewrite Hk. left. reflexivity. }
    apply List.filter_In in Hin as [Hin _].
    rewrite forallb_forall in Hall. specialize (Hall c Hin).
    rewrite Hk in Hall. discriminate.
Qed.

(** ** What a successful [ensure] guarantees *)

Lemma ensure_model_present (st st' : store) (language gender msg : string) :
  ensure_model st language gender = ((true, msg), st') ->
  model_exists_locally st' language gender = true.
Proof.
  unfold ensure_model, ensure_model_locked.
  set (st0 := _get_download_lock st _).
  destruct (model_exists_locally st0 language gender) eqn:H0;
    [intros [= _ <-]; exact H0 |].
  destruct (gcs_bucket st0); [| discriminate].
  destruct (download_from_gcs st0 _ _) as [ok st1].
  destruct ok; [| discriminate].
  destruct (model_exists_locally st1 language gender) eqn:H1; [| discriminate].
  intros [= _ <-]. exact H1.
Qed.

Lemma ensure_vocoder_present (st st' : store) (language gender msg : string) :
  ensure_vocoder st language gender = ((true, msg), st') ->
  vocoder_exists_locally st' language gender = true.
Proof.
  unfold ensure_vocoder, ensure_vocoder_locked.
  set (st0 := _get_download_lock st _).
  destruct (vocoder_exists_locally st0 language gender) eqn:H0;
    [intros [= _ <-]; exact H0 |].
  destruct (gcs_bucket st0); [| discriminate].
  destruct (download_from_gcs st0 _ _) as [ok st1].
  destruct (ok && vocoder_exists_locally st1 language gender) eqn:H1.
  { intros [= _ <-]. apply andb_prop in H1 as [_ H1]. exact H1. }
  destruct (download_from_gcs st1 _ _) as [ok2 st2].
  destruct (ok2 && vocoder_exists_locally st2 language gender) eqn:H2;
    [| discriminate].
  intros [= _ <-]. apply andb_prop in H2 as [_ H2]. exact H2.
Qed.

(** X10. When [ensure_model] reports success, the five required files exist
    under the model directory of the store it leaves, whether they were
    there before or have just been downloaded. *)
Theorem ensure_model_true_files_present (st st' : store)
    (language gender msg : string) (f : string) :
  ensure_model st language gender = ((true, msg), st') ->
  In f model_required_files ->
  path_exists (fs st') (get_model_path st' language gender /: f) = true.
Proof.
  intros H Hf. apply ensure_model_present in H.
  unfold model_exists_locally in H. rewrite forallb_forall in H.
  exact (H f Hf).
Qed.

(** X11. When [ensure_vocoder] reports success, [config.json] and [generator]
    exist under the directory that [get_vocoder_path] then returns. *)
Theorem ensure_vocoder_true_files_present (st st' : store)
    (language gender msg : string) (f : string) :
  ensure_vocoder st language gender = ((true, msg), st') ->
  In f vocoder_required_files ->
  path_exists (fs st') (get_vocoder_path st' language gender /: f) = true.
Proof.
  intros H Hf. apply ensure_vocoder_present in H.
  unfold vocoder_exists_locally in H. rewrite forallb_forall in H.
  exact (H f Hf).
Qed.

Lemma set_stats_file_raises (conf : yaml) (section v : string) (x : exn) :
  set_stats_file conf section v = Raise x -> x <> FileNotFoundError.
Proof.
  unfold set_stats_file.
  destruct conf as [| m]; [intros [= <-]; discriminate |].
  destruct (m !! section) as [[|] |]; intros [= <-]; discriminate.
Qed.

(** X12. The two existence checks of [load_fastspeech2] and the two of
    [load_vocoder] never fail: neither function raises
    [FileNotFoundError]. *)
Theorem load_never_file_not_found (e : engine) (language gender : string) :
  fst (load_fastspeech2 e language gender) <> Raise FileNotFoundError
  /\ fst (load_vocoder e language gender) <> Raise FileNotFoundError.
Proof.
  split.
  - unfold load_fastspeech2.
    destruct (ensure_model _ _ _) as [[success msg] st] eqn:Hens.
    destruct success; cbn [negb]; [| discriminate].
    pose proof (Hp := ensure_model_present _ _ _ _ _ Hens).
    unfold model_exists_locally, model_required_files in Hp.
    cbn [forallb] in Hp.
    apply andb_prop in Hp as [Hc [Hm _]%andb_prop].
    unfold build_fastspeech2. cbn [model_store set_store].
    rewrite Hc, Hm. cbn [negb].
    destruct (fs st !! _) as [[| [b | conf]] |]; try discriminate.
    destruct (set_stats_file conf _ _) as [c1 | x1] eqn:E1; cbn [mbind result_bind];
      [| cbn; intros [= ->]; exact (set_stats_file_raises _ _ _ _ E1 eq_refl)].
    destruct (set_stats_file c1 _ _) as [c2 | x2] eqn:E2; cbn [mbind result_bind];
      [| cbn; intros [= ->]; exact (set_stats_file_raises _ _ _ _ E2 eq_refl)].
    destruct (set_stats_file c2 _ _) as [c3 | x3] eqn:E3;
      [| cbn; intros [= ->]; exact (set_stats_file_raises _ _ _ _ E3 eq_refl)].
    unfold construct. cbn. discriminate.
  - unfold load_vocoder.
    destruct (ensure_vocoder _ _ _) as [[success msg] st] eqn:Hens.
    destruct success; cbn [negb]; [| discriminate].
    pose proof (Hp := ensure_vocoder_present _ _ _ _ _ Hens).
    unfold vocoder_exists_locally, vocoder_required_files in Hp.
    cbn [forallb] in Hp.
    apply andb_prop in Hp as [Hc [Hg _]%andb_prop].
    unfold build_vocoder. cbn [model_store set_store].
    rewrite Hc, Hg. cbn [negb].
    unfold construct.
    repeat match goal with
           | |- context [match ?x with _ => _ end] => destruct x
           end; cbn; discriminate.
Qed.

Lemma ensure_model_true_files_present_witness :
  let r := ensure_model (demo_store "/models") "hindi" "male" in
  fst r = (true, "Model exists locally"%string)
  /\ path_exists (fs (snd r))
       (get_model_path (snd r) "hindi" "male" /: "pitch_stats.npz") = true.
Proof.
  intros r.
  assert (H : ensure_model (demo_store "/models") "hindi" "male"
              = ((true, "Model exists locally"%string), snd r))
    by (vm_compute; reflexivity).
  split; [vm_compute; reflexivity |].
  apply (ensure_model_true_files_present _ _ _ _ _ _ H).
  right; right; right; left; reflexivity.
Defined.

Lemma ensure_vocoder_true_files_present_witness :
  let r := ensure_vocoder (demo_store "/models") "hindi" "male" in
  fst r = (true, "Vocoder exists locally"%string)
  /\ path_exists (fs (snd r))
       (get_vocoder_path (snd r) "hindi" "male" /: "generator") = true.
Proof.
  intros r.
  assert (H : ensure_vocoder (demo_store "/models") "hindi" "male"
              = ((true, "Vocoder exists locally"%string), snd r))
    by (vm_compute; reflexivity).
  split; [vm_compute; reflexivity |].
  apply (ensure_vocoder_true_files_present _ _ _ _ _ _ H).
  right; left; reflexivity.
Defined.

(** ** The cache only grows *)

Lemma build_fastspeech2_cache (e : engine) (language gender : string) :
  model_cache (snd (build_fastspeech2 e language gender)) = model_cache e.
Proof.
  unfold build_fastspeech2, construct.
  repeat match goal with
  | |- context [if ?b then _ else _] => destruct b
  | |- context [match ?x with _ => _ end] => destruct x
  end; reflexivity.
Qed.

Lemma build_vocoder_cache (e : engine) (language gender : string) :
  model_cache (snd (build_vocoder e language gender)) = model_cache e.
Proof.
  unfold build_vocoder, construct.
  repeat match goal with
  | |- context [if ?b then _ else _] => destruct b
  | |- context [match ?x with _ => _ end] => destruct x
  end; reflexivity.
Qed.

Lemma load_fastspeech2_cache (e : engine) (language gender : string) :
  model_cache (snd (load_fastspeech2 e language gender)) = model_cache e.
Proof.
  unfold load_fastspeech2.
  destruct (ensure_model _ _ _) as [[success msg] st].
  destruct success; cbn [negb]; [| reflexivity].
  rewrite build_fastspeech2_cache. reflexivity.
Qed.

Lemma load_vocoder_cache (e : engine) (language gender : string) :
  model_cache (snd (load_vocoder e language gender)) = model_cache e.
Proof.
  unfold load_vocoder.
  destruct (ensure_vocoder _ _ _) as [[success msg] st].
  destruct success; cbn [negb]; [| reflexivity].
  rewrite build_vocoder_cache. reflexivity.
Qed.

(** The cache after a call of [load_model]: the entry returned stands under
    the key, nothing else has changed; after a failure nothing has. *)
Lemma load_model_cache (e : engine) (language gender : string) :
  model_cache (snd (load_model e language gender))
  = match fst (load_model e language gender) with
    | Ok entry => <[(language, gender) := entry]> (model_cache e)
    | Raise _ => model_cache e
    end.
Proof.
  unfold load_model.
  destruct (model_cache e !! (language, gender)) as [entry |] eqn:Hhit.
  { cbn [fst snd]. symmetry. apply insert_id, Hhit. }
  pose proof (load_fastspeech2_cache e language gender) as H1.
  destruct (load_fastspeech2 e language gender) as [[fs2 | x] e1]; [| exact H1].
  pose proof (load_vocoder_cache e1 language gender) as H2.
  destruct (load_vocoder e1 language gender) as [[voc | x] e2];
    cbn [fst snd model_cache set_cache] in *; congruence.
Qed.

Lemma load_model_cache_grows (e : engine) (language gender : string) :
  model_cache e ⊆ model_cache (snd (load_model e language gender)).
Proof.
  rewrite load_model_cache.
  destruct (load_model e language gender) as [[entry | x] e'] eqn:Hload;
    cbn [fst]; [| reflexivity].
  destruct (model_cache e !! (language, gender)) as [old |] eqn:Hhit.
  - rewrite (load_model_cached _ _ _ _ Hhit) in Hload.
    injection Hload as <- _. rewrite insert_id by exact Hhit. reflexivity.
  - apply insert_subseteq, Hhit.
Qed.

Lemma preload_models_cache_grows (models : list (string * string)) (e : engine) :
  model_cache e ⊆ model_cache (_preload_models e models).
Proof.
  revert e. induction models as [| [l g] rest IH]; intros e; [reflexivity |].
  cbn [_preload_models]. etransitivity; [apply load_model_cache_grows | apply IH].
Qed.

(** X13. A failed [load_model] caches nothing: the cache is as before, so the
    next call for the key starts the load again. *)
Theorem load_model_failure_caches_nothing (e e' : engine)
    (language gender : string) (x : exn) :
  load_model e language gender = (Raise x, e') ->
  model_cache e' = model_cache e
  /\ model_cache e !! (language, gender) = None.
Proof.
  intros H. pose proof (load_model_cache e language gender) as Hc.
  rewrite H in Hc. split; [exact Hc |].
  destruct (model_cache e !! (language, gender)) as [entry |] eqn:Hhit;
    [| reflexivity].
  rewrite (load_model_cached _ _ _ _ Hhit) in H. discriminate.
Qed.

Lemma load_model_failure_caches_nothing_witness :
  let e := demo_engine "/models" in
  fst (load_model e "tamil" "male") = Raise RuntimeError
  /\ model_cache (snd (load_model e "tamil" "male")) = model_cache e.
Proof.
  intros e.
  assert (H : load_model e "tamil" "male"
              = (Raise RuntimeError, snd (load_model e "tamil" "male")))
    by (vm_compute; reflexivity).
  split; [vm_compute; reflexivity |].
  exact (proj1 (load_model_failure_caches_nothing _ _ _ _ _ H)).
Defined.

(** X14. Once [load_model] has returned a triple for a key, the triple stays:
    after any further sequence of loads, of any keys, failing or not,
    [load_model] for the key returns the same triple and changes nothing. *)
Theorem load_model_entry_is_kept (e e1 : engine) (language gender : string)
    (m : loaded) (later : list (string * string)) :
  load_model e language gender = (Ok m, e1) ->
  let e2 := _preload_models e1 later in
  load_model e2 language gender = (Ok m, e2).
Proof.
  intros H e2. apply load_model_cached.
  pose proof (load_model_cache e language gender) as Hc. rewrite H in Hc.
  cbn [fst snd] in Hc.
  apply (lookup_weaken (model_cache e1)); [| apply preload_models_cache_grows].
  rewrite Hc. apply lookup_insert_eq.
Qed.

Lemma load_model_entry_is_kept_witness :
  let e := demo_engine "/models" in
  let r := load_model e "hindi" "male" in
  let e2 := _preload_models (snd r) [("tamil", "male"); ("hindi", "female")]%string in
  is_ok (fst r) = true /\ fst (load_model e2 "hindi" "male") = fst r.
Proof.
  intros e r e2.
  pose (m := match fst r with
             | Ok m => m
             | Raise _ => (Handle 0 "" (YScalar ""), Handle 0 "" (YScalar ""),
                           StubPreprocessor)
             end).
  assert (H : load_model e "hindi" "male" = (Ok m, snd r))
    by (vm_compute; reflexivity).
  split; [vm_compute; reflexivity |].
  pose proof (load_model_entry_is_kept e (snd r) "hindi" "male" m
                [("tamil", "male"); ("hindi", "female")]%string H) as Hkept.
  cbn zeta in Hkept. unfold e2. rewrite Hkept. vm_compute. reflexivity.
Defined.

(** X15. Preloading never raises and only adds to the cache: every entry cached
    before is still there unchanged, and every key cached afterwards was
    cached before or is one of the listed keys. *)
Theorem preload_models_cache (models : list (string * string)) (e : engine) :
  let e' := _preload_models e models in
  model_cache e ⊆ model_cache e'
  /\ (forall k, is_Some (model_cache e' !! k) ->
        is_Some (model_cache e !! k) \/ In k models)
  /\ config e' = config e.
Proof.
  cbn zeta. split; [apply preload_models_cache_grows |].
  revert e. induction models as [| [l g] rest IH]; intros e.
  - cbn [_preload_models]. split; [intros k Hk; left; exact Hk | reflexivity].
  - cbn [_preload_models]. destruct (IH (snd (load_model e l g))) as [Hkeys Hconf].
    split; [| rewrite Hconf; apply load_model_config].
    intros k Hk. destruct (Hkeys k Hk) as [Hin | Hin]; [| right; right; exact Hin].
    rewrite load_model_cache in Hin.
    destruct (fst (load_model e l g)); [| left; exact Hin].
    destruct (decide (k = (l, g))) as [-> | Hne]; [right; left; reflexivity |].
    rewrite lookup_insert_ne in Hin by congruence. left. exact Hin.
Qed.

(** ** Nothing on disk is removed *)

Lemma fs_keeps_refl (f : filesystem) : fs_keeps f f.
Proof. intros k H. exact H. Qed.

Lemma fs_keeps_trans (f g h : filesystem) :
  fs_keeps f g -> fs_keeps g h -> fs_keeps f h.
Proof. intros H1 H2 k Hk. apply H2, H1, Hk. Qed.

Lemma fs_keeps_insert (f : filesystem) (k : string) (v : node) :
  fs_keeps f (<[k := v]> f).
Proof.
  intros k' Hk'. destruct (decide (k = k')) as [<- | Hne].
  - rewrite lookup_insert_eq. eauto.
  - rewrite lookup_insert_ne by exact Hne. exact Hk'.
Qed.

Lemma store_keeps_refl (st : store) : store_keeps st st.
Proof. split; [reflexivity | apply fs_keeps_refl]. Qed.

Lemma store_keeps_trans (a b c : store) :
  store_keeps a b -> store_keeps b c -> store_keeps a c.
Proof.
  intros [H1 H2] [H3 H4]. split; [congruence | exact (fs_keeps_trans _ _ _ H2 H4)].
Qed.

Lemma mkdir_go_keeps (rest pre : list string) (root : string) (f f' : filesystem) :
  mkdir_go f root pre rest = Some f' -> fs_keeps f f'.
Proof.
  revert pre f. induction rest as [| x rest IH]; intros pre f.
  - intros [= <-]. apply fs_keeps_refl.
  - cbn [mkdir_go]. destruct (f !! _) as [[| d] |] eqn:Hk; [| discriminate |].
    + apply IH.
    + intros H. apply IH in H.
      exact (fs_keeps_trans _ _ _ (fs_keeps_insert _ _ _) H).
Qed.

Lemma write_file_keeps (f f' : filesystem) (p : path) (d : fdata) :
  write_file f p d = Some f' -> fs_keeps f f'.
Proof.
  unfold write_file. destruct (f !! path_str p) as [[| d'] |];
    [discriminate | |]; intros [= <-]; apply fs_keeps_insert.
Qed.

Lemma download_blobs_keeps (blobs : list (string * fdata)) (st : store)
    (gcs_prefix : string) (local_path : path) :
  store_keeps st (snd (download_blobs st gcs_prefix local_path blobs)).
Proof.
  revert st. induction blobs as [| [name d] rest IH]; intros st;
    [apply store_keeps_refl |].
  cbn [download_blobs].
  destruct (ends_with_slash name); [apply IH |].
  destruct (String.eqb _ _); [apply IH |].
  destruct (mkdir_p (fs st) _) as [fs1 |] eqn:Hmk; [| apply store_keeps_refl].
  assert (H1 : store_keeps st (log_gcs (set_fs st fs1) (DownloadBlob name))).
  { split; [reflexivity |]. exact (mkdir_go_keeps _ _ _ _ _ Hmk). }
  destruct (write_file fs1 _ d) as [fs2 |] eqn:Hw; [| exact H1].
  eapply store_keeps_trans; [| apply IH].
  eapply store_keeps_trans; [exact H1 |].
  split; [reflexivity |]. exact (write_file_keeps _ _ _ _ Hw).
Qed.

Lemma download_from_gcs_keeps (st : store) (gcs_prefix : string)
    (local_path : path) :
  store_keeps st (snd (download_from_gcs st gcs_prefix local_path)).
Proof.
  unfold download_from_gcs.
  destruct (gcs_bucket st); [| apply store_keeps_refl].
  destruct (mkdir_p (fs st) local_path) as [fs1 |] eqn:Hmk;
    [| apply store_keeps_refl].
  assert (H1 : store_keeps st (log_gcs (set_fs st fs1) (ListBlobs gcs_prefix))).
  { split; [reflexivity |]. exact (mkdir_go_keeps _ _ _ _ _ Hmk). }
  destruct (negb (gcs_online st)); [exact H1 |].
  destruct (nonempty_list _); [| exact H1].
  eapply store_keeps_trans; [exact H1 | apply download_blobs_keeps].
Qed.

Lemma get_download_lock_keeps (st : store) (key : string) :
  store_keeps st (_get_download_lock st key).
Proof. split; [reflexivity | apply fs_keeps_refl]. Qed.

Lemma ensure_model_keeps (st : store) (language gender : string) :
  store_keeps st (snd (ensure_model st language gender)).
Proof.
  unfold ensure_model, ensure_model_locked.
  eapply store_keeps_trans;
    [apply (get_download_lock_keeps st (model_lock_key language gender)) |].
  set (st0 := _get_download_lock st _).
  destruct (model_exists_locally st0 language gender); [apply store_keeps_refl |].
  destruct (gcs_bucket st0); [| apply store_keeps_refl].
  pose proof (download_from_gcs_keeps st0
                (language +:+ "/" +:+ gender +:+ "/model")
                (get_model_path st0 language gender)) as H.
  destruct (download_from_gcs st0 _ _) as [ok st1]. cbn [snd] in H.
  destruct ok; [destruct (model_exists_locally st1 language gender) |]; exact H.
Qed.

Lemma ensure_vocoder_keeps (st : store) (language gender : string) :
  store_keeps st (snd (ensure_vocoder st language gender)).
Proof.
  unfold ensure_vocoder, ensure_vocoder_locked.
  eapply store_keeps_trans;
    [apply (get_download_lock_keeps st (vocoder_lock_key language gender)) |].
  set (st0 := _get_download_lock st _).
  destruct (vocoder_exists_locally st0 language gender); [apply store_keeps_refl |].
  destruct (gcs_bucket st0); [| apply store_keeps_refl].
  pose proof (download_from_gcs_keeps st0
                ("vocoder/" +:+ gender +:+ "/" +:+ language)
                (models_dir st0 /: "vocoder" /: gender /: language)) as H1.
  destruct (download_from_gcs st0 _ _) as [ok st1]. cbn [snd] in H1.
  destruct (ok && vocoder_exists_locally st1 language gender); [exact H1 |].
  pose proof (download_from_gcs_keeps st1
                ("vocoder/" +:+ gender +:+ "/aryan")
                (models_dir st1 /: "vocoder" /: gender /: "aryan")) as H2.
  destruct (download_from_gcs st1 _ _) as [ok2 st2]. cbn [snd] in H2.
  destruct (ok2 && vocoder_exists_locally st2 language gender);
    exact (store_keeps_trans _ _ _ H1 H2).
Qed.

Lemma build_fastspeech2_keeps (e : engine) (language gender : string) :
  store_keeps (model_store e)
    (model_store (snd (build_fastspeech2 e language gender))).
Proof.
  unfold build_fastspeech2, construct.
  repeat match goal with
  | |- context [if ?b then _ else _] => destruct b
  | |- context [match ?x with _ => _ end] => destruct x
  end; try apply store_keeps_refl.
  split; [reflexivity | apply fs_keeps_insert].
Qed.

Lemma build_vocoder_keeps (e : engine) (language gender : string) :
  store_keeps (model_store e)
    (model_store (snd (build_vocoder e language gender))).
Proof.
  unfold build_vocoder, construct.
  repeat match goal with
  | |- context [if ?b then _ else _] => destruct b
  | |- context [match ?x with _ => _ end] => destruct x
  end; apply store_keeps_refl.
Qed.

Lemma load_fastspeech2_keeps (e : engine) (language gender : string) :
  store_keeps (model_store e)
    (model_store (snd (load_fastspeech2 e language gender))).
Proof.
  unfold load_fastspeech2.
  pose proof (ensure_model_keeps (model_store e) language gender) as H.
  destruct (ensure_model _ _ _) as [[success msg] st]. cbn [snd] in H.
  destruct success; cbn [negb]; [| exact H].
  eapply store_keeps_trans; [exact H |].
  exact (build_fastspeech2_keeps (set_store e st) language gender).
Qed.

Lemma load_vocoder_keeps (e : engine) (language gender : string) :
  store_keeps (model_store e)
    (model_store (snd (load_vocoder e language gender))).
Proof.
  unfold load_vocoder.
  pose proof (ensure_vocoder_keeps (model_store e) language gender) as H.
  destruct (ensure_vocoder _ _ _) as [[success msg] st]. cbn [snd] in H.
  destruct success; cbn [negb]; [| exact H].
  eapply store_keeps_trans; [exact H |].
  exact (build_vocoder_keeps (set_store e st) language gender).
Qed.

Lemma load_model_keeps (e : engine) (language gender : string) :
  store_keeps (model_store e) (model_store (snd (load_model e language gender))).
Proof.
  unfold load_model.
  destruct (model_cache e !! (language, gender)); [apply store_keeps_refl |].
  pose proof (load_fastspeech2_keeps e language gender) as H1.
  destruct (load_fastspeech2 e language gender) as [[fs2 | x] e1]; [| exact H1].
  pose proof (load_vocoder_keeps e1 language gender) as H2.
  destruct (load_vocoder e1 language gender) as [[voc | x] e2];
    exact (store_keeps_trans _ _ _ H1 H2).
Qed.

Lemma preload_models_keeps (models : list (string * string)) (e : engine) :
  store_keeps (model_store e) (model_store (_preload_models e models)).
Proof.
  revert e. induction models as [| [l g] rest IH]; intros e;
    [apply store_keeps_refl |].
  cbn [_preload_models].
  exact (store_keeps_trans _ _ _ (load_model_keeps e l g) (IH _)).
Qed.

Lemma path_exists_keeps (f f' : filesystem) (p : path) :
  fs_keeps f f' -> path_exists f p = true -> path_exists f' p = true.
Proof.
  unfold path_exists. intros H Hp.
  apply bool_decide_eq_true_2, H. exact (bool_decide_eq_true_1 _ Hp).
Qed.

Lemma ensure_model_without_bucket (st : store) (language gender : string) :
  gcs_bucket st = None ->
  gcs_bucket (snd (ensure_model st language gender)) = None
  /\ gcs_log (snd (ensure_model st language gender)) = gcs_log st.
Proof.
  intros Hb. unfold ensure_model, ensure_model_locked.
  destruct (model_exists_locally _ language gender); [split; [exact Hb | reflexivity] |].
  cbn [gcs_bucket _get_download_lock]. rewrite Hb. split; [exact Hb | reflexivity].
Qed.

Lemma ensure_vocoder_without_bucket (st : store) (language gender : string) :
  gcs_bucket st = None ->
  gcs_bucket (snd (ensure_vocoder st language gender)) = None
  /\ gcs_log (snd (ensure_vocoder st language gender)) = gcs_log st.
Proof.
  intros Hb. unfold ensure_vocoder, ensure_vocoder_locked.
  destruct (vocoder_exists_locally _ language gender); [split; [exact Hb | reflexivity] |].
  cbn [gcs_bucket _get_download_lock]. rewrite Hb. split; [exact Hb | reflexivity].
Qed.

Lemma build_fastspeech2_gcs (e : engine) (language gender : string) :
  gcs_bucket (model_store (snd (build_fastspeech2 e language gender)))
  = gcs_bucket (model_store e)
  /\ gcs_log (model_store (snd (build_fastspeech2 e language gender)))
     = gcs_log (model_store e).
Proof.
  unfold build_fastspeech2, construct.
  repeat match goal with
  | |- context [if ?b then _ else _] => destruct b
  | |- context [match ?x with _ => _ end] => destruct x
  end; split; reflexivity.
Qed.

Lemma build_vocoder_gcs (e : engine) (language gender : string) :
  gcs_bucket (model_store (snd (build_vocoder e language gender)))
  = gcs_bucket (model_store e)
  /\ gcs_log (model_store (snd (build_vocoder e language gender)))
     = gcs_log (model_store e).
Proof.
  unfold build_vocoder, construct.
  repeat match goal with
  | |- context [if ?b then _ else _] => destruct b
  | |- context [match ?x with _ => _ end] => destruct x
  end; split; reflexivity.
Qed.

Lemma load_model_without_bucket (e : engine) (language gender : string) :
  gcs_bucket (model_store e) = None ->
  gcs_bucket (model_store (snd (load_model e language gender))) = None
  /\ gcs_log (model_store (snd (load_model e language gender)))
     = gcs_log (model_store e).
Proof.
  intros Hb. unfold load_model.
  destruct (model_cache e !! (language, gender)); [split; [exact Hb | reflexivity] |].
  assert (H1 : gcs_bucket (model_store (snd (load_fastspeech2 e language gender)))
               = None
               /\ gcs_log (model_store (snd (load_fastspeech2 e language gender)))
                  = gcs_log (model_store e)).
  { unfold load_fastspeech2.
    destruct (ensure_model_without_bucket (model_store e) language gender Hb)
      as [Hb1 Hl1].
    destruct (ensure_model _ _ _) as [[success msg] st]. cbn [snd] in Hb1, Hl1.
    destruct success; cbn [negb]; [| split; assumption].
    destruct (build_fastspeech2_gcs (set_store e st) language gender) as [Hb2 Hl2].
    cbn [model_store set_store] in Hb2, Hl2. rewrite Hb2, Hl2. split; assumption. }
  destruct (load_fastspeech2 e language gender) as [[fs2 | x] e1];
    cbn [snd] in H1; [| exact H1].
  destruct H1 as [Hb1 Hl1].
  assert (H2 : gcs_bucket (model_store (snd (load_vocoder e1 language gender)))
               = None
               /\ gcs_log (model_store (snd (load_vocoder e1 language gender)))
                  = gcs_log (model_store e1)).
  { unfold load_vocoder.
    destruct (ensure_vocoder_without_bucket (model_store e1) language gender Hb1)
      as [Hb2 Hl2].
    destruct (ensure_vocoder _ _ _) as [[success msg] st]. cbn [snd] in Hb2, Hl2.
    destruct success; cbn [negb]; [| split; assumption].
    destruct (build_vocoder_gcs (set_store e1 st) language gender) as [Hb3 Hl3].
    cbn [model_store set_store] in Hb3, Hl3. rewrite Hb3, Hl3. split; assumption. }
  destruct (load_vocoder e1 language gender) as [[voc | x] e2];
    cbn [snd model_store set_cache] in H2 |- *; destruct H2 as [Hb2 Hl2];
    (split; [exact Hb2 | congruence]).
Qed.

(** X16. Without a bucket nothing is downloaded and nothing on the local disk
    is removed: after a sequence of [load_model] calls, whatever the keys
    and whether the calls succeed, no request has been sent to a bucket,
    every path that existed still exists, and a model that was complete on
    disk stays complete. *)
Theorem loads_without_bucket_keep_paths (e : engine)
    (loads : list (string * string)) :
  gcs_bucket (model_store e) = None ->
  let e' := _preload_models e loads in
  gcs_log (model_store e') = gcs_log (model_store e)
  /\ (forall p, path_exists (fs (model_store e)) p = true ->
                path_exists (fs (model_store e')) p = true)
  /\ (forall language gender,
        model_exists_locally (model_store e) language gender = true ->
        model_exists_locally (model_store e') language gender = true).
Proof.
  intros Hb. cbn zeta. split.
  { revert e Hb. induction loads as [| [l g] rest IH]; intros e Hb; [reflexivity |].
    cbn [_preload_models].
    destruct (load_model_without_bucket e l g Hb) as [Hb1 Hl1].
    rewrite (IH _ Hb1). exact Hl1. }
  destruct (preload_models_keeps loads e) as [Hdir Hfs].
  split; [intros p; apply path_exists_keeps, Hfs |].
  intros language gender. unfold model_exists_locally, get_model_path.
  rewrite Hdir, !forallb_forall. intros H f Hf.
  exact (path_exists_keeps _ _ _ Hfs (H f Hf)).
Qed.

Lemma loads_without_bucket_keep_paths_witness :
  let e := demo_engine "/models" in
  let e' := _preload_models e [("tamil", "male"); ("hindi", "male")]%string in
  gcs_log (model_store e') = []
  /\ model_exists_locally (model_store e') "hindi" "male" = true.
Proof.
  intros e e'.
  destruct (loads_without_bucket_keep_paths e
              [("tamil", "male"); ("hindi", "male")]%string eq_refl)
    as (Hlog & _ & Hlocal).
  split; [exact Hlog |]. apply Hlocal. vm_compute. reflexivity.
Defined.

(** ** Missing artifacts, no bucket *)

(** X17. A key that is not cached, whose model files are not all on disk, with
    no bucket configured: [load_model] raises [RuntimeError]; nothing is
    constructed, cached or written, only the download lock of the key has
    been created. *)
Theorem load_model_missing_without_bucket (e : engine) (language gender : string) :
  model_cache e !! (language, gender) = None ->
  gcs_bucket (model_store e) = None ->
  model_exists_locally (model_store e) language gender = false ->
  load_model e language gender
  = (Raise RuntimeError,
     set_store e (_get_download_lock (model_store e)
                    (model_lock_key language gender))).
Proof.
  intros Hmiss Hbucket Hlocal.
  unfold load_model, load_fastspeech2, ensure_model, ensure_model_locked.
  rewrite Hmiss, model_exists_locally_lock, Hlocal.
  cbn [gcs_bucket _get_download_lock]. rewrite Hbucket. reflexivity.
Qed.

Lemma load_model_missing_without_bucket_witness :
  let e := demo_engine "/models" in
  fst (load_model e "tamil" "female") = Raise RuntimeError
  /\ fs (model_store (snd (load_model e "tamil" "female"))) = fs (model_store e)
  /\ next_object (snd (load_model e "tamil" "female")) = next_object e.
Proof.
  intros e.
  rewrite (load_model_missing_without_bucket e "tamil" "female");
    [repeat split | reflexivity | reflexivity | vm_compute; reflexivity].
Defined.

(** X18. The acoustic model loaded, the vocoder files not all on disk and no
    bucket configured: [load_model] raises [RuntimeError] and caches
    nothing, although an acoustic model object has been constructed; the
    next call constructs it again. *)
Theorem load_model_vocoder_missing_discards_model (e e1 : engine)
    (language gender : string) (h : handle) :
  model_cache e !! (language, gender) = None ->
  load_fastspeech2 e language gender = (Ok h, e1) ->
  gcs_bucket (model_store e1) = None ->
  vocoder_exists_locally (model_store e1) language gender = false ->
  exists e2,
    load_model e language gender = (Raise RuntimeError, e2)
    /\ model_cache e2 = model_cache e
    /\ next_object e2 = S (next_object e).
Proof.
  intros Hmiss Hfs2 Hbucket Hlocal.
  destruct (load_fastspeech2_effect _ _ _ _ _ Hfs2) as (Hnext & Hcache & _).
  unfold load_model. rewrite Hmiss, Hfs2.
  unfold load_vocoder, ensure_vocoder, ensure_vocoder_locked.
  rewrite vocoder_exists_locally_lock, Hlocal.
  cbn [gcs_bucket _get_download_lock]. rewrite Hbucket. cbn [negb].
  eexists. split; [reflexivity |]. split; [exact Hcache | exact Hnext].
Qed.

(** ** The vocoder directories *)

(** X19. A vocoder directory of the language that exists but lacks a required
    file hides the group vocoder: without a bucket [ensure_vocoder] fails,
    whatever the [aryan] directory holds. *)
Theorem incomplete_language_vocoder_hides_aryan (st : store)
    (language gender f : string) :
  let lang_vocoder := models_dir st /: "vocoder" /: gender /: language in
  path_exists (fs st) lang_vocoder = true ->
  In f vocoder_required_files ->
  path_exists (fs st) (lang_vocoder /: f) = false ->
  gcs_bucket st = None ->
  fst (ensure_vocoder st language gender)
  = (false, "Vocoder not found locally and GCS not configured"%string).
Proof.
  intros lang_vocoder Hdir Hf Hmissing Hbucket.
  unfold ensure_vocoder, ensure_vocoder_locked.
  rewrite vocoder_exists_locally_lock.
  assert (Hlocal : vocoder_exists_locally st language gender = false).
  { unfold vocoder_exists_locally, get_vocoder_path. fold lang_vocoder.
    rewrite Hdir. apply not_true_is_false. intros Hall.
    rewrite forallb_forall in Hall. rewrite (Hall f Hf) in Hmissing.
    discriminate. }
  rewrite Hlocal. cbn [gcs_bucket _get_download_lock]. rewrite Hbucket.
  reflexivity.
Qed.

(** X20. When the language has no vocoder directory and the [aryan] directory
    of the gender holds both files, [get_vocoder_path] is the [aryan]
    directory and [ensure_vocoder] succeeds without any download. *)
Theorem aryan_vocoder_fallback (st : store) (language gender : string) :
  let lang_vocoder := models_dir st /: "vocoder" /: gender /: language in
  let aryan := models_dir st /: "vocoder" /: gender /: "aryan" in
  path_exists (fs st) lang_vocoder = false ->
  path_exists (fs st) aryan = true ->
  path_exists (fs st) (aryan /: "config.json") = true ->
  path_exists (fs st) (aryan /: "generator") = true ->
  get_vocoder_path st language gender = aryan
  /\ ensure_vocoder st language gender
     = ((true, "Vocoder exists locally"%string),
        _get_download_lock st (vocoder_lock_key language gender)).
Proof.
  intros lang_vocoder aryan Hlang Haryan Hconf Hgen.
  assert (Hpath : get_vocoder_path st language gender = aryan).
  { unfold get_vocoder_path. fold lang_vocoder aryan. rewrite Hlang, Haryan.
    reflexivity. }
  split; [exact Hpath |].
  unfold ensure_vocoder, ensure_vocoder_locked.
  rewrite vocoder_exists_locally_lock.
  unfold vocoder_exists_locally, vocoder_required_files. rewrite Hpath.
  cbn [forallb]. rewrite Hconf, Hgen. reflexivity.
Qed.

Lemma load_model_vocoder_missing_discards_model_witness :
  let e := model_only_engine "/models" in
  exists e2,
    load_model e "hindi" "male" = (Raise RuntimeError, e2)
    /\ model_cache e2 = model_cache e
    /\ next_object e2 = 1%nat.
Proof.
  intros e.
  pose (r := load_fastspeech2 e "hindi" "male").
  pose (h := match fst r with Ok h => h | Raise _ => Handle 0 "" (YScalar "") end).
  apply (load_model_vocoder_missing_discards_model e (snd r) "hindi" "male" h).
  - reflexivity.
  - vm_compute. reflexivity.
  - vm_compute. reflexivity.
  - vm_compute. reflexivity.
Defined.

Lemma incomplete_language_vocoder_hides_aryan_witness :
  vocoder_exists_locally (aryan_store "/models") "hindi" "male" = true
  /\ fst (ensure_vocoder (shadowed_store "/models") "hindi" "male")
     = (false, "Vocoder not found locally and GCS not configured"%string).
Proof.
  split; [vm_compute; reflexivity |].
  apply (incomplete_language_vocoder_hides_aryan (shadowed_store "/models")
           "hindi" "male" "generator").
  - vm_compute. reflexivity.
  - right; left; reflexivity.
  - vm_compute. reflexivity.
  - reflexivity.
Defined.

Lemma aryan_vocoder_fallback_witness :
  get_vocoder_path (aryan_store "/models") "hindi" "male"
  = Path "/models" /: "vocoder" /: "male" /: "aryan"
  /\ fst (ensure_vocoder (aryan_store "/models") "hindi" "male")
     = (true, "Vocoder exists locally"%string).
Proof.
  destruct (aryan_vocoder_fallback (aryan_store "/models") "hindi" "male")
    as [Hpath Hens]; try (vm_compute; reflexivity).
  split; [exact Hpath | rewrite Hens; reflexivity].
Defined.

(** ** The shape of the chunks *)

Lemma join_In (sp : text) (l : list text) (c : N) :
  In c (join sp l) -> In c sp \/ exists w, In w l /\ In c w.
Proof.
  induction l as [| w l IH]; [intros [] |].
  destruct l as [| w' l].
  - intros H. right. exists w. split; [left; reflexivity | exact H].
  - change (join sp (w :: w' :: l)) with (w ++ sp ++ join sp (w' :: l)).
    intros [H | [H | H]%in_app_or]%in_app_or.
    + right. exists w. split; [left; reflexivity | exact H].
    + left. exact H.
    + destruct (IH H) as [Hsp | (v & Hv & Hc)]; [left; exact Hsp |].
      right. exists v. split; [right; exact Hv | exact Hc].
Qed.

Lemma join_nonempty (sp w : text) (l : list text) :
  w <> [] -> join sp (w :: l) <> [].
Proof.
  intros Hw. destruct l as [| w' l]; [exact Hw |].
  change (join sp (w :: w' :: l)) with (w ++ sp ++ join sp (w' :: l)).
  destruct w; [contradiction | discriminate].
Qed.

Lemma spoken_chunk_well_formed (alpha : float) (ws : list text) :
  ws <> [] -> Forall sentence_word ws ->
  well_formed_chunk (Chunk (join (str " ") ws) alpha false None).
Proof.
  intros Hne Hws. unfold well_formed_chunk. cbn [is_silence chunk_text silence_duration].
  split; [reflexivity |]. split.
  - destruct ws as [| w ws]; [contradiction |].
    apply join_nonempty. apply Forall_inv in Hws. apply Hws.
  - split.
    + rewrite split_ws_join; [reflexivity |].
      eapply Forall_impl; [exact Hws |]. intros w [Hw _]. exact Hw.
    + intros H. apply join_In in H as [H | (w & Hw & Hc)].
      * cbn in H. destruct H as [H | []]. discriminate.
      * rewrite Forall_forall in Hws. apply list_elem_of_In in Hw.
        destruct (Hws w Hw) as [_ Hno]. exact (Hno Hc).
Qed.

Lemma flush_well_formed (alpha : float) (buffer : list text)
    (chunks : list chunk) :
  Forall sentence_word buffer -> Forall well_formed_chunk chunks ->
  Forall well_formed_chunk
    (if nonempty_list buffer
     then chunks ++ [Chunk (join (str " ") buffer) alpha false None]
     else chunks).
Proof.
  intros Hb Hc. destruct buffer as [| w b]; [exact Hc |]. cbn [nonempty_list].
  apply Forall_app. split; [exact Hc |]. constructor; [| constructor].
  apply spoken_chunk_well_formed; [discriminate | exact Hb].
Qed.

Lemma words_loop_well_formed (alpha : float) (ph : gmap text float)
    (words buffer : list text) (chunks : list chunk) :
  Forall sentence_word words -> Forall sentence_word buffer ->
  Forall well_formed_chunk chunks ->
  Forall sentence_word (fst (words_loop alpha ph words buffer chunks))
  /\ Forall well_formed_chunk (snd (words_loop alpha ph words buffer chunks)).
Proof.
  intros Hwords. revert buffer chunks.
  induction Hwords as [| w words Hw _ IH]; intros buffer chunks Hb Hc;
    [split; assumption |].
  cbn [words_loop]. destruct (ph !! w) as [d |].
  - apply IH; [constructor |]. apply Forall_app. split.
    + apply flush_well_formed; assumption.
    + constructor; [| constructor]. split; [reflexivity | eauto].
  - apply IH; [| exact Hc]. apply Forall_app. split; [exact Hb |].
    constructor; [exact Hw | constructor].
Qed.

Lemma sentence_words_good (s : text) :
  ~ In 46 s -> Forall sentence_word (split_ws s).
Proof.
  intros Hno. pose proof (split_ws_words s) as Hw.
  rewrite Forall_forall in *. intros w Hin. split; [exact (Hw w Hin) |].
  intros Hc. apply Hno. apply list_elem_of_In in Hin.
  unfold split_ws in Hin. apply List.filter_In in Hin as [Hin _].
  apply (split_on_pieces _ _ _ _ Hin Hc).
Qed.

Lemma sentences_loop_well_formed (alpha : float) (ph : gmap text float)
    (sentences : list text) (chunks : list chunk) :
  Forall (fun s => ~ In 46 s) sentences ->
  Forall well_formed_chunk chunks ->
  Forall well_formed_chunk (sentences_loop alpha ph sentences chunks).
Proof.
  intros Hs. revert chunks.
  induction Hs as [| s sentences Hno _ IH]; intros chunks Hc; [exact Hc |].
  cbn [sentences_loop].
  destruct (words_loop_well_formed alpha ph (split_ws s) [] chunks)
    as [Hb Hc']; [apply sentence_words_good, Hno | constructor | exact Hc |].
  destruct (words_loop alpha ph (split_ws s) [] chunks) as [buffer chunks1].
  apply IH, flush_well_formed; assumption.
Qed.

Lemma block_sentences_no_period (block : text) :
  Forall (fun s => ~ In 46 s)
    (List.map strip
       (List.filter (fun s => nonempty (strip s)) (split_char 46 block))).
Proof.
  apply Forall_forall. intros s Hs. apply list_elem_of_In in Hs.
  apply in_map_iff in Hs as (piece & <- & Hp).
  apply List.filter_In in Hp as [Hp _].
  intros Hc. apply strip_In in Hc.
  destruct (split_on_pieces _ _ _ _ Hp Hc) as [Hne _]. discriminate.
Qed.

Lemma process_block_well_formed (alpha : float) (block : text)
    (cs : list chunk) :
  process_block alpha block [] = Ok cs -> Forall well_formed_chunk cs.
Proof.
  unfold process_block.
  destruct (sil_loop 0 _ ∅ block) as [[ph block'] | x]; [| discriminate].
  cbn [mbind result_bind]. intros [= <-].
  apply sentences_loop_well_formed; [apply block_sentences_no_period | constructor].
Qed.

Lemma speed_scoped_well_formed (pieces : list text) (cs : list chunk) :
  speed_scoped pieces = Ok cs -> Forall well_formed_chunk cs.
Proof.
  revert cs. induction pieces as [| num | num block rest IH] using list_pair_ind;
    intros cs.
  - intros [= <-]. constructor.
  - cbn [speed_scoped]. destruct (py_float num) as [a |]; [| discriminate].
    apply process_block_well_formed.
  - cbn [speed_scoped]. destruct (py_float num) as [a |]; [| discriminate].
    cbn [mbind result_bind].
    destruct (process_block a block []) as [cs1 |] eqn:H1; [| discriminate].
    cbn [mbind result_bind].
    destruct (speed_scoped rest) as [more |]; [| discriminate].
    intros [= <-]. apply Forall_app. split.
    + exact (process_block_well_formed _ _ _ H1).
    + apply IH. reflexivity.
Qed.

Lemma extract_well_formed (text0 : text) (default_alpha : float)
    (chunks : list chunk) :
  extract_text_alpha_chunks text0 default_alpha = Ok chunks ->
  Forall well_formed_chunk chunks.
Proof.
  rewrite extract_by_scope.
  destruct (re_split_alpha_shape text0) as (block & tagged & ->).
  cbn [segment_by_scope].
  destruct (process_block default_alpha block []) as [cs1 |] eqn:H1;
    [| discriminate].
  cbn [mbind result_bind].
  destruct (speed_scoped tagged) as [more |] eqn:H2; [| discriminate].
  intros [= <-]. apply Forall_app. split.
  - exact (process_block_well_formed _ _ _ H1).
  - exact (speed_scoped_well_formed _ _ H2).
Qed.

Lemma strip_nonempty_words (x : text) :
  nonempty (strip x) = true -> split_ws x <> [].
Proof.
  intros Hne. rewrite <- split_ws_strip.
  destruct (strip_trimmed x) as [Hl _].
  destruct (strip x) as [| c r]; [discriminate |].
  pose proof (lstrip_head _ _ _ Hl) as Hc.
  unfold split_ws. cbn [split_on]. rewrite Hc.
  destruct (split_on_shape is_space r) as (h & t & ->). discriminate.
Qed.

Lemma words_nonblank (x : text) : split_ws x <> [] -> nonempty (strip x) = true.
Proof.
  intros H. destruct (nonempty (strip x)) eqn:E; [reflexivity |].
  exfalso. apply H, split_ws_blank, E.
Qed.

(** X23. Every chunk that [extract_text_alpha_chunks] returns is a silence with
    no text and a duration, or a spoken chunk with no duration whose text
    holds a word, is its own words joined by single spaces and has no
    period; so [synthesize] never skips a chunk for being blank. *)
Theorem extract_chunks_well_formed (text0 : text) (default_alpha : float)
    (chunks : list chunk) (c : chunk) :
  extract_text_alpha_chunks text0 default_alpha = Ok chunks ->
  In c chunks ->
  well_formed_chunk c
  /\ (is_silence c = false -> nonempty (strip (chunk_text c)) = true).
Proof.
  intros H Hc. pose proof (extract_well_formed _ _ _ H) as Hall.
  rewrite Forall_forall in Hall. apply list_elem_of_In in Hc.
  specialize (Hall c Hc). split; [exact Hall |].
  intros Hsil. unfold well_formed_chunk in Hall. rewrite Hsil in Hall.
  destruct Hall as (_ & Hne & Hjoin & _).
  apply words_nonblank. intros E. rewrite E in Hjoin. cbn in Hjoin.
  exact (Hne (eq_sym Hjoin)).
Qed.

Lemma extract_chunks_well_formed_witness :
  let t := str " Hello,   world. <sil=500ms><alpha=1.5> Bye " in
  let c := Chunk (str "Hello, world") f1_0 false None in
  well_formed_chunk c.
Proof.
  intros t c.
  pose (chunks := [c; Chunk [] f1_0 true (Some f0_5);
                   Chunk (str "Bye") (float_of_decimal (str "1") (str "5"))
                     false None]).
  assert (H : extract_text_alpha_chunks t f1_0 = Ok chunks)
    by (vm_compute; reflexivity).
  exact (proj1 (extract_chunks_well_formed t f1_0 chunks c H
                  (or_introl eq_refl))).
Defined.

(** ** Text without tags *)

Lemma words_loop_no_placeholder (alpha : float) (words buffer : list text)
    (chunks : list chunk) :
  words_loop alpha ∅ words buffer chunks = (buffer ++ words, chunks).
Proof.
  revert buffer. induction words as [| w words IH]; intros buffer.
  - rewrite app_nil_r. reflexivity.
  - cbn [words_loop]. rewrite lookup_empty, IH, <- app_assoc. reflexivity.
Qed.

Lemma sentences_loop_no_placeholder (alpha : float) (pieces : list text)
    (chunks : list chunk) :
  sentences_loop alpha ∅
    (List.map strip (List.filter (fun s => nonempty (strip s)) pieces)) chunks
  = chunks
    ++ List.map (sentence_chunk alpha)
         (List.filter (fun s => nonempty (strip s)) pieces).
Proof.
  revert chunks. induction pieces as [| s pieces IH]; intros chunks.
  - cbn. rewrite app_nil_r. reflexivity.
  - cbn [List.filter]. destruct (nonempty (strip s)) eqn:Hs; [| apply IH].
    cbn [List.map sentences_loop].
    rewrite words_loop_no_placeholder, split_ws_strip. cbn [app].
    pose proof (strip_nonempty_words s Hs) as Hw.
    destruct (split_ws s) as [| w ws] eqn:E; [contradiction |].
    cbn [nonempty_list]. rewrite IH, <- app_assoc.
    unfold sentence_chunk at 2. rewrite E. reflexivity.
Qed.

Lemma re_split_alpha_plain (s : text) :
  forallb not_lt s = true -> re_split_alpha s = [s].
Proof.
  induction s as [| c s IH]; [reflexivity |]. cbn [forallb].
  intros [Hc Hs]%andb_prop.
  rewrite re_split_alpha_char, (IH Hs); [reflexivity |].
  apply match_alpha_not_lt. intros ->. discriminate.
Qed.

Lemma re_finditer_sil_plain (s : text) :
  forallb not_lt s = true -> re_finditer_sil s = [].
Proof.
  induction s as [| c s IH]; [reflexivity |]. cbn [forallb].
  intros [Hc Hs]%andb_prop.
  rewrite re_finditer_sil_char; [exact (IH Hs) |].
  apply match_sil_not_lt. intros ->. discriminate.
Qed.

Lemma extract_plain (text0 : text) (default_alpha : float) :
  forallb not_lt text0 = true ->
  extract_text_alpha_chunks text0 default_alpha
  = Ok (List.map (sentence_chunk default_alpha) (plain_sentences text0)).
Proof.
  intros Hplain. rewrite extract_by_scope, (re_split_alpha_plain _ Hplain).
  cbn [segment_by_scope speed_scoped]. unfold process_block.
  rewrite (re_finditer_sil_plain _ Hplain). cbn [sil_loop mbind result_bind].
  rewrite sentences_loop_no_placeholder, app_nil_r. reflexivity.
Qed.

(** X24. A text without the character [<] has no tag: segmentation does not
    fail and gives one spoken chunk, at the default speed, for every piece
    between periods that holds a word, its words joined by single spaces. *)
Theorem extract_text_without_tags (text0 : text) (default_alpha : float) :
  ~ In 60 text0 ->
  extract_text_alpha_chunks text0 default_alpha
  = Ok (List.map (sentence_chunk default_alpha) (plain_sentences text0)).
Proof.
  intros Hno. apply extract_plain, forallb_forall. intros c Hc.
  unfold not_lt. destruct (N.eqb_spec c 60) as [-> | _]; [contradiction | reflexivity].
Qed.

Lemma extract_text_without_tags_witness :
  extract_text_alpha_chunks (str "  Good   day. . How are you? ") f1_0
  = Ok [Chunk (str "Good day") f1_0 false None;
        Chunk (str "How are you?") f1_0 false None].
Proof.
  rewrite (extract_text_without_tags (str "  Good   day. . How are you? ") f1_0).
  - vm_compute. reflexivity.
  - intros H. vm_compute in H.
    repeat (destruct H as [H | H]; [discriminate |]). exact H.
Defined.

Lemma filter_none {A} (f : A -> bool) (l : list A) :
  (forall x, In x l -> f x = false) -> List.filter f l = [].
Proof.
  induction l as [| x l IH]; [reflexivity |]. intros H. cbn [List.filter].
  rewrite (H x (or_introl eq_refl)). apply IH. intros y Hy. apply H. right. exact Hy.
Qed.

Lemma plain_sentences_blank (text0 : text) :
  forallb (fun c => is_space c || (c =? 46)) text0 = true ->
  plain_sentences text0 = [].
Proof.
  intros Hblank. unfold plain_sentences.
  apply filter_none. intros piece Hpiece. unfold split_char in Hpiece.
  destruct (strip piece) as [| c r] eqn:Hs; [reflexivity |]. exfalso.
  assert (Hc : In c piece) by (apply strip_In; rewrite Hs; left; reflexivity).
  destruct (split_on_pieces _ _ _ _ Hpiece Hc) as [Hne Hin].
  rewrite forallb_forall in Hblank. specialize (Hblank c Hin).
  destruct (strip_trimmed piece) as [Hl _]. rewrite Hs in Hl.
  rewrite (lstrip_head _ _ _ Hl) in Hblank. cbn [orb] in Hblank.
  apply N.eqb_eq in Hblank. subst c. discriminate.
Qed.

(** ** Errors and empty results of [synthesize] *)

Section SynthesisErrors.

Variable preprocess : preprocessor -> text -> string -> string -> result (list text).
Variable synthesize_chunk : text -> handle -> handle -> float -> result (list Z).
Variable np_alloc : Z -> option exn.

Let submit := submit_loop preprocess synthesize_chunk np_alloc.
Let audios_of := chunks_audio preprocess synthesize_chunk np_alloc.
Let run_synthesize := synthesize preprocess synthesize_chunk np_alloc.

Lemma synthesize_loaded (e e1 : engine) (text0 : text) (language gender : string)
    (alpha : float) (m : loaded) :
  (Z.of_nat (length text0) <= max_text_length (config e))%Z ->
  load_model (log_call e (CallLoadModel language gender)) language gender
  = (Ok m, e1) ->
  run_synthesize e text0 language gender alpha
  = (text_alpha_chunks ← extract_text_alpha_chunks text0 alpha;
     futures ← submit (sampling_rate (config e)) language gender m
                 text_alpha_chunks [];
     audio_arr ← collect_loop futures [];
     if negb (nonempty_list audio_arr)
     then silence_samples ← int_of_scaled f0_5 (sampling_rate (config e));
          np_zeros np_alloc silence_samples
     else Ok (concat audio_arr),
     log_call e1 (CallExtract text0)).
Proof.
  intros Hlen Hload. unfold run_synthesize, submit, synthesize.
  destruct (Z.ltb_spec (max_text_length (config e)) (Z.of_nat (length text0)));
    [lia |].
  rewrite Hload.
  pose proof (load_model_config (log_call e (CallLoadModel language gender))
                language gender) as Hconf.
  rewrite Hload in Hconf. cbn [snd config log_call] in Hconf.
  cbn [config log_call]. rewrite Hconf. reflexivity.
Qed.

(** X25. A text with a tag whose number [float] rejects makes [synthesize] raise
    [ValueError], but only after the model has been loaded: the load is
    recorded before the segmentation, and the model stays in the cache. *)
Theorem synthesize_malformed_tag_after_load (e e1 : engine) (text0 : text)
    (language gender : string) (alpha : float) (m : loaded) (v : text) :
  (Z.of_nat (length text0) <= max_text_length (config e))%Z ->
  load_model (log_call e (CallLoadModel language gender)) language gender
  = (Ok m, e1) ->
  In v (tag_values text0) ->
  py_float v = Raise ValueError ->
  let r := run_synthesize e text0 language gender alpha in
  fst r = Raise ValueError
  /\ snd r = log_call e1 (CallExtract text0)
  /\ model_cache (snd r) !! (language, gender) = Some m.
Proof.
  intros Hlen Hload Hin Hbad. cbn zeta.
  rewrite (synthesize_loaded _ _ _ _ _ _ _ Hlen Hload).
  rewrite (malformed_tag_value_fails _ alpha _ Hin Hbad).
  cbn [fst snd mbind result_bind model_cache log_call].
  repeat split.
  pose proof (load_model_cache (log_call e (CallLoadModel language gender))
                language gender) as Hc.
  rewrite Hload in Hc. cbn [fst snd] in Hc. rewrite Hc. apply lookup_insert_eq.
Qed.

(** X26. A text of whitespace and periods only, within the length limit and with
    the model loaded: [synthesize] returns half a second of silence,
    [rate // 2] zeros, when [np.zeros] can make that array; the lack of
    words is no error. *)
Theorem synthesize_text_without_words (e e1 : engine) (text0 : text)
    (language gender : string) (alpha : float) (m : loaded) :
  let rate := sampling_rate (config e) in
  (0 <= rate < 2 ^ 53)%Z ->
  np_alloc (rate / 2) = None ->
  (Z.of_nat (length text0) <= max_text_length (config e))%Z ->
  load_model (log_call e (CallLoadModel language gender)) language gender
  = (Ok m, e1) ->
  forallb (fun c => is_space c || (c =? 46)) text0 = true ->
  fst (run_synthesize e text0 language gender alpha)
  = Ok (repeat 0%Z (Z.to_nat (rate / 2))).
Proof.
  intros rate Hrate Halloc Hlen Hload Hblank.
  rewrite (synthesize_loaded _ _ _ _ _ _ _ Hlen Hload).
  rewrite extract_plain, (plain_sentences_blank _ Hblank).
  2: { apply forallb_forall. intros c Hc. rewrite forallb_forall in Hblank.
       specialize (Hblank c Hc). unfold not_lt.
       destruct (N.eqb_spec c 60) as [-> | _]; [discriminate | reflexivity]. }
  unfold submit. cbn [List.map mbind result_bind submit_loop collect_loop
                     nonempty_list negb fst].
  fold rate. rewrite (int_of_scaled_half rate Hrate). cbn [mbind result_bind].
  unfold np_zeros. rewrite Halloc.
  destruct (Z.ltb_spec (rate / 2) 0) as [Hneg | _]; [| reflexivity].
  pose proof (Z.div_pos rate 2). lia.
Qed.

Lemma submit_loop_acc (rate : Z) (language gender : string) (m : loaded)
    (chunks : list chunk) (futures : list future_item) :
  submit rate language gender m chunks futures
  = (new ← submit rate language gender m chunks []; Ok (futures ++ new)).
Proof.
  unfold submit. revert futures.
  induction chunks as [| c rest IH]; intros futures.
  - cbn. rewrite app_nil_r. reflexivity.
  - cbn [submit_loop]. destruct (is_silence c).
    + destruct (silence_duration c) as [d |]; [| reflexivity].
      destruct (int_of_scaled d rate) as [n |]; [| reflexivity].
      cbn [mbind result_bind].
      destruct (np_zeros np_alloc n) as [z |]; [| reflexivity]. cbn [mbind result_bind].
      rewrite (IH (futures ++ _)), (IH ([] ++ _)).
      destruct (submit_loop _ _ _ rate language gender m rest []); cbn;
        [rewrite <- app_assoc |]; reflexivity.
    + destruct (negb (nonempty (strip (chunk_text c)))); [apply IH |].
      destruct m as [[model vocoder] pre].
      destruct (preprocess pre (chunk_text c) language gender) as [toks |];
        [| reflexivity].
      cbn [mbind result_bind].
      rewrite (IH (futures ++ _)), (IH ([] ++ _)).
      destruct (submit_loop _ _ _ rate language gender (model, vocoder, pre) rest []);
        cbn; [rewrite <- app_assoc |]; reflexivity.
Qed.

Lemma submit_loop_app (rate : Z) (language gender : string) (m : loaded)
    (before after : list chunk) (futures : list future_item) :
  submit rate language gender m (before ++ after) futures
  = (f ← submit rate language gender m before futures;
     submit rate language gender m after f).
Proof.
  unfold submit. revert futures.
  induction before as [| c rest IH]; intros futures; [reflexivity |].
  cbn [app submit_loop]. destruct (is_silence c).
  - destruct (silence_duration c) as [d |]; [| reflexivity].
    destruct (int_of_scaled d rate) as [n |]; [| reflexivity].
    cbn [mbind result_bind].
    destruct (np_zeros np_alloc n) as [z |]; [| reflexivity]. cbn [mbind result_bind].
    apply IH.
  - destruct (negb (nonempty (strip (chunk_text c)))); [apply IH |].
    destruct m as [[model vocoder] pre].
    destruct (preprocess pre (chunk_text c) language gender) as [toks |];
      [| reflexivity].
    cbn [mbind result_bind]. apply IH.
Qed.

(** X27. An exception of the preprocessor ends [synthesize] at once, in the
    loop that submits the chunks: it is the exception raised, even when
    the synthesis of an earlier chunk has failed, since no result has been
    collected yet. *)
Theorem synthesize_preprocess_error_wins (e e1 : engine) (text0 : text)
    (language gender : string) (alpha : float) (m : loaded)
    (before after : list chunk) (c : chunk) (futures : list future_item)
    (x : exn) :
  (Z.of_nat (length text0) <= max_text_length (config e))%Z ->
  load_model (log_call e (CallLoadModel language gender)) language gender
  = (Ok m, e1) ->
  extract_text_alpha_chunks text0 alpha = Ok (before ++ c :: after) ->
  submit (sampling_rate (config e)) language gender m before [] = Ok futures ->
  is_silence c = false ->
  nonempty (strip (chunk_text c)) = true ->
  preprocess (snd m) (chunk_text c) language gender = Raise x ->
  fst (run_synthesize e text0 language gender alpha) = Raise x.
Proof.
  intros Hlen Hload Hseg Hbefore Hsil Htext Hpre.
  rewrite (synthesize_loaded _ _ _ _ _ _ _ Hlen Hload), Hseg.
  cbn [mbind result_bind fst].
  rewrite submit_loop_app, Hbefore. cbn [mbind result_bind].
  unfold submit. cbn [submit_loop]. rewrite Hsil, Htext. cbn [negb].
  destruct m as [[model vocoder] pre]. cbn [snd] in Hpre. rewrite Hpre.
  reflexivity.
Qed.

(** X28. When every chunk has been submitted, the results are collected in
    chunk order: if the chunks before [c] all yield their audio and the
    synthesis of [c] fails, [synthesize] raises the exception of [c],
    whatever became of the chunks after it. *)
Theorem synthesize_first_failed_chunk (e e1 : engine) (text0 : text)
    (language gender : string) (alpha : float) (m : loaded)
    (before after : list chunk) (c : chunk) (bufs : list (list Z))
    (toks : list text) (later : list future_item) (x : exn) :
  (Z.of_nat (length text0) <= max_text_length (config e))%Z ->
  load_model (log_call e (CallLoadModel language gender)) language gender
  = (Ok m, e1) ->
  extract_text_alpha_chunks text0 alpha = Ok (before ++ c :: after) ->
  audios_of (sampling_rate (config e)) language gender m before = Ok bufs ->
  is_silence c = false ->
  nonempty (strip (chunk_text c)) = true ->
  preprocess (snd m) (chunk_text c) language gender = Ok toks ->
  synthesize_chunk (join (str " ") toks) (fst (fst m)) (snd (fst m))
    (chunk_alpha c) = Raise x ->
  submit (sampling_rate (config e)) language gender m after [] = Ok later ->
  fst (run_synthesize e text0 language gender alpha) = Raise x.
Proof.
  intros Hlen Hload Hseg Hbefore Hsil Htext Hpre Hsyn Hafter.
  rewrite (synthesize_loaded _ _ _ _ _ _ _ Hlen Hload), Hseg.
  cbn [mbind result_bind fst].
  destruct (submit_collect_ok preprocess synthesize_chunk np_alloc _ _ _ _ _ _ Hbefore [])
    as (new & Hsub & Hcol).
  fold submit in Hsub. cbn [app] in Hsub.
  rewrite submit_loop_app, Hsub. cbn [mbind result_bind].
  unfold submit. cbn [submit_loop]. rewrite Hsil, Htext. cbn [negb].
  destruct m as [[model vocoder] pre]. cbn [fst snd] in Hpre, Hsyn.
  rewrite Hpre. cbn [mbind result_bind]. rewrite Hsyn.
  pose proof (submit_loop_acc (sampling_rate (config e)) language gender
                (model, vocoder, pre) after (new ++ [Future (Raise x)])) as Hacc.
  unfold submit in Hacc, Hafter. rewrite Hacc, Hafter.
  cbn [mbind result_bind].
  rewrite <- app_assoc, collect_loop_app, Hcol. cbn. reflexivity.
Qed.

End SynthesisErrors.

Lemma synthesize_malformed_tag_after_load_witness :
  let e := demo_engine "/models" in
  let r := synthesize demo_pre demo_synth demo_alloc e (str "Hi <alpha=1.2.3>there")
             "hindi" "male" f1_0 in
  fst r = Raise ValueError
  /\ is_Some (model_cache (snd r) !! ("hindi", "male")%string).
Proof.
  intros e r.
  pose (l := load_model (log_call e (CallLoadModel "hindi" "male"))
               "hindi" "male").
  pose (m := match fst l with
             | Ok m => m
             | Raise _ => (Handle 0 "" (YScalar ""), Handle 0 "" (YScalar ""),
                           StubPreprocessor)
             end).
  destruct (synthesize_malformed_tag_after_load demo_pre demo_synth demo_alloc e (snd l)
              (str "Hi <alpha=1.2.3>there") "hindi" "male" f1_0 m (str "1.2.3"))
    as (Hr & _ & Hc).
  - vm_compute. discriminate.
  - vm_compute. reflexivity.
  - vm_compute. left. reflexivity.
  - vm_compute. reflexivity.
  - split; [exact Hr | exact (ex_intro _ m Hc)].
Defined.

Lemma synthesize_text_without_words_witness :
  fst (synthesize demo_pre demo_synth demo_alloc (demo_engine "/models") (str " .. . ")
         "hindi" "male" f1_0)
  = Ok (repeat 0%Z (Z.to_nat (22050 / 2))).
Proof.
  pose (e := demo_engine "/models").
  pose (l := load_model (log_call e (CallLoadModel "hindi" "male"))
               "hindi" "male").
  pose (m := match fst l with
             | Ok m => m
             | Raise _ => (Handle 0 "" (YScalar ""), Handle 0 "" (YScalar ""),
                           StubPreprocessor)
             end).
  apply (synthesize_text_without_words demo_pre demo_synth demo_alloc e (snd l)
           (str " .. . ") "hindi" "male" f1_0 m).
  - vm_compute. split; [discriminate | reflexivity].
  - vm_compute. reflexivity.
  - vm_compute. discriminate.
  - vm_compute. reflexivity.
  - vm_compute. reflexivity.
Defined.

Lemma synthesize_preprocess_error_wins_witness :
  fst (synthesize picky_pre failing_synth demo_alloc (demo_engine "/models")
         (str "boom. bad. fine") "hindi" "male" f1_0)
  = Raise ValueError.
Proof.
  pose (e := demo_engine "/models").
  pose (l := load_model (log_call e (CallLoadModel "hindi" "male"))
               "hindi" "male").
  pose (m := match fst l with
             | Ok m => m
             | Raise _ => (Handle 0 "" (YScalar ""), Handle 0 "" (YScalar ""),
                           StubPreprocessor)
             end).
  apply (synthesize_preprocess_error_wins picky_pre failing_synth demo_alloc e (snd l)
           (str "boom. bad. fine") "hindi" "male" f1_0 m
           [Chunk (str "boom") f1_0 false None]
           [Chunk (str "fine") f1_0 false None]
           (Chunk (str "bad") f1_0 false None)
           [Future (Raise RuntimeError)]).
  - vm_compute. discriminate.
  - vm_compute. reflexivity.
  - vm_compute. reflexivity.
  - vm_compute. reflexivity.
  - reflexivity.
  - reflexivity.
  - reflexivity.
Defined.

Lemma synthesize_first_failed_chunk_witness :
  fst (synthesize picky_pre failing_synth demo_alloc (demo_engine "/models")
         (str "fine. boom. crash") "hindi" "male" f1_0)
  = Raise RuntimeError.
Proof.
  pose (e := demo_engine "/models").
  pose (l := load_model (log_call e (CallLoadModel "hindi" "male"))
               "hindi" "male").
  pose (m := match fst l with
             | Ok m => m
             | Raise _ => (Handle 0 "" (YScalar ""), Handle 0 "" (YScalar ""),
                           StubPreprocessor)
             end).
  apply (synthesize_first_failed_chunk picky_pre failing_synth demo_alloc e (snd l)
           (str "fine. boom. crash") "hindi" "male" f1_0 m
           [Chunk (str "fine") f1_0 false None]
           [Chunk (str "crash") f1_0 false None]
           (Chunk (str "boom") f1_0 false None)
           [repeat 1%Z 4] [str "boom"] [Future (Raise OverflowError)]).
  - vm_compute. discriminate.
  - vm_compute. reflexivity.
  - vm_compute. reflexivity.
  - vm_compute. reflexivity.
  - reflexivity.
  - reflexivity.
  - reflexivity.
  - vm_compute. reflexivity.
  - vm_compute. reflexivity.
Defined.

(** ** Rewriting [config.yaml] again *)

Lemma set_stats_file_has (conf conf' : yaml) (section v : string) :
  set_stats_file conf section v = Ok conf' -> has_stats_file conf' section v.
Proof.
  unfold set_stats_file. destruct conf as [| m]; [discriminate |].
  destruct (m !! section) as [[| inner] |]; try discriminate.
  intros [= <-]. eexists _, _. split; [reflexivity |].
  rewrite !lookup_insert_eq. split; reflexivity.
Qed.

Lemma set_stats_file_other (conf conf' : yaml) (section section' v v' : string) :
  section <> section' ->
  has_stats_file conf section v ->
  set_stats_file conf section' v' = Ok conf' ->
  has_stats_file conf' section v.
Proof.
  intros Hne (m & inner & -> & Hm & Hv). unfold set_stats_file.
  destruct (m !! section') as [[| inner'] |]; try discriminate.
  intros [= <-]. eexists _, inner. split; [reflexivity |].
  rewrite lookup_insert_ne by congruence. split; assumption.
Qed.

Lemma set_stats_file_again (conf : yaml) (section v : string) :
  has_stats_file conf section v -> set_stats_file conf section v = Ok conf.
Proof.
  intros (m & inner & -> & Hm & Hv). unfold set_stats_file. rewrite Hm.
  rewrite (insert_id inner) by exact Hv. rewrite insert_id by exact Hm.
  reflexivity.
Qed.

(** The three assignments leave a document on which they change nothing. *)
Lemma stats_chain_fixpoint (conf conf' : yaml) (v1 v2 v3 : string) :
  (c ← set_stats_file conf "normalize_conf" v1;
   c ← set_stats_file c "pitch_normalize_conf" v2;
   set_stats_file c "energy_normalize_conf" v3) = Ok conf' ->
  (c ← set_stats_file conf' "normalize_conf" v1;
   c ← set_stats_file c "pitch_normalize_conf" v2;
   set_stats_file c "energy_normalize_conf" v3) = Ok conf'.
Proof.
  destruct (set_stats_file conf _ v1) as [c1 |] eqn:E1; [| discriminate].
  cbn [mbind result_bind].
  destruct (set_stats_file c1 _ v2) as [c2 |] eqn:E2; [| discriminate].
  cbn [mbind result_bind]. intros E3.
  pose proof (set_stats_file_has _ _ _ _ E1) as H1.
  pose proof (set_stats_file_has _ _ _ _ E2) as H2.
  pose proof (set_stats_file_has _ _ _ _ E3) as H3.
  assert (H12 : has_stats_file c2 "normalize_conf" v1)
    by (eapply set_stats_file_other; [| exact H1 | exact E2]; discriminate).
  assert (H13 : has_stats_file conf' "normalize_conf" v1)
    by (eapply set_stats_file_other; [| exact H12 | exact E3]; discriminate).
  assert (H23 : has_stats_file conf' "pitch_normalize_conf" v2)
    by (eapply set_stats_file_other; [| exact H2 | exact E3]; discriminate).
  rewrite (set_stats_file_again _ _ _ H13). cbn [mbind result_bind].
  rewrite (set_stats_file_again _ _ _ H23). cbn [mbind result_bind].
  exact (set_stats_file_again _ _ _ H3).
Qed.

Lemma build_fastspeech2_inv (e e1 : engine) (language gender : string)
    (h : handle) :
  build_fastspeech2 e language gender = (Ok h, e1) ->
  let st := model_store e in
  let model_path := get_model_path st language gender in
  let config_file := path_str (model_path /: "config.yaml") in
  exists conf,
    path_exists (fs st) (model_path /: "config.yaml") = true
    /\ path_exists (fs st) (model_path /: "model.pth") = true
    /\ fs st !! config_file = Some (File (Doc conf))
    /\ (c ← set_stats_file conf "normalize_conf"
              (path_str (model_path /: "feats_stats.npz"));
        c ← set_stats_file c "pitch_normalize_conf"
              (path_str (model_path /: "pitch_stats.npz"));
        set_stats_file c "energy_normalize_conf"
          (path_str (model_path /: "energy_stats.npz"))) = Ok (h_config h)
    /\ model_store e1
       = set_fs st (<[config_file := File (Doc (h_config h))]> (fs st)).
Proof.
  unfold build_fastspeech2. cbn zeta.
  destruct (path_exists _ (_ /: "config.yaml")) eqn:Hc; cbn [negb]; [| discriminate].
  destruct (path_exists _ (_ /: "model.pth")) eqn:Hm; cbn [negb]; [| discriminate].
  destruct (fs (model_store e) !! _) as [[| [b | conf]] |] eqn:Hconf;
    try discriminate.
  match goal with
  | |- context [match ?x with Ok _ => _ | Raise _ => _ end] =>
    destruct x as [conf' |] eqn:Hchain; [| discriminate]
  end.
  unfold construct. intros [= <- <-]. exists conf.
  cbn [h_config model_store set_store]. repeat split; assumption.
Qed.

(** X22. Loading the acoustic model of a key again, right after a load that
    succeeded, succeeds and rewrites [config.yaml] with the content it
    already has: the file system is unchanged and the new object reads the
    same configuration. *)
Theorem load_fastspeech2_rewrite_idempotent (e e1 : engine)
    (language gender : string) (h : handle) :
  load_fastspeech2 e language gender = (Ok h, e1) ->
  exists h' e2,
    load_fastspeech2 e1 language gender = (Ok h', e2)
    /\ fs (model_store e2) = fs (model_store e1)
    /\ h_config h' = h_config h.
Proof.
  unfold load_fastspeech2 at 1.
  destruct (ensure_model (model_store e) language gender)
    as [[success msg] st] eqn:Hens.
  destruct success; cbn [negb]; [| discriminate].
  intros Hbuild.
  pose proof (ensure_model_present _ _ _ _ _ Hens) as Hlocal.
  destruct (build_fastspeech2_inv _ _ _ _ _ Hbuild)
    as (conf & Hc & Hm & Hconf & Hchain & Hstore).
  cbn [model_store set_store] in Hc, Hm, Hconf, Hchain, Hstore.
  set (config_file := path_str (get_model_path st language gender /: "config.yaml"))
    in *.
  set (fs1 := <[config_file := File (Doc (h_config h))]> (fs st)) in *.
  assert (Hkeeps : fs_keeps (fs st) fs1) by apply fs_keeps_insert.
  assert (Hlocal1 : model_exists_locally (model_store e1) language gender = true).
  { rewrite Hstore. unfold model_exists_locally, get_model_path in *.
    cbn [fs set_fs models_dir]. rewrite forallb_forall in *.
    intros f Hf. exact (path_exists_keeps _ _ _ Hkeeps (Hlocal f Hf)). }
  unfold load_fastspeech2, ensure_model, ensure_model_locked.
  rewrite model_exists_locally_lock, Hlocal1. cbn [negb].
  unfold build_fastspeech2. cbn [model_store set_store fs _get_download_lock].
  rewrite Hstore. cbn [fs set_fs].
  change (get_model_path (_get_download_lock (set_fs st fs1)
                            (model_lock_key language gender)) language gender)
    with (get_model_path st language gender).
  rewrite (path_exists_keeps _ _ _ Hkeeps Hc), (path_exists_keeps _ _ _ Hkeeps Hm).
  cbn [negb]. fold config_file. unfold fs1 at 1. rewrite lookup_insert_eq.
  rewrite (stats_chain_fixpoint _ _ _ _ _ Hchain).
  unfold construct. eexists _, _. split; [reflexivity |].
  cbn [model_store set_store set_fs fs h_config]. split; [| reflexivity].
  unfold fs1. apply insert_insert_eq.
Qed.

Lemma load_fastspeech2_rewrite_idempotent_witness :
  let e := demo_engine "models" in
  let r1 := load_fastspeech2 e "hindi" "male" in
  let r2 := load_fastspeech2 (snd r1) "hindi" "male" in
  is_ok (fst r1) = true
  /\ is_ok (fst r2) = true
  /\ fs (model_store (snd r2)) = fs (model_store (snd r1)).
Proof.
  intros e r1 r2.
  pose (h := match fst r1 with Ok h => h | Raise _ => Handle 0 "" (YScalar "") end).
  assert (H : load_fastspeech2 e "hindi" "male" = (Ok h, snd r1))
    by (vm_compute; reflexivity).
  destruct (load_fastspeech2_rewrite_idempotent e (snd r1) "hindi" "male" h H)
    as (h' & e2 & H2 & Hfs & _).
  split; [vm_compute; reflexivity |].
  unfold r2. rewrite H2. split; [reflexivity | exact Hfs].
Defined.

(** ** A download attempt creates the directory it downloads to *)

Lemma mkdir_go_exists (rest pre : list string) (root : string)
    (f f' : filesystem) :
  rest <> [] -> mkdir_go f root pre rest = Some f' ->
  is_Some (f' !! path_str (MkPath root (pre ++ rest))).
Proof.
  revert pre f. induction rest as [| x rest IH]; intros pre f Hne; [contradiction |].
  cbn [mkdir_go].
  destruct rest as [| y rest].
  - cbn [mkdir_go]. destruct (f !! _) as [[| d] |] eqn:Hk; [| discriminate |];
      intros [= <-]; [rewrite Hk | rewrite lookup_insert_eq]; eauto.
  - replace (pre ++ x :: y :: rest) with ((pre ++ [x]) ++ y :: rest)
      by (rewrite <- app_assoc; reflexivity).
    destruct (f !! _) as [[| d] |]; [| discriminate |]; apply IH; discriminate.
Qed.

Lemma mkdir_p_exists (f f' : filesystem) (p : path) :
  p_parts p <> [] -> mkdir_p f p = Some f' -> path_exists f' p = true.
Proof.
  intros Hne H. apply bool_decide_eq_true_2.
  destruct p as [root parts]. exact (mkdir_go_exists parts [] root f f' Hne H).
Qed.

Lemma download_from_gcs_creates (st : store) (gcs_prefix : string)
    (local_path : path) :
  is_Some (gcs_bucket st) -> p_parts local_path <> [] ->
  is_Some (mkdir_p (fs st) local_path) ->
  path_exists (fs (snd (download_from_gcs st gcs_prefix local_path)))
    local_path = true.
Proof.
  intros [blobs Hb] Hne [fs1 Hmk].
  pose proof (mkdir_p_exists _ _ _ Hne Hmk) as Hex.
  unfold download_from_gcs. rewrite Hb, Hmk.
  set (st1 := log_gcs (set_fs st fs1) (ListBlobs gcs_prefix)).
  assert (H1 : path_exists (fs st1) local_path = true) by exact Hex.
  destruct (negb (gcs_online st)); [exact H1 |].
  destruct (nonempty_list _); [| exact H1].
  destruct (download_blobs_keeps (List.filter (fun b => String.prefix gcs_prefix (fst b)) blobs)
              st1 gcs_prefix local_path) as [_ Hk].
  exact (path_exists_keeps _ _ _ Hk H1).
Qed.

(** X21. With a bucket configured and the vocoder not on disk, [ensure_vocoder]
    first downloads to the vocoder directory of the language, which creates
    that directory; from then on [get_vocoder_path] is that directory.  So
    when the directory of the language lacks a required file at the end,
    the call fails, even if the download of the group vocoder has put a
    complete vocoder into the [aryan] directory. *)
Theorem downloaded_group_vocoder_is_not_used (st : store)
    (language gender f : string) :
  let lang_vocoder := models_dir st /: "vocoder" /: gender /: language in
  let r := ensure_vocoder st language gender in
  is_Some (gcs_bucket st) ->
  vocoder_exists_locally st language gender = false ->
  p_parts lang_vocoder <> [] ->
  is_Some (mkdir_p (fs st) lang_vocoder) ->
  In f vocoder_required_files ->
  path_exists (fs (snd r)) (lang_vocoder /: f) = false ->
  fst r = (false, "Failed to download vocoder from GCS"%string).
Proof.
  intros lang_vocoder r [blobs Hb] Hlocal Hparts Hmk Hf. subst r.
  unfold ensure_vocoder, ensure_vocoder_locked.
  rewrite vocoder_exists_locally_lock, Hlocal.
  set (st0 := _get_download_lock st (vocoder_lock_key language gender)).
  change (gcs_bucket st0) with (gcs_bucket st). rewrite Hb.
  change (models_dir st0) with (models_dir st). fold lang_vocoder.
  pose proof (download_from_gcs_creates st0
                ("vocoder/" +:+ gender +:+ "/" +:+ language) lang_vocoder
                (ex_intro _ blobs Hb) Hparts Hmk) as Hdir.
  pose proof (download_from_gcs_keeps st0
                ("vocoder/" +:+ gender +:+ "/" +:+ language) lang_vocoder) as H1.
  destruct (download_from_gcs st0 _ lang_vocoder) as [ok st1].
  cbn [snd] in Hdir, H1.
  assert (Hnot : forall st', store_keeps st1 st' ->
            path_exists (fs st') (lang_vocoder /: f) = false ->
            vocoder_exists_locally st' language gender = false).
  { intros st' [Hmd Hk] Hmiss. unfold vocoder_exists_locally, get_vocoder_path.
    destruct H1 as [Hmd1 _]. rewrite Hmd, Hmd1.
    change (models_dir st0) with (models_dir st). fold lang_vocoder.
    rewrite (path_exists_keeps _ _ _ Hk Hdir).
    apply not_true_is_false. intros Hall. rewrite forallb_forall in Hall.
    rewrite (Hall f Hf) in Hmiss. discriminate. }
  destruct (ok && vocoder_exists_locally st1 language gender) eqn:E1.
  { cbn [snd fst]. intros Hmiss.
    rewrite (Hnot st1 (store_keeps_refl _) Hmiss), andb_false_r in E1.
    discriminate. }
  pose proof (download_from_gcs_keeps st1 ("vocoder/" +:+ gender +:+ "/aryan")
                (models_dir st1 /: "vocoder" /: gender /: "aryan")) as H2.
  destruct (download_from_gcs st1 _ _) as [ok2 st2]. cbn [snd] in H2.
  destruct (ok2 && vocoder_exists_locally st2 language gender) eqn:E2;
    [| reflexivity].
  cbn [snd fst]. intros Hmiss.
  rewrite (Hnot st2 H2 Hmiss), andb_false_r in E2. discriminate.
Qed.

Lemma downloaded_group_vocoder_is_not_used_witness :
  let st := aryan_bucket_store "/models" in
  let r := ensure_vocoder st "hindi" "male" in
  let aryan := Path "/models" /: "vocoder" /: "male" /: "aryan" in
  (path_exists (fs (snd r)) (aryan /: "config.json") = true
   /\ path_exists (fs (snd r)) (aryan /: "generator") = true)
  /\ fst r = (false, "Failed to download vocoder from GCS"%string).
Proof.
  intros st r aryan. split; [split; vm_compute; reflexivity |].
  apply (downloaded_group_vocoder_is_not_used st "hindi" "male" "generator").
  - cbn. eauto.
  - vm_compute. reflexivity.
  - vm_compute. discriminate.
  - apply is_Some_alt. vm_compute. exact I.
  - right; left; reflexivity.
  - vm_compute. reflexivity.
Defined.

(** ** The name of the bucket *)

Lemma scheme_needs_two_slashes (s : text) :
  (length (List.filter (N.eqb 47) s) <= 1)%nat ->
  starts_with (str "gs://") s = false.
Proof.
  intros H. destruct (starts_with (str "gs://") s) eqn:E; [| reflexivity].
  apply starts_with_true in E as [r ->].
  rewrite List.filter_app, length_app in H.
  change (length (List.filter (N.eqb 47) (str "gs://"))) with 2%nat in H. lia.
Qed.

Lemma replace_scheme_absent (s : text) :
  (length (List.filter (N.eqb 47) s) <= 1)%nat ->
  replace s (str "gs://") [] = s.
Proof.
  induction s as [| c s IH]; intros H; [reflexivity |].
  rewrite replace_char by (apply scheme_needs_two_slashes, H).
  rewrite IH; [reflexivity |].
  cbn [List.filter] in H. destruct (47 =? c); cbn [length] in H; lia.
Qed.

Lemma filter_slash_free (name : text) :
  ~ In 47 name -> List.filter (N.eqb 47) name = [].
Proof.
  intros H. apply filter_none. intros c Hc.
  apply N.eqb_neq. intros <-. exact (H Hc).
Qed.

Lemma lstrip_char_free (ch : N) (s : text) :
  ~ In ch s -> lstrip_char ch s = s.
Proof.
  destruct s as [| c s]; [reflexivity |]. intros H. cbn [lstrip_char].
  destruct (N.eqb_spec c ch) as [-> | _]; [| reflexivity].
  exfalso. apply H. left. reflexivity.
Qed.

Lemma strip_char_free (ch : N) (s : text) : ~ In ch s -> strip_char ch s = s.
Proof.
  intros H. unfold strip_char. rewrite (lstrip_char_free ch s H).
  rewrite lstrip_char_free by (intros Hin; apply H, in_rev, Hin).
  apply rev_involutive.
Qed.

Lemma strip_char_trailing (ch : N) (s : text) :
  ~ In ch s -> strip_char ch (s ++ [ch]) = s.
Proof.
  intros H. unfold strip_char. destruct s as [| c s].
  - cbn. rewrite N.eqb_refl. reflexivity.
  - assert (Hc : c <> ch) by (intros ->; apply H; left; reflexivity).
    cbn [app lstrip_char]. destruct (N.eqb_spec c ch); [contradiction |].
    change (c :: s ++ [ch]) with ((c :: s) ++ [ch]).
    rewrite rev_app_distr.
    change (rev [ch] ++ rev (c :: s)) with (ch :: rev (c :: s)).
    cbn [lstrip_char]. rewrite N.eqb_refl.
    rewrite lstrip_char_free by (intros Hin; apply H, in_rev, Hin).
    apply rev_involutive.
Qed.

(** X29. The bucket may be given by its name or as a [gs://] address, with or
    without a slash at the end: for a name without a slash the four
    spellings give the name. *)
Theorem bucket_name_spellings (name : text) :
  ~ In 47 name ->
  bucket_name name = name
  /\ bucket_name (name ++ str "/") = name
  /\ bucket_name (str "gs://" ++ name) = name
  /\ bucket_name (str "gs://" ++ name ++ str "/") = name.
Proof.
  intros H. pose proof (filter_slash_free name H) as Hf.
  assert (H0 : replace name (str "gs://") [] = name).
  { apply replace_scheme_absent. rewrite Hf. cbn. lia. }
  assert (H1 : replace (name ++ str "/") (str "gs://") [] = name ++ str "/").
  { apply replace_scheme_absent. rewrite List.filter_app, Hf.
    change (length ([] ++ List.filter (N.eqb 47) (str "/"))) with 1%nat. lia. }
  unfold bucket_name.
  rewrite !replace_match by discriminate. cbn [app]. rewrite H0, H1.
  change (str "/") with [47].
  repeat split; try apply strip_char_free; try apply strip_char_trailing; exact H.
Qed.

Lemma bucket_name_spellings_witness :
  bucket_name (str "gs://my-bucket/") = str "my-bucket".
Proof.
  apply (bucket_name_spellings (str "my-bucket")).
  intros Hin. vm_compute in Hin.
  repeat (destruct Hin as [Hin | Hin]; [discriminate |]). exact Hin.
Defined.

(** ** The voices on disk *)

Lemma genders_loop_sound (st : store) (language : string)
    (gender_dirs : list path) (genders : list string) :
  Forall (fun g => model_exists_locally st language g = true) genders ->
  Forall (fun g => model_exists_locally st language g = true)
    (genders_loop st language gender_dirs genders).
Proof.
  revert genders. induction gender_dirs as [| d rest IH]; intros genders H;
    [exact H |].
  cbn [genders_loop]. destruct (negb (is_dir (fs st) d)); [apply IH, H |].
  destruct (model_exists_locally st language (path_name d)) eqn:E;
    [| apply IH, H].
  apply IH, Forall_app. split; [exact H |]. constructor; [exact E | constructor].
Qed.

Lemma py_sorted_spec (l : list string) :
  Sorted str_le (py_sorted l) /\ (forall g, In g (py_sorted l) <-> In g l)
  /\ (l <> [] -> py_sorted l <> []).
Proof.
  unfold py_sorted. pose proof (merge_sort_Permutation str_le l) as Hperm.
  split; [apply Sorted_merge_sort; apply _ |]. split.
  - intros g. rewrite <- !list_elem_of_In. rewrite Hperm. reflexivity.
  - intros Hne E. rewrite E in Hperm. apply Permutation_nil_l in Hperm.
    exact (Hne (eq_sym Hperm)).
Qed.

Lemma languages_loop_sound (st : store) (lang_dirs : list path)
    (available : gmap string (list string)) (P : string -> list string -> Prop) :
  (forall language genders,
     language <> "vocoder"%string -> genders <> [] ->
     Forall (fun g => model_exists_locally st language g = true) genders ->
     P language (py_sorted genders)) ->
  (forall language genders, available !! language = Some genders ->
                            P language genders) ->
  forall language genders,
    languages_loop st lang_dirs available !! language = Some genders ->
    P language genders.
Proof.
  intros HP. revert available.
  induction lang_dirs as [| d rest IH]; intros available Hav; [exact Hav |].
  cbn [languages_loop].
  destruct (negb (is_dir (fs st) d)); cbn [orb]; [apply IH, Hav |].
  destruct (String.eqb_spec (path_name d) "vocoder"); [apply IH, Hav |].
  apply IH.
  pose proof (genders_loop_sound st (path_name d) (iterdir (fs st) d) []
                ltac:(constructor)) as Hg.
  destruct (genders_loop st (path_name d) (iterdir (fs st) d) [])
    as [| g gs] eqn:E; [exact Hav |].
  cbn [nonempty_list]. intros language genders.
  destruct (decide (language = path_name d)) as [-> | Hne].
  - rewrite lookup_insert_eq. intros [= <-].
    apply HP; [assumption | discriminate | exact Hg].
  - rewrite lookup_insert_ne by congruence. apply Hav.
Qed.

(** X30. Every language that [list_available_models] returns is the name of a
    directory other than [vocoder]; its list of genders is not empty and
    sorted, and for every gender in it the five model files are on disk, so
    that [ensure_model] succeeds for the voice without a download. *)
Theorem list_available_models_sound (st : store)
    (available : gmap string (list string)) (language : string)
    (genders : list string) :
  list_available_models st = Ok available ->
  available !! language = Some genders ->
  language <> "vocoder"%string
  /\ genders <> []
  /\ Sorted str_le genders
  /\ forall g, In g genders ->
       model_exists_locally st language g = true
       /\ fst (ensure_model st language g)
          = (true, "Model exists locally"%string).
Proof.
  unfold list_available_models.
  destruct (negb (path_exists (fs st) (models_dir st)));
    [intros [= <-]; rewrite lookup_empty; discriminate |].
  intros Hres.
  assert (Hloop : languages_loop st (iterdir (fs st) (models_dir st)) ∅
                  = available).
  { destruct (fs st !! path_str (models_dir st)) as [[| d] |];
      [| discriminate |]; injection Hres as <-; reflexivity. }
  rewrite <- Hloop. clear Hres Hloop. revert language genders.
  apply languages_loop_sound.
  - intros language genders Hne Hnil Hall.
    destruct (py_sorted_spec genders) as (Hsorted & Hin & Hnonempty).
    split; [exact Hne |]. split; [exact (Hnonempty Hnil) |].
    split; [exact Hsorted |].
    intros g Hg. apply Hin in Hg. rewrite Forall_forall in Hall.
    apply list_elem_of_In in Hg. specialize (Hall g Hg).
    split; [exact Hall |].
    unfold ensure_model, ensure_model_locked.
    rewrite model_exists_locally_lock, Hall. reflexivity.
  - intros language genders. rewrite lookup_empty. discriminate.
Qed.

Lemma list_available_models_sound_witness :
  let st := tree_store "/models" in
  list_available_models st = Ok {[ "hindi"%string := ["male"%string] ]}
  /\ model_exists_locally st "hindi" "male" = true.
Proof.
  intros st.
  assert (H : list_available_models st = Ok {[ "hindi"%string := ["male"%string] ]})
    by (vm_compute; reflexivity).
  split; [exact H |].
  destruct (list_available_models_sound st _ "hindi" ["male"%string] H)
    as (_ & _ & _ & Hall); [reflexivity |].
  exact (proj1 (Hall "male"%string (or_introl eq_refl))).
Defined.

